(** * readium-lcp-server: the content index and the license store

    A shallow embedding of the two persistence adapters of the LCP server,
    [index/index.go] and [license/store.go], together with a model of the
    part of [database/sql] and of the SQL engine that they drive.

    The adapters are thin: every operation binds Go values to the
    parameters of a prepared statement and hands it to the database.  What
    they do is therefore only visible through the statements' text, so the
    texts are kept verbatim, lexed and parsed by [Sql.parse], and executed
    by [Sql.run] over an in-memory database.

    What the model takes for granted of the world outside the two files:
    - the engine understands the SQL the two files use, keeps the values
      bound, enforces NOT NULL and PRIMARY KEY, records foreign keys
      without enforcing them, keeps the rows of a table in the order of
      their insertion and refuses a negative LIMIT or OFFSET;
    - of a time the database keeps the instant, seconds and nanoseconds,
      and not the location: a row is written here with the time as it was
      bound, but its location is never read, for the engine compares and
      orders times by their instant and the driver hands every time back
      in UTC ([DB.dest_time]);
    - the driver binds a nil [[]byte] as NULL and hands a NULL back as a nil
      [[]byte];
    - preparing a statement checks its syntax, its table and its columns;
    - any call that reaches the driver may fail with an error of the driver
      ([DB.faults]); a result set is computed when the query runs, so that
      iterating over it cannot fail half-way;
    - [Scan] converts a column to a field of its own kind only. *)

From Stdlib Require Import String Ascii List ZArith Lia Bool Arith.
From Stdlib Require Import Sorting.Permutation Sorting.Sorted.
Import ListNotations.

Open Scope string_scope.
Open Scope Z_scope.

(** ** Go values *)

(** [time.Time]: an instant (seconds since the zero time, and nanoseconds)
    and a location.  The monotonic clock reading is left out. *)
Inductive TimeLoc := UTC | Local.

Record Time := mkTime { sec : Z; nsec : Z; loc : TimeLoc }.

Definition Second : Z := 1000000000.

(** [t.UTC()] *)
Definition Time_UTC (t : Time) : Time :=
  {| sec := sec t; nsec := nsec t; loc := UTC |}.

(** [t.Truncate(d)]: [t] rounded down to a multiple of [d] since the zero
    time; [t] itself when [d <= 0]. *)
Definition Time_Truncate (t : Time) (d : Z) : Time :=
  if d <=? 0 then t
  else
    let T := sec t * Second + nsec t in
    let T' := T - T mod d in
    {| sec := T' / Second; nsec := T' mod Second; loc := loc t |}.

(** The zero [time.Time]. *)
Definition Time_zero : Time := {| sec := 0; nsec := 0; loc := UTC |}.

(** Go's [int] on a 64-bit platform: multiplication wraps around. *)
Definition wrap64 (z : Z) : Z := (z + 2 ^ 63) mod 2 ^ 64 - 2 ^ 63.
Definition int_mul (a b : Z) : Z := wrap64 (a * b).

Definition in_int32 (z : Z) : bool := (- 2 ^ 31 <=? z) && (z <? 2 ^ 31).
Definition in_int64 (z : Z) : bool := (- 2 ^ 63 <=? z) && (z <? 2 ^ 63).

(** The [error] values that cross this layer.  A Go [error] that may be nil
    is an [option error]. *)
Inductive error :=
| ErrContentNotFound          (* index.NotFound: errors.New("Content not found") *)
| ErrLicenseNotFound          (* license.NotFound: errors.New("License not found") *)
| ErrNoRows                   (* sql.ErrNoRows *)
| ErrDriver (msg : string)    (* an error of the driver or of the engine *)
| ErrScan (msg : string).     (* a conversion error of Rows.Scan *)

Inductive result (A : Type) :=
| Ok (a : A)
| Fail (e : error).
Arguments Ok {A} a.
Arguments Fail {A} e.

(** A character as a one-letter string; the double quote is built from its
    code. *)
Definition dquote : ascii := ascii_of_nat 34.
Definition squote : ascii := ascii_of_nat 39.
Definition str1 (c : ascii) : string := String c EmptyString.

(** ** The SQL engine *)

Module Sql.

(** A value bound to a parameter or held in a column ([driver.Value]). *)
Inductive value :=
| VNull
| VInt (z : Z)
| VStr (s : string)
| VBytes (b : list Byte.byte)
| VTime (t : Time).

Definition row := list value.
Bind Scope list_scope with row.

Fixpoint bytes_eqb (a b : list Byte.byte) : bool :=
  match a, b with
  | [], [] => true
  | x :: a', y :: b' => Byte.eqb x y && bytes_eqb a' b'
  | _, _ => false
  end.

Definition TimeLoc_eqb (a b : TimeLoc) : bool :=
  match a, b with
  | UTC, UTC | Local, Local => true
  | _, _ => false
  end.

Definition Time_eqb (a b : Time) : bool :=
  (sec a =? sec b) && (nsec a =? nsec b) && TimeLoc_eqb (loc a) (loc b).

Definition value_eqb (a b : value) : bool :=
  match a, b with
  | VNull, VNull => true
  | VInt x, VInt y => x =? y
  | VStr x, VStr y => String.eqb x y
  | VBytes x, VBytes y => bytes_eqb x y
  | VTime x, VTime y => Time_eqb x y
  | _, _ => false
  end.

(** SQL's [=]: never true of NULL; two times are equal when they are the
    same instant. *)
Definition sql_eq (a b : value) : bool :=
  match a, b with
  | VNull, _ | _, VNull => false
  | VTime x, VTime y => (sec x =? sec y) && (nsec x =? nsec y)
  | _, _ => value_eqb a b
  end.

(** The order of ORDER BY: NULL first, then by kind, then by content. *)
Definition rank (v : value) : Z :=
  match v with
  | VNull => 0 | VInt _ => 1 | VStr _ => 2 | VBytes _ => 3 | VTime _ => 4
  end.

Fixpoint bytes_compare (a b : list Byte.byte) : comparison :=
  match a, b with
  | [], [] => Eq
  | [], _ :: _ => Lt
  | _ :: _, [] => Gt
  | x :: a', y :: b' =>
      match N.compare (Byte.to_N x) (Byte.to_N y) with
      | Eq => bytes_compare a' b'
      | c => c
      end
  end.

Definition value_compare (a b : value) : comparison :=
  match a, b with
  | VInt x, VInt y => Z.compare x y
  | VStr x, VStr y => String.compare x y
  | VBytes x, VBytes y => bytes_compare x y
  | VTime x, VTime y =>
      match Z.compare (sec x) (sec y) with
      | Eq => Z.compare (nsec x) (nsec y)
      | c => c
      end
  | _, _ => Z.compare (rank a) (rank b)
  end.

Definition value_ltb (a b : value) : bool :=
  match value_compare a b with Lt => true | _ => false end.

(** *** Lexer *)

Inductive token :=
| TWord (s : string)       (* a keyword or a bare identifier *)
| TQuoted (s : string)     (* a double-quoted identifier *)
| TLit (s : string)        (* a single-quoted string literal *)
| TNum (n : Z)
| TDollar (n : nat)        (* $n *)
| TQMark                   (* ? *)
| TLParen | TRParen | TComma | TEq
| TBad (c : ascii).

Inductive lexst :=
| LIdle
| LWord (acc : string)
| LNum (n : Z)
| LDollar (n : nat)
| LDq (acc : string)
| LSq (acc : string).

Definition code (c : ascii) : nat := nat_of_ascii c.

Definition is_digit (c : ascii) : bool :=
  (48 <=? code c)%nat && (code c <=? 57)%nat.
Definition is_lower (c : ascii) : bool :=
  (97 <=? code c)%nat && (code c <=? 122)%nat.
Definition is_upper (c : ascii) : bool :=
  (65 <=? code c)%nat && (code c <=? 90)%nat.
Definition is_word_start (c : ascii) : bool :=
  is_lower c || is_upper c || (code c =? 95)%nat.
Definition is_word_char (c : ascii) : bool := is_word_start c || is_digit c.
Definition is_space (c : ascii) : bool :=
  (code c =? 32)%nat || (code c =? 9)%nat || (code c =? 10)%nat || (code c =? 13)%nat.
Definition digit_val (c : ascii) : nat := (code c - 48)%nat.

Definition snoc (s : string) (c : ascii) : string := s ++ str1 c.

Definition step_idle (c : ascii) : list token * lexst :=
  if is_space c then ([], LIdle)
  else if is_word_start c then ([], LWord (str1 c))
  else if is_digit c then ([], LNum (Z.of_nat (digit_val c)))
  else if (code c =? 36)%nat then ([], LDollar 0)
  else if (code c =? 34)%nat then ([], LDq EmptyString)
  else if (code c =? 39)%nat then ([], LSq EmptyString)
  else if (code c =? 63)%nat then ([TQMark], LIdle)
  else if (code c =? 40)%nat then ([TLParen], LIdle)
  else if (code c =? 41)%nat then ([TRParen], LIdle)
  else if (code c =? 44)%nat then ([TComma], LIdle)
  else if (code c =? 61)%nat then ([TEq], LIdle)
  else ([TBad c], LIdle).

Definition emit (t : token) (c : ascii) : list token * lexst :=
  let '(out, st) := step_idle c in (t :: out, st).

Definition step (st : lexst) (c : ascii) : list token * lexst :=
  match st with
  | LIdle => step_idle c
  | LWord acc =>
      if is_word_char c then ([], LWord (snoc acc c)) else emit (TWord acc) c
  | LNum n =>
      if is_digit c then ([], LNum (10 * n + Z.of_nat (digit_val c)))
      else emit (TNum n) c
  | LDollar n =>
      if is_digit c then ([], LDollar (10 * n + digit_val c)%nat)
      else emit (TDollar n) c
  | LDq acc =>
      if (code c =? 34)%nat then ([TQuoted acc], LIdle) else ([], LDq (snoc acc c))
  | LSq acc =>
      if (code c =? 39)%nat then ([TLit acc], LIdle) else ([], LSq (snoc acc c))
  end.

(** What is left in the state when the text ends; an open quote is an
    error. *)
Definition flush (st : lexst) : list token :=
  match st with
  | LIdle => []
  | LWord acc => [TWord acc]
  | LNum n => [TNum n]
  | LDollar n => [TDollar n]
  | LDq _ => [TBad dquote]
  | LSq _ => [TBad squote]
  end.

Fixpoint lex_from (st : lexst) (s : string) : list token :=
  match s with
  | EmptyString => flush st
  | String c s' => let '(out, st') := step st c in out ++ lex_from st' s'
  end.

(** The k-th [?] of a statement is its k-th parameter: [?] placeholders are
    numbered from 1 in reading order, which is how [$k] names them. *)
Fixpoint number_params (k : nat) (ts : list token) : list token :=
  match ts with
  | [] => []
  | TQMark :: ts' => TDollar k :: number_params (S k) ts'
  | t :: ts' => t :: number_params k ts'
  end.

Definition lex (s : string) : list token := number_params 1 (lex_from LIdle s).

(** *** Statements *)

Inductive operand :=
| OParam (n : nat)         (* the n-th argument, from 1 *)
| OConst (v : value).

Record coldef := mkCol {
  cname : string;
  ctype : string;
  csize : option Z;
  cnotnull : bool;
  cprimary : bool;
  cdefault : value
}.

(** FOREIGN KEY(col) REFERENCES table(col) *)
Record fkey := mkFk { fcol : string; ftable : string; fref : string }.

(** The statements the two packages use. *)
Inductive stmt :=
| CreateTable (if_not_exists : bool) (name : string)
              (cols : list coldef) (fks : list fkey)
| AlterAddColumn (name : string) (col : coldef)
| Insert (name : string) (cols : list string) (vals : list operand)
| Update (name : string) (sets : list (string * operand))
         (wcol : string) (wval : operand)
| Select (cols : list string) (name : string)
         (whr : option (string * operand))
         (order_desc : option string)
         (lim : option operand) (off : option operand).

(** *** Parser *)

Notation "'do' x <- a ; b" :=
  (match a with Some x => b | None => None end)
  (at level 10, x pattern, a at level 100, b at level 200, only parsing).

Definition upper_char (c : ascii) : ascii :=
  if is_lower c then ascii_of_nat (code c - 32) else c.

Fixpoint upper (s : string) : string :=
  match s with
  | EmptyString => EmptyString
  | String c s' => String (upper_char c) (upper s')
  end.

(** Keywords are matched without regard to case. *)
Definition kw (k : string) (t : token) : bool :=
  match t with
  | TWord w => String.eqb (upper w) k
  | _ => false
  end.

Definition reserved : list string :=
  ["SELECT"; "FROM"; "WHERE"; "ORDER"; "BY"; "DESC"; "ASC"; "LIMIT"; "OFFSET";
   "INSERT"; "INTO"; "VALUES"; "UPDATE"; "SET"; "CREATE"; "TABLE"; "IF";
   "NOT"; "EXISTS"; "NULL"; "PRIMARY"; "KEY"; "DEFAULT"; "FOREIGN";
   "REFERENCES"; "ALTER"; "ADD"; "COLUMN"].

Definition ident_of (t : token) : option string :=
  match t with
  | TWord w => if existsb (String.eqb (upper w)) reserved then None else Some w
  | TQuoted w => Some w
  | _ => None
  end.

Definition operand_of (t : token) : option operand :=
  match t with
  | TDollar (S n) => Some (OParam (S n))
  | TNum n => Some (OConst (VInt n))
  | TLit s => Some (OConst (VStr s))
  | TWord w => if String.eqb (upper w) "NULL" then Some (OConst VNull) else None
  | _ => None
  end.

Definition literal_of (t : token) : option value :=
  match operand_of t with
  | Some (OConst v) => Some v
  | _ => None
  end.

Definition expect (k : string) (ts : list token) : option (list token) :=
  match ts with
  | t :: ts' => if kw k t then Some ts' else None
  | [] => None
  end.

Definition expect_tok (ts : list token) (ok : token -> bool) : option (list token) :=
  match ts with
  | t :: ts' => if ok t then Some ts' else None
  | [] => None
  end.

Definition is_lparen (t : token) := match t with TLParen => true | _ => false end.
Definition is_rparen (t : token) := match t with TRParen => true | _ => false end.
Definition is_eq (t : token) := match t with TEq => true | _ => false end.

Definition parse_ident (ts : list token) : option (string * list token) :=
  match ts with
  | t :: ts' => do n <- ident_of t; Some (n, ts')
  | [] => None
  end.

Definition parse_operand (ts : list token) : option (operand * list token) :=
  match ts with
  | t :: ts' => do o <- operand_of t; Some (o, ts')
  | [] => None
  end.

(** ident {, ident} *)
Fixpoint parse_names (ts : list token) : option (list string * list token) :=
  match ts with
  | [] => None
  | t :: rest =>
      do n <- ident_of t;
      match rest with
      | TComma :: rest' => do (ns, r) <- parse_names rest'; Some (n :: ns, r)
      | _ => Some ([n], rest)
      end
  end.

(** operand {, operand} *)
Fixpoint parse_operands (ts : list token) : option (list operand * list token) :=
  match ts with
  | [] => None
  | t :: rest =>
      do o <- operand_of t;
      match rest with
      | TComma :: rest' => do (os, r) <- parse_operands rest'; Some (o :: os, r)
      | _ => Some ([o], rest)
      end
  end.

(** ident = operand {, ident = operand} *)
Fixpoint parse_sets (ts : list token)
  : option (list (string * operand) * list token) :=
  match ts with
  | c :: TEq :: o :: rest =>
      do n <- ident_of c;
      do v <- operand_of o;
      match rest with
      | TComma :: rest' => do (ss, r) <- parse_sets rest'; Some ((n, v) :: ss, r)
      | _ => Some ([(n, v)], rest)
      end
  | _ => None
  end.

(** [WHERE ident = operand], when the next word is WHERE *)
Definition parse_where (ts : list token)
  : option (option (string * operand) * list token) :=
  match ts with
  | t :: rest =>
      if kw "WHERE" t then
        do (c, r1) <- parse_ident rest;
        do r2 <- expect_tok r1 is_eq;
        do (o, r3) <- parse_operand r2;
        Some (Some (c, o), r3)
      else Some (None, ts)
  | [] => Some (None, ts)
  end.

(** [ORDER BY ident DESC], when the next word is ORDER *)
Definition parse_order (ts : list token) : option (option string * list token) :=
  match ts with
  | t :: rest =>
      if kw "ORDER" t then
        do r1 <- expect "BY" rest;
        do (c, r2) <- parse_ident r1;
        do r3 <- expect "DESC" r2;
        Some (Some c, r3)
      else Some (None, ts)
  | [] => Some (None, ts)
  end.

(** [k operand], when the next word is [k] (LIMIT, OFFSET) *)
Definition parse_clause (k : string) (ts : list token)
  : option (option operand * list token) :=
  match ts with
  | t :: rest =>
      if kw k t then do (o, r) <- parse_operand rest; Some (Some o, r)
      else Some (None, ts)
  | [] => Some (None, ts)
  end.

Definition parse_select (ts : list token) : option stmt :=
  do (cols, r1) <- parse_names ts;
  do r2 <- expect "FROM" r1;
  do (tbl, r3) <- parse_ident r2;
  do (whr, r4) <- parse_where r3;
  do (ord, r5) <- parse_order r4;
  do (lim, r6) <- parse_clause "LIMIT" r5;
  do (off, r7) <- parse_clause "OFFSET" r6;
  match r7 with
  | [] => Some (Select cols tbl whr ord lim off)
  | _ => None
  end.

Definition parse_insert (ts : list token) : option stmt :=
  do r1 <- expect "INTO" ts;
  do (tbl, r2) <- parse_ident r1;
  do r3 <- expect_tok r2 is_lparen;
  do (cols, r4) <- parse_names r3;
  do r5 <- expect_tok r4 is_rparen;
  do r6 <- expect "VALUES" r5;
  do r7 <- expect_tok r6 is_lparen;
  do (vals, r8) <- parse_operands r7;
  do r9 <- expect_tok r8 is_rparen;
  match r9 with
  | [] => Some (Insert tbl cols vals)
  | _ => None
  end.

Definition parse_update (ts : list token) : option stmt :=
  do (tbl, r1) <- parse_ident ts;
  do r2 <- expect "SET" r1;
  do (sets, r3) <- parse_sets r2;
  do r4 <- expect "WHERE" r3;
  do (c, r5) <- parse_ident r4;
  do r6 <- expect_tok r5 is_eq;
  do (o, r7) <- parse_operand r6;
  match r7 with
  | [] => Some (Update tbl sets c o)
  | _ => None
  end.

(** The constraints of a column: PRIMARY KEY, NOT NULL, DEFAULT literal. *)
Fixpoint parse_constraints (c : coldef) (ts : list token) : option coldef :=
  match ts with
  | [] => Some c
  | t1 :: ts1 =>
      match ts1 with
      | [] => None
      | t2 :: ts2 =>
          if kw "PRIMARY" t1 && kw "KEY" t2 then
            parse_constraints
              (mkCol (cname c) (ctype c) (csize c) (cnotnull c) true (cdefault c)) ts2
          else if kw "NOT" t1 && kw "NULL" t2 then
            parse_constraints
              (mkCol (cname c) (ctype c) (csize c) true (cprimary c) (cdefault c)) ts2
          else if kw "DEFAULT" t1 then
            do v <- literal_of t2;
            parse_constraints
              (mkCol (cname c) (ctype c) (csize c) (cnotnull c) (cprimary c) v) ts2
          else None
      end
  end.

(** name type [(size)] constraints *)
Definition parse_coldef (ts : list token) : option coldef :=
  match ts with
  | n :: TWord ty :: rest =>
      do name <- ident_of n;
      match rest with
      | TLParen :: TNum k :: TRParen :: rest' =>
          parse_constraints (mkCol name ty (Some k) false false VNull) rest'
      | _ => parse_constraints (mkCol name ty None false false VNull) rest
      end
  | _ => None
  end.

Definition parse_fkey (ts : list token) : option fkey :=
  match ts with
  | [f; k; TLParen; c; TRParen; r; t; TLParen; c'; TRParen] =>
      if kw "FOREIGN" f && kw "KEY" k && kw "REFERENCES" r then
        do col <- ident_of c;
        do tbl <- ident_of t;
        do ref <- ident_of c';
        Some (mkFk col tbl ref)
      else None
  | _ => None
  end.

(** The items of a parenthesised list, cut at the commas that are not
    inside inner parentheses; returns the items and what follows the
    closing parenthesis. *)
Fixpoint split_items (depth : nat) (cur : list token) (ts : list token)
  : option (list (list token) * list token) :=
  match ts with
  | [] => None
  | t :: ts' =>
      match t with
      | TLParen => split_items (S depth) (cur ++ [t]) ts'
      | TRParen =>
          match depth with
          | O => Some ([cur], ts')
          | S d => split_items d (cur ++ [t]) ts'
          end
      | TComma =>
          match depth with
          | O => do (items, rest) <- split_items O [] ts'; Some (cur :: items, rest)
          | S _ => split_items depth (cur ++ [t]) ts'
          end
      | _ => split_items depth (cur ++ [t]) ts'
      end
  end.

Fixpoint parse_items (items : list (list token))
  : option (list coldef * list fkey) :=
  match items with
  | [] => Some ([], [])
  | it :: items' =>
      do (cs, fs) <- parse_items items';
      match it with
      | t :: _ =>
          if kw "FOREIGN" t then do f <- parse_fkey it; Some (cs, f :: fs)
          else do c <- parse_coldef it; Some (c :: cs, fs)
      | [] => None
      end
  end.

(** CREATE TABLE [IF NOT EXISTS] name ( items ) *)
Definition parse_create (ts : list token) : option stmt :=
  do r1 <- expect "TABLE" ts;
  let '(ifne, r2) :=
    match r1 with
    | a :: b :: c :: r =>
        if kw "IF" a && kw "NOT" b && kw "EXISTS" c then (true, r) else (false, r1)
    | _ => (false, r1)
    end in
  do (tbl, r3) <- parse_ident r2;
  do r4 <- expect_tok r3 is_lparen;
  do (items, r5) <- split_items O [] r4;
  do (cs, fs) <- parse_items items;
  match r5, cs with
  | [], _ :: _ => Some (CreateTable ifne tbl cs fs)
  | _, _ => None
  end.

(** ALTER TABLE name ADD COLUMN coldef *)
Definition parse_alter (ts : list token) : option stmt :=
  do r1 <- expect "TABLE" ts;
  do (tbl, r2) <- parse_ident r1;
  do r3 <- expect "ADD" r2;
  do r4 <- expect "COLUMN" r3;
  do c <- parse_coldef r4;
  Some (AlterAddColumn tbl c).

Definition parse_tokens (ts : list token) : option stmt :=
  match ts with
  | t :: rest =>
      if kw "SELECT" t then parse_select rest
      else if kw "INSERT" t then parse_insert rest
      else if kw "UPDATE" t then parse_update rest
      else if kw "CREATE" t then parse_create rest
      else if kw "ALTER" t then parse_alter rest
      else None
  | [] => None
  end.

(** A statement's text as the engine reads it; [None] is a syntax error. *)
Definition parse (q : string) : option stmt := parse_tokens (lex q).

(** *** Tables *)

Record table := mkTable {
  tcols : list coldef;
  tfks : list fkey;
  trows : list row
}.

(** A database: its tables by name, in the order of their creation. *)
Definition database := list (string * table).
Bind Scope list_scope with database.

Fixpoint find_table (db : database) (name : string) : option table :=
  match db with
  | [] => None
  | (n, t) :: db' => if String.eqb n name then Some t else find_table db' name
  end.

Fixpoint put_table (db : database) (name : string) (t : table) : database :=
  match db with
  | [] => [(name, t)]
  | (n, t0) :: db' =>
      if String.eqb n name then (n, t) :: db' else (n, t0) :: put_table db' name t
  end.

Fixpoint col_index (cs : list coldef) (c : string) : option nat :=
  match cs with
  | [] => None
  | d :: cs' =>
      if String.eqb (cname d) c then Some O else option_map S (col_index cs' c)
  end.

Definition has_col (cs : list coldef) (c : string) : bool :=
  match col_index cs c with Some _ => true | None => false end.

Definition cell (r : row) (i : nat) : value := nth i r VNull.

Fixpoint set_cell (r : row) (i : nat) (v : value) : row :=
  match r, i with
  | [], _ => []
  | _ :: r', O => v :: r'
  | x :: r', S i' => x :: set_cell r' i' v
  end.

Definition is_null (v : value) : bool :=
  match v with VNull => true | _ => false end.

(** *** Execution *)

Definition bind (args : list value) (o : operand) : option value :=
  match o with
  | OConst v => Some v
  | OParam (S n) => nth_error args n
  | OParam O => None
  end.

Fixpoint bind_all (args : list value) (os : list operand) : option (list value) :=
  match os with
  | [] => Some []
  | o :: os' =>
      do v <- bind args o;
      do vs <- bind_all args os';
      Some (v :: vs)
  end.

Fixpoint col_indexes (cs : list coldef) (names : list string) : option (list nat) :=
  match names with
  | [] => Some []
  | n :: names' =>
      do i <- col_index cs n;
      do rest <- col_indexes cs names';
      Some (i :: rest)
  end.

Fixpoint assoc (k : string) (l : list (string * value)) : option value :=
  match l with
  | [] => None
  | (k', v) :: l' => if String.eqb k' k then Some v else assoc k l'
  end.

(** The row an INSERT builds: the value given for a column, or the
    column's default. *)
Definition new_row (cs : list coldef) (given : list (string * value)) : row :=
  map (fun d => match assoc (cname d) given with
                | Some v => v
                | None => cdefault d
                end) cs.

Definition violates_notnull (cs : list coldef) (r : row) : bool :=
  existsb (fun dv => cnotnull (fst dv) && is_null (snd dv)) (combine cs r).

(** The columns declared PRIMARY KEY, by position. *)
Fixpoint key_columns (cs : list coldef) (i : nat) : list nat :=
  match cs with
  | [] => []
  | d :: cs' =>
      if cprimary d then i :: key_columns cs' (S i) else key_columns cs' (S i)
  end.

Definition same_key (cs : list coldef) (r old : row) : bool :=
  existsb (fun i => sql_eq (cell r i) (cell old i)) (key_columns cs O).

Definition duplicates_key (cs : list coldef) (r : row) (rows : list row) : bool :=
  existsb (same_key cs r) rows.

Definition apply_sets (sets : list (nat * value)) (r : row) : row :=
  fold_left (fun acc iv => set_cell acc (fst iv) (snd iv)) sets r.

(** ORDER BY column k DESC: a stable insertion sort. *)
Fixpoint insert_desc (k : nat) (x : row) (l : list row) : list row :=
  match l with
  | [] => [x]
  | y :: l' =>
      if value_ltb (cell x k) (cell y k) then y :: insert_desc k x l' else x :: l
  end.

Definition sort_desc (k : nat) (l : list row) : list row :=
  fold_right (insert_desc k) [] l.

(** The count of a LIMIT or OFFSET: a non-negative integer.  A negative one
    is refused, as PostgreSQL and MySQL do. *)
Definition count_of (args : list value) (o : option operand) : result (option nat) :=
  match o with
  | None => Ok None
  | Some x =>
      match bind args x with
      | Some (VInt n) =>
          if n <? 0 then Fail (ErrDriver "LIMIT and OFFSET must not be negative")
          else Ok (Some (Z.to_nat n))
      | Some _ => Fail (ErrDriver "LIMIT and OFFSET take an integer")
      | None => Fail (ErrDriver "missing argument")
      end
  end.

Definition drop (o : option nat) (l : list row) : list row :=
  match o with Some n => skipn n l | None => l end.

Definition take (o : option nat) (l : list row) : list row :=
  match o with Some n => firstn n l | None => l end.

Definition no_table : error := ErrDriver "no such table".
Definition no_column : error := ErrDriver "no such column".
Definition no_argument : error := ErrDriver "missing argument".

(** The rows a SELECT returns from a table. *)
Definition select_rows (t : table) (args : list value)
    (cols : list string) (whr : option (string * operand))
    (order_desc : option string) (lim off : option operand)
  : result (list row) :=
  match col_indexes (tcols t) cols with
  | None => Fail no_column
  | Some idx =>
      let filtered :=
        match whr with
        | None => Ok (trows t)
        | Some (c, o) =>
            match col_index (tcols t) c, bind args o with
            | None, _ => Fail no_column
            | _, None => Fail no_argument
            | Some i, Some w => Ok (filter (fun r => sql_eq (cell r i) w) (trows t))
            end
        end in
      match filtered with
      | Fail e => Fail e
      | Ok rows =>
          let ordered :=
            match order_desc with
            | None => Ok rows
            | Some c =>
                match col_index (tcols t) c with
                | None => Fail no_column
                | Some k => Ok (sort_desc k rows)
                end
            end in
          match ordered with
          | Fail e => Fail e
          | Ok rows' =>
              match count_of args lim, count_of args off with
              | Fail e, _ | _, Fail e => Fail e
              | Ok l, Ok o =>
                  Ok (map (fun r => map (cell r) idx) (take l (drop o rows')))
              end
          end
      end
  end.

Fixpoint resolve_sets (cs : list coldef) (args : list value)
    (sets : list (string * operand)) : result (list (nat * value)) :=
  match sets with
  | [] => Ok []
  | (c, o) :: sets' =>
      match col_index cs c, bind args o, resolve_sets cs args sets' with
      | None, _, _ => Fail no_column
      | _, None, _ => Fail no_argument
      | _, _, Fail e => Fail e
      | Some i, Some v, Ok rest => Ok ((i, v) :: rest)
      end
  end.

Definition sets_null (cs : list coldef) (sets : list (nat * value)) : bool :=
  existsb (fun iv => match nth_error cs (fst iv) with
                     | Some d => cnotnull d
                     | None => false
                     end && is_null (snd iv)) sets.

(** What a statement does to the database: the new database, the rows it
    returns and the number of rows it affected.  A value is stored as it is
    bound; NOT NULL and PRIMARY KEY are enforced, foreign keys are recorded
    and not enforced. *)
Definition run (s : stmt) (args : list value) (db : database)
  : result (database * list row * Z) :=
  match s with
  | CreateTable ifne name cols fks =>
      match find_table db name with
      | Some _ =>
          if ifne then Ok (db, [], 0) else Fail (ErrDriver "table already exists")
      | None => Ok ((db ++ [(name, mkTable cols fks [])])%list, [], 0)
      end
  | AlterAddColumn name col =>
      match find_table db name with
      | None => Fail no_table
      | Some t =>
          if has_col (tcols t) (cname col) then Fail (ErrDriver "duplicate column name")
          else
            Ok (put_table db name
                  (mkTable (tcols t ++ [col]) (tfks t)
                           (map (fun r : row => r ++ [cdefault col])%list (trows t))),
                [], 0)
      end
  | Insert name cols vals =>
      match find_table db name with
      | None => Fail no_table
      | Some t =>
          if negb (length cols =? length vals)%nat then
            Fail (ErrDriver "columns and values differ in number")
          else if negb (forallb (has_col (tcols t)) cols) then Fail no_column
          else
            match bind_all args vals with
            | None => Fail no_argument
            | Some vs =>
                let r := new_row (tcols t) (combine cols vs) in
                if violates_notnull (tcols t) r then
                  Fail (ErrDriver "NOT NULL constraint failed")
                else if duplicates_key (tcols t) r (trows t) then
                  Fail (ErrDriver "UNIQUE constraint failed")
                else
                  Ok (put_table db name (mkTable (tcols t) (tfks t) (trows t ++ [r])),
                      [], 1)
            end
      end
  | Update name sets wcol wval =>
      match find_table db name with
      | None => Fail no_table
      | Some t =>
          match col_index (tcols t) wcol, bind args wval,
                resolve_sets (tcols t) args sets with
          | None, _, _ => Fail no_column
          | _, None, _ => Fail no_argument
          | _, _, Fail e => Fail e
          | Some i, Some w, Ok sets' =>
              let hit := fun r => sql_eq (cell r i) w in
              let n := length (filter hit (trows t)) in
              if sets_null (tcols t) sets' && (0 <? n)%nat then
                Fail (ErrDriver "NOT NULL constraint failed")
              else
                Ok (put_table db name
                      (mkTable (tcols t) (tfks t)
                         (map (fun r => if hit r then apply_sets sets' r else r)
                              (trows t))),
                    [], Z.of_nat n)
          end
      end
  | Select cols name whr ord lim off =>
      match find_table db name with
      | None => Fail no_table
      | Some t =>
          match select_rows t args cols whr ord lim off with
          | Fail e => Fail e
          | Ok rows => Ok (db, rows, 0)
          end
      end
  end.

(** What the engine checks when a statement is prepared: its table and its
    columns exist. *)
Definition check (s : stmt) (db : database) : option error :=
  match s with
  | CreateTable _ _ _ _ => None
  | AlterAddColumn name _ =>
      match find_table db name with Some _ => None | None => Some no_table end
  | Insert name cols _ =>
      match find_table db name with
      | None => Some no_table
      | Some t => if forallb (has_col (tcols t)) cols then None else Some no_column
      end
  | Update name sets wcol _ =>
      match find_table db name with
      | None => Some no_table
      | Some t =>
          if forallb (has_col (tcols t)) (wcol :: map fst sets) then None
          else Some no_column
      end
  | Select cols name whr ord _ _ =>
      match find_table db name with
      | None => Some no_table
      | Some t =>
          let used :=
            (cols ++ match whr with Some (c, _) => [c] | None => [] end
                  ++ match ord with Some c => [c] | None => [] end)%list in
          if forallb (has_col (tcols t)) used then None else Some no_column
      end
  end.

(** The rows of a table whose column [c] equals [v]. *)
Definition matching (t : table) (c : string) (v : value) : list row :=
  match col_index (tcols t) c with
  | Some i => filter (fun r => sql_eq (cell r i) v) (trows t)
  | None => []
  end.

(** The columns a CREATE TABLE text declares. *)
Definition columns_of (q : string) : list coldef :=
  match parse q with
  | Some (CreateTable _ _ cs _) => cs
  | _ => []
  end.

(** A table of the database that has the columns one of the given table
    definitions declares, and whose rows have one value per column. *)
Definition table_of (db : database) (name : string) (defs : list string)
    (t : table) : Prop :=
  find_table db name = Some t /\
  (exists q, In q defs /\ tcols t = columns_of q) /\
  Forall (fun r : row => length r = length (tcols t)) (trows t).

End Sql.

(** ** database/sql

    The handle [*sql.DB] that both packages are given, as a world: the
    database behind it, the open cursors, the calls made so far, the faults
    the driver is about to report (a lost connection, say) and the clock.
    A query's result set is computed when the query runs. *)

Module DB.

Import Sql.

Inductive event :=
| EvExec (q : string) (args : list value)        (* db.Exec *)
| EvPrepare (q : string)                         (* db.Prepare *)
| EvStmtExec (s : stmt) (args : list value)      (* stmt.Exec *)
| EvStmtQuery (s : stmt) (args : list value)     (* stmt.Query, stmt.QueryRow *)
| EvRowsClose (rows : nat)                       (* rows.Close *)
| EvPrintln (msg : string).                      (* log.Println *)

(** [*sql.Rows]: the rows not yet reached, the row [Next] stopped at and
    whether the cursor has been closed. *)
Record cursor := mkCursor {
  pending : list row;
  current : option row;
  closed : bool
}.

Record World := mkWorld {
  data : database;
  cursors : list cursor;
  trace : list event;
  faults : list (option string);
  clock : Time
}.

Definition set_data (w : World) (d : database) : World :=
  mkWorld d (cursors w) (trace w) (faults w) (clock w).

Definition set_cursors (w : World) (cs : list cursor) : World :=
  mkWorld (data w) cs (trace w) (faults w) (clock w).

Definition record (e : event) (w : World) : World :=
  mkWorld (data w) (cursors w) (trace w ++ [e]) (faults w) (clock w).

(** Every call that reaches the driver takes the next fault, if any. *)
Definition next_fault (w : World) : option error * World :=
  match faults w with
  | [] => (None, w)
  | f :: fs =>
      (option_map ErrDriver f, mkWorld (data w) (cursors w) (trace w) fs (clock w))
  end.

Definition syntax_error : error := ErrDriver "syntax error".

(** [time.Now()] *)
Definition Now (w : World) : Time := clock w.

(** [db.Exec(query, args...)]: the number of rows affected, or an error. *)
Definition Exec (q : string) (args : list value) (w : World) : result Z * World :=
  let '(f, w1) := next_fault (record (EvExec q args) w) in
  match f with
  | Some e => (Fail e, w1)
  | None =>
      match parse q with
      | None => (Fail syntax_error, w1)
      | Some s =>
          match run s args (data w1) with
          | Fail e => (Fail e, w1)
          | Ok (d, _, n) => (Ok n, set_data w1 d)
          end
      end
  end.

(** [db.Prepare(query)] *)
Definition Prepare (q : string) (w : World) : result stmt * World :=
  let '(f, w1) := next_fault (record (EvPrepare q) w) in
  match f with
  | Some e => (Fail e, w1)
  | None =>
      match parse q with
      | None => (Fail syntax_error, w1)
      | Some s =>
          match check s (data w1) with
          | Some e => (Fail e, w1)
          | None => (Ok s, w1)
          end
      end
  end.

(** [stmt.Exec(args...)] *)
Definition Stmt_Exec (s : stmt) (args : list value) (w : World) : result Z * World :=
  let '(f, w1) := next_fault (record (EvStmtExec s args) w) in
  match f with
  | Some e => (Fail e, w1)
  | None =>
      match run s args (data w1) with
      | Fail e => (Fail e, w1)
      | Ok (d, _, n) => (Ok n, set_data w1 d)
      end
  end.

(** [stmt.Query(args...)]: a new cursor over the result set. *)
Definition Stmt_Query (s : stmt) (args : list value) (w : World) : result nat * World :=
  let '(f, w1) := next_fault (record (EvStmtQuery s args) w) in
  match f with
  | Some e => (Fail e, w1)
  | None =>
      match run s args (data w1) with
      | Fail e => (Fail e, w1)
      | Ok (d, rows, _) =>
          (Ok (length (cursors w1)),
           set_cursors (set_data w1 d) (cursors w1 ++ [mkCursor rows None false]))
      end
  end.

(** [stmt.QueryRow(args...)] followed by the row's [Scan]: the first row of
    the result set, [sql.ErrNoRows] when there is none, the query's error
    when it failed.  No cursor stays open. *)
Definition Stmt_QueryRow (s : stmt) (args : list value) (w : World)
  : result row * World :=
  let '(f, w1) := next_fault (record (EvStmtQuery s args) w) in
  match f with
  | Some e => (Fail e, w1)
  | None =>
      match run s args (data w1) with
      | Fail e => (Fail e, w1)
      | Ok (d, [], _) => (Fail ErrNoRows, set_data w1 d)
      | Ok (d, r :: _, _) => (Ok r, set_data w1 d)
      end
  end.

Fixpoint set_nth {A} (l : list A) (i : nat) (x : A) : list A :=
  match l, i with
  | [], _ => []
  | _ :: l', O => x :: l'
  | y :: l', S i' => y :: set_nth l' i' x
  end.

(** [rows.Next()]: steps to the next row; at the end of the result set it
    closes the cursor and answers false. *)
Definition Rows_Next (h : nat) (w : World) : bool * World :=
  match nth_error (cursors w) h with
  | None => (false, w)
  | Some c =>
      if closed c then (false, w)
      else
        match pending c with
        | [] => (false, set_cursors w (set_nth (cursors w) h (mkCursor [] None true)))
        | r :: rest =>
            (true, set_cursors w (set_nth (cursors w) h (mkCursor rest (Some r) false)))
        end
  end.

(** [rows.Close()]: idempotent. *)
Definition Rows_Close (h : nat) (w : World) : World :=
  let w1 := record (EvRowsClose h) w in
  match nth_error (cursors w1) h with
  | None => w1
  | Some c =>
      set_cursors w1 (set_nth (cursors w1) h (mkCursor (pending c) None true))
  end.

(** *** Scan

    A destination converts the column's value and stores it in the record
    being filled.  [Scan] fills the destinations from left to right and
    stops at the first conversion that fails, leaving the earlier ones
    assigned.  The conversions are those between a column and a field of
    its own kind; Go converts a few more (a number to a string, say), which
    rows written by these packages never need. *)

Definition dest (T : Type) := value -> T -> result T.

Definition dest_string {T} (set : string -> T -> T) : dest T :=
  fun v x =>
    match v with
    | VStr s => Ok (set s x)
    | VBytes b => Ok (set (string_of_list_byte b) x)
    | VNull => Fail (ErrScan "converting NULL to string is unsupported")
    | _ => Fail (ErrScan "unsupported Scan")
    end.

(** [*[]byte]: NULL is the nil slice. *)
Definition dest_bytes {T} (set : option (list Byte.byte) -> T -> T) : dest T :=
  fun v x =>
    match v with
    | VBytes b => Ok (set (Some b) x)
    | VStr s => Ok (set (Some (list_byte_of_string s)) x)
    | VNull => Ok (set None x)
    | _ => Fail (ErrScan "unsupported Scan")
    end.

Definition dest_int64 {T} (set : Z -> T -> T) : dest T :=
  fun v x =>
    match v with
    | VInt z => if in_int64 z then Ok (set z x) else Fail (ErrScan "value out of range")
    | VNull => Fail (ErrScan "converting NULL to int64 is unsupported")
    | _ => Fail (ErrScan "unsupported Scan")
    end.

(** [**int32]: NULL is the nil pointer. *)
Definition dest_int32_ptr {T} (set : option Z -> T -> T) : dest T :=
  fun v x =>
    match v with
    | VNull => Ok (set None x)
    | VInt z =>
        if in_int32 z then Ok (set (Some z) x) else Fail (ErrScan "value out of range")
    | _ => Fail (ErrScan "unsupported Scan")
    end.

(** [*time.Time]: the driver hands a time over in UTC. *)
Definition dest_time {T} (set : Time -> T -> T) : dest T :=
  fun v x =>
    match v with
    | VTime t => Ok (set (Time_UTC t) x)
    | _ => Fail (ErrScan "unsupported Scan")
    end.

(** [**time.Time]: NULL is the nil pointer. *)
Definition dest_time_ptr {T} (set : option Time -> T -> T) : dest T :=
  fun v x =>
    match v with
    | VNull => Ok (set None x)
    | VTime t => Ok (set (Some (Time_UTC t)) x)
    | _ => Fail (ErrScan "unsupported Scan")
    end.

Fixpoint assign {T} (ds : list (dest T)) (r : row) (x : T) : T * option error :=
  match ds, r with
  | d :: ds', v :: r' =>
      match d v x with
      | Ok x' => assign ds' r' x'
      | Fail e => (x, Some e)
      end
  | _, _ => (x, None)
  end.

(** The conversion of one row into the destinations. *)
Definition Scan {T} (ds : list (dest T)) (r : row) (x : T) : T * option error :=
  if (length ds =? length r)%nat then assign ds r x
  else (x, Some (ErrScan "wrong number of destination arguments in Scan")).

(** [rows.Scan(dest...)] on the row [Next] stopped at. *)
Definition Rows_Scan {T} (h : nat) (ds : list (dest T)) (x : T) (w : World)
  : T * option error :=
  match nth_error (cursors w) h with
  | None => (x, Some (ErrScan "Rows are closed"))
  | Some c =>
      if closed c then (x, Some (ErrScan "Rows are closed"))
      else
        match current c with
        | None => (x, Some (ErrScan "Scan called without calling Next"))
        | Some r => Scan ds r x
        end
  end.

(** The calls a computation adds to the trace. *)
Definition calls_of {A} (m : World -> A * World) (w : World) : list event :=
  skipn (length (trace w)) (trace (snd (m w))).

(** The first call is the execution of a CREATE TABLE IF NOT EXISTS. *)
Definition creates_table_first (calls : list event) : bool :=
  match calls with
  | EvExec q [] :: _ =>
      match parse q with
      | Some (CreateTable true _ _ _) => true
      | _ => false
      end
  | _ => false
  end.

Definition is_exec (e : event) : bool :=
  match e with EvExec _ _ => true | _ => false end.

(** The world once the driver has been called with [e] and has taken its
    next fault. *)
Definition called (e : event) (w : World) : World := snd (next_fault (record e w)).

(** A database with no table, no call made and no fault to come, at some
    time of the local clock. *)
Definition empty_world : World :=
  mkWorld [] [] [] [] (mkTime 1514764800 250000000 Local).

(** The same, with a driver that will fail the next call. *)
Definition broken_world : World :=
  mkWorld [] [] [] [Some "connection refused"] (mkTime 1514764800 250000000 Local).

(** The table of that name, when the database has one. *)
Definition the_table (w : World) (name : string) : table :=
  match find_table (data w) name with
  | Some t => t
  | None => mkTable [] [] []
  end.

(** The driver has no fault to report on the next call. *)
Definition no_fault (w : World) : Prop := fst (next_fault w) = None.

End DB.

(** ** index/index.go *)

Module index.

Import Sql DB.

(** [var NotFound = errors.New("Content not found")] *)
Definition NotFound : error := ErrContentNotFound.

Record Content := mkContent {
  Id : string;                       (* json:"id" *)
  EncryptionKey : option (list Byte.byte);  (* []byte, nil or not, json:"-" *)
  Location : string;                 (* json:"location" *)
  Length : Z;                        (* int64, json:"length" *)
  Sha256 : string;                   (* json:"sha256" *)
  Type_ : string                     (* Type, json:"type" *)
}.

(** [Content{}] *)
Definition Content_zero : Content :=
  mkContent EmptyString None EmptyString 0 EmptyString EmptyString.

Definition set_Id (v : string) (c : Content) : Content :=
  mkContent v (EncryptionKey c) (Location c) (Length c) (Sha256 c) (Type_ c).
Definition set_EncryptionKey (v : option (list Byte.byte)) (c : Content) : Content :=
  mkContent (Id c) v (Location c) (Length c) (Sha256 c) (Type_ c).
Definition set_Location (v : string) (c : Content) : Content :=
  mkContent (Id c) (EncryptionKey c) v (Length c) (Sha256 c) (Type_ c).
Definition set_Length (v : Z) (c : Content) : Content :=
  mkContent (Id c) (EncryptionKey c) (Location c) v (Sha256 c) (Type_ c).
Definition set_Sha256 (v : string) (c : Content) : Content :=
  mkContent (Id c) (EncryptionKey c) (Location c) (Length c) v (Type_ c).
Definition set_Type (v : string) (c : Content) : Content :=
  mkContent (Id c) (EncryptionKey c) (Location c) (Length c) (Sha256 c) v.

(** *** The struct tags and encoding/json

    [json.Marshal] of a struct writes an object with one member per
    exported field, named by the field's tag; a field tagged ["-"] is left
    out.  A [[]byte] is written in base64, and as null when it is nil. *)

Inductive jvalue :=
| JNull
| JString (s : string)
| JNumber (z : Z)
| JBase64 (b : list Byte.byte).

(** A JSON object: its members in the order they are written. *)
Definition json := list (string * jvalue).

Record field := mkField {
  field_name : string;
  field_tag : string;
  field_value : Content -> jvalue
}.

Definition Content_fields : list field :=
  [ mkField "Id" "id" (fun c => JString (Id c));
    mkField "EncryptionKey" "-"
            (fun c => match EncryptionKey c with Some b => JBase64 b | None => JNull end);
    mkField "Location" "location" (fun c => JString (Location c));
    mkField "Length" "length" (fun c => JNumber (Length c));
    mkField "Sha256" "sha256" (fun c => JString (Sha256 c));
    mkField "Type" "type" (fun c => JString (Type_ c)) ].

Definition marshal_fields (fs : list field) (c : Content) : json :=
  flat_map (fun f => if String.eqb (field_tag f) "-" then []
                     else [(field_tag f, field_value f c)]) fs.

(** [json.Marshal(c)] *)
Definition Marshal (c : Content) : json := marshal_fields Content_fields c.

(** *** The index *)

Record dbIndex := mkIndex {
  get : stmt;
  add : stmt;
  update : stmt;
  list_ : stmt                       (* list *)
}.

(** The destinations of
    [Scan(&c.Id, &c.EncryptionKey, &c.Location, &c.Length, &c.Sha256, &c.Type)] *)
Definition dests : list (dest Content) :=
  [ dest_string set_Id; dest_bytes set_EncryptionKey; dest_string set_Location;
    dest_int64 set_Length; dest_string set_Sha256; dest_string set_Type ].

Definition Get (i : dbIndex) (id : string) (w : World)
  : (Content * option error) * World :=
  match Stmt_Query (get i) [VStr id] w with
  | (Fail err, w1) => ((Content_zero, Some err), w1)
  | (Ok records, w1) =>
      (* defer records.Close() *)
      let '(more, w2) := Rows_Next records w1 in
      if more then (Rows_Scan records dests Content_zero w2, Rows_Close records w2)
      else ((Content_zero, Some NotFound), Rows_Close records w2)
  end.

(** Arguments: a nil slice is bound as NULL. *)
Definition arg_bytes (b : option (list Byte.byte)) : value :=
  match b with Some x => VBytes x | None => VNull end.

Definition err_of {A} (r : result A * World) : option error * World :=
  match r with
  | (Ok _, w) => (None, w)
  | (Fail err, w) => (Some err, w)
  end.

Definition Add (i : dbIndex) (c : Content) (w : World) : option error * World :=
  err_of (Stmt_Exec (add i)
            [VStr (Id c); arg_bytes (EncryptionKey c); VStr (Location c);
             VInt (Length c); VStr (Sha256 c); VStr (Type_ c)] w).

Definition Update (i : dbIndex) (c : Content) (w : World) : option error * World :=
  err_of (Stmt_Exec (update i)
            [arg_bytes (EncryptionKey c); VStr (Location c); VInt (Length c);
             VStr (Sha256 c); VStr (Type_ c); VStr (Id c)] w).

(** The function [List] returns: it has captured either the error of the
    query or the cursor. *)
Inductive lister :=
| Failed (err : error)
| Cursor (rows : nat).

Definition List (i : dbIndex) (w : World) : lister * World :=
  match Stmt_Query (list_ i) [] w with
  | (Fail err, w1) => (Failed err, w1)
  | (Ok rows, w1) => (Cursor rows, w1)
  end.

(** One call of the function [List] returned. *)
Definition call (f : lister) (w : World) : (Content * option error) * World :=
  match f with
  | Failed err => ((Content_zero, Some err), w)
  | Cursor rows =>
      let '(more, w1) := Rows_Next rows w in
      if more then (Rows_Scan rows dests Content_zero w1, w1)
      else ((Content_zero, Some NotFound), Rows_Close rows w1)
  end.

(** [n] calls in a row: what each returned, and the world after them. *)
Fixpoint calls (n : nat) (f : lister) (w : World)
  : list (Content * option error) * World :=
  match n with
  | O => ([], w)
  | S n' =>
      let '(x, w1) := call f w in
      let '(xs, w2) := calls n' f w1 in
      (x :: xs, w2)
  end.

Definition tableDef : string :=
  "CREATE TABLE IF NOT EXISTS content (" ++
  "id varchar(255) PRIMARY KEY," ++
  "encryption_key varchar(64) NOT NULL," ++
  "location text NOT NULL," ++
  "length bigint," ++
  "sha256 varchar(64)," ++
  str1 dquote ++ "type" ++ str1 dquote ++
  " varchar(256) NOT NULL default 'application/epub+zip')".

Definition tableDefPostgres : string :=
  "CREATE TABLE IF NOT EXISTS content (" ++
  "id varchar(255) PRIMARY KEY," ++
  "encryption_key bytea NOT NULL," ++
  "location text NOT NULL," ++
  "length bigint," ++
  "sha256 varchar(64)," ++
  str1 dquote ++ "type" ++ str1 dquote ++
  " varchar(256) NOT NULL default 'application/epub+zip')".

(** The two definitions of the content table. *)
Definition tableDefs : list string := [tableDef; tableDefPostgres].

(** The statement texts [Open] chooses between. *)
Record queries := mkQueries {
  createTableQuery : string;
  getQuery : string;
  addQuery : string;
  updateQuery : string;
  listQuery : string
}.

(** [strings.HasPrefix(config.Config.LcpServer.Database, "postgres")]
    decides the dialect; [Database] is that configuration value. *)
Definition select_queries (Database : string) : queries :=
  if prefix "postgres" Database then
    {| createTableQuery := tableDefPostgres;
       getQuery := "SELECT id,encryption_key,location,length,sha256,type FROM content WHERE id = $1 LIMIT 1";
       addQuery := "INSERT INTO content (id,encryption_key,location,length,sha256,type) VALUES ($1, $2, $3, $4, $5, $6)";
       updateQuery := "UPDATE content SET encryption_key=$1, location=$2, length=$3, sha256=$4, type=$5 WHERE id=$6";
       listQuery := "SELECT id,encryption_key,location,length,sha256,type FROM content" |}
  else
    {| createTableQuery := tableDef;
       getQuery := "SELECT id,encryption_key,location,length,sha256,type FROM content WHERE id = ? LIMIT 1";
       addQuery := "INSERT INTO content (id,encryption_key,location,length,sha256,type) VALUES (?, ?, ?, ?, ?, ?)";
       updateQuery := "UPDATE content SET encryption_key=?, location=?, length=?, sha256=?, type=? WHERE id=?";
       listQuery := "SELECT id,encryption_key,location,length,sha256,type FROM content" |}.

Definition alterQuery : string :=
  "ALTER TABLE content ADD COLUMN " ++ str1 dquote ++ "type" ++ str1 dquote ++
  " varchar(255) NOT NULL DEFAULT 'application/epub+zip'".

Definition Open (Database : string) (w : World) : result dbIndex * World :=
  let q := select_queries Database in
  (* create the content table in the lcp db if it does not exist *)
  match Exec (createTableQuery q) [] w with
  | (Fail err, w1) => (Fail err, w1)
  | (Ok _, w1) =>
      (* if sqlite, add "type" column, ignore an error *)
      let w2 := if prefix "sqlite" Database then snd (Exec alterQuery [] w1) else w1 in
      match Prepare (getQuery q) w2 with
      | (Fail err, w3) => (Fail err, w3)
      | (Ok get, w3) =>
          match Prepare (addQuery q) w3 with
          | (Fail err, w4) => (Fail err, w4)
          | (Ok add, w4) =>
              match Prepare (updateQuery q) w4 with
              | (Fail err, w5) => (Fail err, w5)
              | (Ok update, w5) =>
                  match Prepare (listQuery q) w5 with
                  | (Fail err, w6) => (Fail err, w6)
                  | (Ok lst, w6) => (Ok (mkIndex get add update lst), w6)
                  end
              end
          end
      end
  end.

End index.

(** ** license/store.go *)

Module license.

Import Sql DB.

(** [var NotFound = errors.New("License not found")] *)
Definition NotFound : error := ErrLicenseNotFound.

(** Modelled from the spec: the declarations of [UserInfo], [UserRights],
    [License] and [LicenseReport] (license.go) are not among the sources.
    The records below have the fields store.go reads and writes, with the
    types of the spec's data model: string identifiers, an issuance
    timestamp, a last-updated timestamp and four rights that are all
    nullable (pointers), and rights held through a pointer, as
    [new(UserRights)] shows. *)
Module UserInfo.
Record t := mk { Id : string }.
Definition zero : t := mk EmptyString.
End UserInfo.

Module UserRights.
Record t := mk {
    Print : option Z;       (* *int32 *)
    Copy : option Z;        (* *int32 *)
    Start : option Time;    (* *time.Time *)
    End_ : option Time      (* End, *time.Time *)
  }.
Definition zero : t := mk None None None None.
End UserRights.

Module License.
Record t := mk {
    Id : string;
    User : UserInfo.t;
    Provider : string;
    Issued : Time;
    Updated : option Time;          (* *time.Time *)
    Rights : option UserRights.t;   (* *UserRights *)
    ContentId : string
  }.
Definition zero : t :=
    mk EmptyString UserInfo.zero EmptyString Time_zero None None EmptyString.
End License.

Module LicenseReport.
Record t := mk {
    Id : string;
    User : UserInfo.t;
    Provider : string;
    Issued : Time;
    Updated : option Time;
    Rights : option UserRights.t;
    ContentId : string
  }.
Definition zero : t :=
    mk EmptyString UserInfo.zero EmptyString Time_zero None None EmptyString.
End LicenseReport.

Record sqlStore := mkStore {
  listall : stmt;
  list_ : stmt;                      (* list *)
  updaterights : stmt;
  add : stmt;
  update : stmt;
  updatelsdstatus : stmt;
  get : stmt
}.

(** A call whose arguments dereference a nil pointer panics. *)
Inductive outcome (A : Type) :=
| Returns (a : A)
| Panics.
Arguments Returns {A} a.
Arguments Panics {A}.


(** Arguments: a nil pointer is bound as NULL. *)
Definition arg_int32 (p : option Z) : value :=
  match p with Some z => VInt z | None => VNull end.
Definition arg_time (p : option Time) : value :=
  match p with Some t => VTime t | None => VNull end.

(** Assignment through [l.Rights], which [new(UserRights)] has set. *)
Definition rights_of (p : option UserRights.t) : UserRights.t :=
  match p with Some r => r | None => UserRights.zero end.

Definition with_Print (v : option Z) (r : UserRights.t) : UserRights.t :=
  UserRights.mk v (UserRights.Copy r) (UserRights.Start r) (UserRights.End_ r).
Definition with_Copy (v : option Z) (r : UserRights.t) : UserRights.t :=
  UserRights.mk (UserRights.Print r) v (UserRights.Start r) (UserRights.End_ r).
Definition with_Start (v : option Time) (r : UserRights.t) : UserRights.t :=
  UserRights.mk (UserRights.Print r) (UserRights.Copy r) v (UserRights.End_ r).
Definition with_End (v : option Time) (r : UserRights.t) : UserRights.t :=
  UserRights.mk (UserRights.Print r) (UserRights.Copy r) (UserRights.Start r) v.

(** The destinations of
    [Scan(&l.Id, &l.User.Id, &l.Provider, &l.Issued, &l.Updated,
          &l.Rights.Print, &l.Rights.Copy, &l.Rights.Start, &l.Rights.End,
          &l.ContentId)]
    for a [License] ... *)
Definition dests : list (dest License.t) :=
  let upd (f : UserRights.t -> UserRights.t) (l : License.t) :=
    License.mk (License.Id l) (License.User l) (License.Provider l) (License.Issued l)
               (License.Updated l) (Some (f (rights_of (License.Rights l))))
               (License.ContentId l) in
  [ dest_string (fun v l =>
      License.mk v (License.User l) (License.Provider l) (License.Issued l)
                 (License.Updated l) (License.Rights l) (License.ContentId l));
    dest_string (fun v l =>
      License.mk (License.Id l) (UserInfo.mk v) (License.Provider l) (License.Issued l)
                 (License.Updated l) (License.Rights l) (License.ContentId l));
    dest_string (fun v l =>
      License.mk (License.Id l) (License.User l) v (License.Issued l)
                 (License.Updated l) (License.Rights l) (License.ContentId l));
    dest_time (fun v l =>
      License.mk (License.Id l) (License.User l) (License.Provider l) v
                 (License.Updated l) (License.Rights l) (License.ContentId l));
    dest_time_ptr (fun v l =>
      License.mk (License.Id l) (License.User l) (License.Provider l) (License.Issued l)
                 v (License.Rights l) (License.ContentId l));
    dest_int32_ptr (fun v => upd (with_Print v));
    dest_int32_ptr (fun v => upd (with_Copy v));
    dest_time_ptr (fun v => upd (with_Start v));
    dest_time_ptr (fun v => upd (with_End v));
    dest_string (fun v l =>
      License.mk (License.Id l) (License.User l) (License.Provider l) (License.Issued l)
                 (License.Updated l) (License.Rights l) v) ].

(** ... and for a [LicenseReport]. *)
Definition report_dests : list (dest LicenseReport.t) :=
  let upd (f : UserRights.t -> UserRights.t) (l : LicenseReport.t) :=
    LicenseReport.mk (LicenseReport.Id l) (LicenseReport.User l)
                     (LicenseReport.Provider l) (LicenseReport.Issued l)
                     (LicenseReport.Updated l)
                     (Some (f (rights_of (LicenseReport.Rights l))))
                     (LicenseReport.ContentId l) in
  [ dest_string (fun v l =>
      LicenseReport.mk v (LicenseReport.User l) (LicenseReport.Provider l)
                       (LicenseReport.Issued l) (LicenseReport.Updated l)
                       (LicenseReport.Rights l) (LicenseReport.ContentId l));
    dest_string (fun v l =>
      LicenseReport.mk (LicenseReport.Id l) (UserInfo.mk v) (LicenseReport.Provider l)
                       (LicenseReport.Issued l) (LicenseReport.Updated l)
                       (LicenseReport.Rights l) (LicenseReport.ContentId l));
    dest_string (fun v l =>
      LicenseReport.mk (LicenseReport.Id l) (LicenseReport.User l) v
                       (LicenseReport.Issued l) (LicenseReport.Updated l)
                       (LicenseReport.Rights l) (LicenseReport.ContentId l));
    dest_time (fun v l =>
      LicenseReport.mk (LicenseReport.Id l) (LicenseReport.User l)
                       (LicenseReport.Provider l) v (LicenseReport.Updated l)
                       (LicenseReport.Rights l) (LicenseReport.ContentId l));
    dest_time_ptr (fun v l =>
      LicenseReport.mk (LicenseReport.Id l) (LicenseReport.User l)
                       (LicenseReport.Provider l) (LicenseReport.Issued l) v
                       (LicenseReport.Rights l) (LicenseReport.ContentId l));
    dest_int32_ptr (fun v => upd (with_Print v));
    dest_int32_ptr (fun v => upd (with_Copy v));
    dest_time_ptr (fun v => upd (with_Start v));
    dest_time_ptr (fun v => upd (with_End v));
    dest_string (fun v l =>
      LicenseReport.mk (LicenseReport.Id l) (LicenseReport.User l)
                       (LicenseReport.Provider l) (LicenseReport.Issued l)
                       (LicenseReport.Updated l) (LicenseReport.Rights l) v) ].

(** The function [ListAll] and [List] return.  It has captured either the
    error of the query, or the cursor [listLicenses] together with the
    variable [err] of the enclosing call, which it assigns at the end of
    the rows. *)
Inductive lister :=
| Failed (err : error)
| Cursor (listLicenses : nat) (err : option error).

(** [var l LicenseReport; l.User = UserInfo{}; l.Rights = new(UserRights)] *)
Definition fresh_report : LicenseReport.t :=
  LicenseReport.mk EmptyString UserInfo.zero EmptyString Time_zero None
                   (Some UserRights.zero) EmptyString.

(** One call of the returned function: its results and the function with
    its captured variables as the call leaves them. *)
Definition call (f : lister) (w : World)
  : (LicenseReport.t * option error) * lister * World :=
  match f with
  | Failed err => ((LicenseReport.zero, Some err), f, w)
  | Cursor listLicenses err =>
      let l := fresh_report in
      let '(more, w1) := Rows_Next listLicenses w in
      if more then
        match Rows_Scan listLicenses report_dests l w1 with
        | (l', Some err') => ((l', Some err'), f, w1)
        | (l', None) => ((l', err), f, w1)
        end
      else
        ((l, Some NotFound), Cursor listLicenses (Some NotFound),
         Rows_Close listLicenses w1)
  end.

(** [n] calls in a row: what each returned, the function and the world
    after them. *)
Fixpoint calls (n : nat) (f : lister) (w : World)
  : list (LicenseReport.t * option error) * lister * World :=
  match n with
  | O => ([], f, w)
  | S n' =>
      let '(x, f1, w1) := call f w in
      let '(xs, f2, w2) := calls n' f1 w1 in
      (x :: xs, f2, w2)
  end.

(** ListAll lists all licenses in ante-chronological order; pageNum starts
    at 0. *)
Definition ListAll (s : sqlStore) (page pageNum : Z) (w : World) : lister * World :=
  match Stmt_Query (listall s) [VInt page; VInt (int_mul pageNum page)] w with
  | (Fail err, w1) => (Failed err, w1)
  | (Ok listLicenses, w1) => (Cursor listLicenses None, w1)
  end.

(** List lists licenses for a given ContentId; pageNum starting at 0. *)
Definition List (s : sqlStore) (contentID : string) (page pageNum : Z) (w : World)
  : lister * World :=
  match Stmt_Query (list_ s) [VStr contentID; VInt page; VInt (int_mul pageNum page)] w with
  | (Fail err, w1) => (Failed err, w1)
  | (Ok listLicenses, w1) => (Cursor listLicenses None, w1)
  end.

(** [time.Now().UTC().Truncate(time.Second)] *)
Definition stamp (w : World) : Time := Time_Truncate (Time_UTC (Now w)) Second.

Definition UpdateRights (s : sqlStore) (l : License.t) (w : World)
  : outcome (option error) * World :=
  match License.Rights l with
  | None => (Panics, w)
  | Some r =>
      match Stmt_Exec (updaterights s)
              [arg_int32 (UserRights.Print r); arg_int32 (UserRights.Copy r);
               arg_time (UserRights.Start r); arg_time (UserRights.End_ r);
               VTime (stamp w); VStr (License.Id l)] w with
      | (Ok r0, w1) =>
          if r0 =? 0 then (Returns (Some NotFound), w1) else (Returns None, w1)
      | (Fail err, w1) => (Returns (Some err), w1)
      end
  end.

Definition returns_err {A} (r : result A * World) : outcome (option error) * World :=
  match r with
  | (Ok _, w) => (Returns None, w)
  | (Fail err, w) => (Returns (Some err), w)
  end.

(** Add creates a new record in the license table. *)
Definition Add (s : sqlStore) (l : License.t) (w : World)
  : outcome (option error) * World :=
  match License.Rights l with
  | None => (Panics, w)
  | Some r =>
      returns_err
        (Stmt_Exec (add s)
           [VStr (License.Id l); VStr (UserInfo.Id (License.User l));
            VStr (License.Provider l); VTime (License.Issued l); VNull;
            arg_int32 (UserRights.Print r); arg_int32 (UserRights.Copy r);
            arg_time (UserRights.Start r); arg_time (UserRights.End_ r);
            VStr (License.ContentId l)] w)
  end.

(** Update updates a record in the license table. *)
Definition Update (s : sqlStore) (l : License.t) (w : World)
  : outcome (option error) * World :=
  match License.Rights l with
  | None => (Panics, w)
  | Some r =>
      returns_err
        (Stmt_Exec (update s)
           [VStr (UserInfo.Id (License.User l)); VStr (License.Provider l);
            VTime (stamp w);
            arg_int32 (UserRights.Print r); arg_int32 (UserRights.Copy r);
            arg_time (UserRights.Start r); arg_time (UserRights.End_ r);
            VStr (License.ContentId l);
            VStr (License.Id l)] w)
  end.

Definition UpdateLsdStatus (s : sqlStore) (id : string) (status : Z) (w : World)
  : option error * World :=
  match Stmt_Exec (updatelsdstatus s) [VInt status; VStr id] w with
  | (Ok _, w1) => (None, w1)
  | (Fail err, w1) => (Some err, w1)
  end.

(** [var l License; l.Rights = new(UserRights)] *)
Definition fresh_license : License.t :=
  License.mk EmptyString UserInfo.zero EmptyString Time_zero None
             (Some UserRights.zero) EmptyString.

(** Get a license from the db. *)
Definition Get (s : sqlStore) (id : string) (w : World)
  : (License.t * option error) * World :=
  let l := fresh_license in
  let '(row, w1) := Stmt_QueryRow (get s) [VStr id] w in
  let '(l', err) :=
    match row with
    | Fail e => (l, Some e)
    | Ok r => Scan dests r l
    end in
  match err with
  | Some ErrNoRows => ((l', Some NotFound), w1)
  | Some e => ((l', Some e), w1)
  | None => ((l', None), w1)
  end.

Definition tableDef : string :=
  "CREATE TABLE IF NOT EXISTS license (" ++
  "id varchar(255) PRIMARY KEY," ++
  "user_id varchar(255) NOT NULL," ++
  "provider varchar(255) NOT NULL," ++
  "issued datetime NOT NULL," ++
  "updated datetime DEFAULT NULL," ++
  "rights_print int(11) DEFAULT NULL," ++
  "rights_copy int(11) DEFAULT NULL," ++
  "rights_start datetime DEFAULT NULL," ++
  "rights_end datetime DEFAULT NULL," ++
  "content_fk varchar(255) NOT NULL," ++
  "lsd_status integer default 0," ++
  "FOREIGN KEY(content_fk) REFERENCES content(id))".

Definition tableDefPostgers : string :=
  "CREATE TABLE IF NOT EXISTS license (" ++
  "id VARCHAR(255) PRIMARY KEY," ++
  "user_id VARCHAR(255) NOT NULL," ++
  "provider VARCHAR(255) NOT NULL," ++
  "issued TIMESTAMPTZ NOT NULL," ++
  "updated TIMESTAMPTZ DEFAULT NULL," ++
  "rights_print INT DEFAULT NULL," ++
  "rights_copy INT DEFAULT NULL," ++
  "rights_start TIMESTAMPTZ DEFAULT NULL," ++
  "rights_end TIMESTAMPTZ DEFAULT NULL," ++
  "content_fk VARCHAR(255) NOT NULL," ++
  "lsd_status INT default 0," ++
  "FOREIGN KEY(content_fk) REFERENCES content(id))".

(** The two definitions of the license table. *)
Definition tableDefs : list string := [tableDef; tableDefPostgers].

(** The statement texts [NewSqlStore] chooses between. *)
Record queries := mkQueries {
  tabledefquery : string;
  listallquery : string;
  listquery : string;
  updaterightsquery : string;
  addquery : string;
  updatequery : string;
  updatelsdstatusquery : string;
  getquery : string
}.

Definition select_queries (Database : string) : queries :=
  if prefix "postgres" Database then
    (* postgres *)
    {| tabledefquery := tableDefPostgers;
       listallquery := "SELECT id, user_id, provider, issued, updated,
			rights_print, rights_copy, rights_start, rights_end, content_fk
			FROM license
			ORDER BY issued desc LIMIT $1 OFFSET $2";
       listquery := "SELECT id, user_id, provider, issued, updated,
			rights_print, rights_copy, rights_start, rights_end, content_fk
			FROM license
			WHERE content_fk=$1 LIMIT $2 OFFSET $3";
       updaterightsquery := "UPDATE license SET rights_print=$1, rights_copy=$2, rights_start=$3, rights_end=$4, updated=$5 WHERE id=$6";
       addquery := "INSERT INTO license (id, user_id, provider, issued, updated,
			rights_print, rights_copy, rights_start, rights_end, content_fk) 
			VALUES ($1, $2, $3, $4, $5, $6, $7, $8, $9, $10)";
       updatequery := "UPDATE license SET user_id=$1, provider=$2, updated=$3,
			rights_print=$4, rights_copy=$5, rights_start=$6, rights_end=$7, content_fk =$8
			WHERE id=$9";
       updatelsdstatusquery := "UPDATE license SET lsd_status =$1 WHERE id=$2";
       getquery := "SELECT id, user_id, provider, issued, updated, rights_print, rights_copy,
			rights_start, rights_end, content_fk FROM license
			where id = $1" |}
  else
    (* mysql/sqlite *)
    {| tabledefquery := tableDef;
       listallquery := "SELECT id, user_id, provider, issued, updated,
			rights_print, rights_copy, rights_start, rights_end, content_fk
			FROM license
			ORDER BY issued desc LIMIT ? OFFSET ?";
       listquery := "SELECT id, user_id, provider, issued, updated,
			rights_print, rights_copy, rights_start, rights_end, content_fk
			FROM license
			WHERE content_fk=? LIMIT ? OFFSET ?";
       updaterightsquery := "UPDATE license SET rights_print=?, rights_copy=?, rights_start=?, rights_end=?,u pdated=? WHERE id=?";
       addquery := "INSERT INTO license (id, user_id, provider, issued, updated,
			rights_print, rights_copy, rights_start, rights_end, content_fk) 
			VALUES (?, ?, ?, ?, ?, ?, ?, ?, ?, ?)";
       updatequery := "UPDATE license SET user_id=?, provider=?, updated=?,
			rights_print=?, rights_copy=?, rights_start=?, rights_end=?, content_fk =?
			WHERE id=?";
       updatelsdstatusquery := "UPDATE license SET lsd_status =? WHERE id=?";
       getquery := "SELECT id, user_id, provider, issued, updated, rights_print, rights_copy,
			rights_start, rights_end, content_fk FROM license
			where id = ?" |}.

Definition NewSqlStore (Database : string) (w : World) : result sqlStore * World :=
  let q := select_queries Database in
  (* if sqlite/postgres, create the license table if it does not exist *)
  let created :=
    if prefix "sqlite" Database || prefix "postgres" Database then
      match Exec (tabledefquery q) [] w with
      | (Fail err, w1) => (Some err, record (EvPrintln "Error creating license table") w1)
      | (Ok _, w1) => (None, w1)
      end
    else (None, w) in
  match created with
  | (Some err, w1) => (Fail err, w1)
  | (None, w1) =>
  match Prepare (listallquery q) w1 with
  | (Fail err, w2) => (Fail err, w2)
  | (Ok listall, w2) =>
  match Prepare (listquery q) w2 with
  | (Fail err, w3) => (Fail err, w3)
  | (Ok lst, w3) =>
  match Prepare (updaterightsquery q) w3 with
  | (Fail err, w4) => (Fail err, w4)
  | (Ok updaterights, w4) =>
  match Prepare (addquery q) w4 with
  | (Fail err, w5) => (Fail err, w5)
  | (Ok add, w5) =>
  match Prepare (updatequery q) w5 with
  | (Fail err, w6) => (Fail err, w6)
  | (Ok update, w6) =>
  match Prepare (updatelsdstatusquery q) w6 with
  | (Fail err, w7) => (Fail err, w7)
  | (Ok updatelsdstatus, w7) =>
  match Prepare (getquery q) w7 with
  | (Fail err, w8) => (Fail err, w8)
  | (Ok get, w8) =>
      (Ok (mkStore listall lst updaterights add update updatelsdstatus get), w8)
  end end end end end end end
  end.

End license.

(** * The vocabulary of the properties *)

Import Sql DB.

(** ** The statements, parsed *)

Definition license_columns : list string :=
  ["id"; "user_id"; "provider"; "issued"; "updated"; "rights_print";
   "rights_copy"; "rights_start"; "rights_end"; "content_fk"].

(** What the statement texts of the license store are under the postgres
    dialect ([license_texts_postgres] below), in the order of the fields of
    [sqlStore]: listall, list, updaterights, add, update, updatelsdstatus,
    get. *)
Definition license_statements : license.sqlStore :=
  license.mkStore
    (Select license_columns "license" None (Some "issued")
            (Some (OParam 1)) (Some (OParam 2)))
    (Select license_columns "license" (Some ("content_fk", OParam 1)) None
            (Some (OParam 2)) (Some (OParam 3)))
    (Update "license"
            [("rights_print", OParam 1); ("rights_copy", OParam 2);
             ("rights_start", OParam 3); ("rights_end", OParam 4);
             ("updated", OParam 5)]
            "id" (OParam 6))
    (Insert "license" license_columns
            [OParam 1; OParam 2; OParam 3; OParam 4; OParam 5; OParam 6;
             OParam 7; OParam 8; OParam 9; OParam 10])
    (Update "license"
            [("user_id", OParam 1); ("provider", OParam 2); ("updated", OParam 3);
             ("rights_print", OParam 4); ("rights_copy", OParam 5);
             ("rights_start", OParam 6); ("rights_end", OParam 7);
             ("content_fk", OParam 8)]
            "id" (OParam 9))
    (Update "license" [("lsd_status", OParam 1)] "id" (OParam 2))
    (Select license_columns "license" (Some ("id", OParam 1)) None None None).

Definition content_columns : list string :=
  ["id"; "encryption_key"; "location"; "length"; "sha256"; "type"].

(** What the statement texts of the content index are, under either dialect
    ([index_texts] below): get, add, update, list. *)
Definition index_statements : index.dbIndex :=
  index.mkIndex
    (Select content_columns "content" (Some ("id", OParam 1)) None
            (Some (OConst (VInt 1))) None)
    (Insert "content" content_columns
            [OParam 1; OParam 2; OParam 3; OParam 4; OParam 5; OParam 6])
    (Update "content"
            [("encryption_key", OParam 1); ("location", OParam 2);
             ("length", OParam 3); ("sha256", OParam 4); ("type", OParam 5)]
            "id" (OParam 6))
    (Select content_columns "content" None None None None).

(** The seven texts of the license store as the engine reads them, and the
    seven statements of a store. *)
Definition parses (q : license.queries) : list (option stmt) :=
  map parse [license.listallquery q; license.listquery q;
             license.updaterightsquery q; license.addquery q;
             license.updatequery q; license.updatelsdstatusquery q;
             license.getquery q].

Definition parsed (s : license.sqlStore) : list (option stmt) :=
  map Some [license.listall s; license.list_ s; license.updaterights s;
            license.add s; license.update s; license.updatelsdstatus s;
            license.get s].

(** The four table definitions. *)
Definition table_definitions : list string :=
  (index.tableDefs ++ license.tableDefs)%list.

(** ** Traces and errors *)

(** [w'] has the trace of [w] followed by calls that all satisfy [P]. *)
Definition adds (P : event -> bool) (w w' : World) : Prop :=
  exists evs, trace w' = (trace w ++ evs)%list /\ forallb P evs = true.

(** An error raised by the driver or by the engine. *)
Definition is_driver (e : error) : Prop := exists msg, e = ErrDriver msg.

(** ** Rows *)

(** The first [n] columns of a row. *)
Definition columns (n : nat) (r : row) : row := map (cell r) (seq 0 n).

(** The rows of a page: [offset] rows skipped, at most [page] taken, and
    the ten columns the list statements select. *)
Definition page_of (page offset : Z) (rows : list row) : list row :=
  map (columns 10) (firstn (Z.to_nat page) (skipn (Z.to_nat offset) rows)).

(** No row is followed by one with a greater value in column [k]. *)
Definition descending (k : nat) (l : list row) : Prop :=
  Sorted (fun a b => value_ltb (cell a k) (cell b k) = false) l.

(** An UPDATE ... WHERE id = [id] of the license table: the rows with that
    id are rewritten by [sets], the others are kept. *)
Definition updated_by (db : database) (t : table) (id : string)
    (sets : list (nat * value)) : result (database * list row * Z) :=
  Ok (put_table db "license"
        (mkTable (tcols t) (tfks t)
           (map (fun r => if sql_eq (cell r 0) (VStr id) then apply_sets sets r else r)
                (trows t))),
      [], Z.of_nat (length (matching t "id" (VStr id)))).

(** ** Iteration *)



(** ** A sample database *)

Definition sample_time (s : Z) : Time := mkTime s 500 Local.

Definition sample_content : index.Content :=
  index.mkContent "c1" (Some [Byte.x01; Byte.x02; Byte.xff])
                  "https://example.org/c1.epub"
                  4096 "9f86d081884c7d65" "application/epub+zip".

Definition sample_license (id : string) (issued : Z) : license.License.t :=
  license.License.mk id (license.UserInfo.mk "u1") "https://provider.example"
    (sample_time issued) (Some (sample_time 77))
    (Some (license.UserRights.mk (Some 3) None (Some (sample_time 1)) None)) "c1".

(** Both components opened under the postgres dialect on an empty database,
    then one content record and three licenses added. *)
Definition sample_world : World :=
  Eval vm_compute in
    let w1 := snd (index.Open "postgres" empty_world) in
    let w2 := snd (license.NewSqlStore "postgres" w1) in
    let w3 := snd (index.Add index_statements sample_content w2) in
    let w4 := snd (license.Add license_statements (sample_license "a" 10) w3) in
    let w5 := snd (license.Add license_statements (sample_license "b" 30) w4) in
    snd (license.Add license_statements (sample_license "c" 20) w5).

(** ** Worlds and iterations *)

(** The driver has no fault to report, now or later. *)
Definition healthy (w : World) : Prop := faults w = [].

(** The rows an iteration that started will go through, for the function
    [List] of the index returned ... *)
Definition index_listed (r : index.lister * World) : option (list row) :=
  match r with
  | (index.Cursor h, w) => option_map pending (nth_error (cursors w) h)
  | (index.Failed _, _) => None
  end.



(** The row [Add] of the index binds for a content record. *)
Definition content_row (c : index.Content) : row :=
  [VStr (index.Id c); index.arg_bytes (index.EncryptionKey c);
   VStr (index.Location c);
   VInt (index.Length c); VStr (index.Sha256 c); VStr (index.Type_ c)].

(** ** The content table before it had a type *)

(** The column that [Open] adds under sqlite. *)
Definition type_column : coldef :=
  mkCol "type" "varchar" (Some 255) true false (VStr "application/epub+zip").

(** The column names of a content table created before the index had the
    column [type]. *)
Definition legacy_names : list string :=
  ["id"; "encryption_key"; "location"; "length"; "sha256"].

(** The table once [type] is added: every row gets the default. *)
Definition with_type (t : table) : table :=
  mkTable (tcols t ++ [type_column]) (tfks t)
          (map (fun r : row => r ++ [VStr "application/epub+zip"]) (trows t))%list.

(** ** What a call leaves alone *)

(** [w'] has the database and the cursors of [w]. *)
Definition leaves (w w' : World) : Prop :=
  data w' = data w /\ cursors w' = cursors w.

(** The world once the driver has failed the call [ev]. *)
Definition failed_call (ev : event) (w : World) : World :=
  mkWorld (data w) (cursors w) (trace w ++ [ev]) (tl (faults w)) (clock w).


(** ** What a change to one record touches *)

(** [t'] is [t] after a statement on the record [id]: the same columns,
    and the same rows but for a row of that id added at the end, or the
    rows of that id rewritten outside their first column, the id. *)
Definition touches_only (id : string) (t t' : table) : Prop :=
  tcols t' = tcols t /\
  (trows t' = trows t \/
   (exists r : row, trows t' = (trows t ++ [r])%list /\ cell r 0 = VStr id) \/
   (exists g : row -> row,
       (forall r, cell (g r) 0 = cell r 0) /\
       trows t' = map (fun r => if sql_eq (cell r 0) (VStr id) then g r else r)
                      (trows t))).

(** ** The assignments of the updates *)

(** The columns [Update] of the index sets, by position, and their
    values. *)
Definition content_sets (c : index.Content) : list (nat * value) :=
  [(1, index.arg_bytes (index.EncryptionKey c)); (2, VStr (index.Location c));
   (3, VInt (index.Length c)); (4, VStr (index.Sha256 c));
   (5, VStr (index.Type_ c))]%nat.

(** The content table once [Update] has run for [c]. *)
Definition content_updated (t : table) (c : index.Content) : table :=
  mkTable (tcols t) (tfks t)
    (map (fun r => if sql_eq (cell r 0) (VStr (index.Id c))
                   then apply_sets (content_sets c) r else r)
         (trows t)).

(** The row [Add] of the store inserts for a license whose rights are [r]:
    the ten values it binds, NULL for [updated], and the default of
    [lsd_status]. *)
Definition license_row (l : license.License.t) (r : license.UserRights.t) : row :=
  [VStr (license.License.Id l); VStr (license.UserInfo.Id (license.License.User l));
   VStr (license.License.Provider l); VTime (license.License.Issued l); VNull;
   license.arg_int32 (license.UserRights.Print r);
   license.arg_int32 (license.UserRights.Copy r);
   license.arg_time (license.UserRights.Start r);
   license.arg_time (license.UserRights.End_ r);
   VStr (license.License.ContentId l); VInt 0].

(** The columns [Update], [UpdateRights] and [UpdateLsdStatus] of the store
    set, by position, and their values. *)
Definition update_sets (l : license.License.t) (r : license.UserRights.t)
    (now : Time) : list (nat * value) :=
  [(1, VStr (license.UserInfo.Id (license.License.User l)));
   (2, VStr (license.License.Provider l)); (4, VTime now);
   (5, license.arg_int32 (license.UserRights.Print r));
   (6, license.arg_int32 (license.UserRights.Copy r));
   (7, license.arg_time (license.UserRights.Start r));
   (8, license.arg_time (license.UserRights.End_ r));
   (9, VStr (license.License.ContentId l))]%nat.

Definition rights_sets (r : license.UserRights.t) (now : Time) : list (nat * value) :=
  [(5, license.arg_int32 (license.UserRights.Print r));
   (6, license.arg_int32 (license.UserRights.Copy r));
   (7, license.arg_time (license.UserRights.Start r));
   (8, license.arg_time (license.UserRights.End_ r));
   (4, VTime now)]%nat.

Definition status_sets (status : Z) : list (nat * value) := [(10%nat, VInt status)].

(** The license table once the rows of [id] have been rewritten by
    [sets]. *)
Definition license_updated (t : table) (id : string) (sets : list (nat * value))
  : table :=
  mkTable (tcols t) (tfks t)
    (map (fun r => if sql_eq (cell r 0) (VStr id) then apply_sets sets r else r)
         (trows t)).



(** ** A database from before the column [type] *)

Definition legacy_table : table :=
  Eval vm_compute in
    mkTable (removelast (columns_of index.tableDef)) []
            [[VStr "c0"; VBytes [Byte.x07]; VStr "https://example.org/c0.epub";
              VInt 512; VStr "2c26b46b68ffc68f"]].

Definition legacy_world : World :=
  mkWorld [("content", legacy_table)] [] [] [] (mkTime 1514764800 250000000 Local).


(** * Properties *)

(** ** The driver *)

Section Driver.

Lemma next_fault_record (e : event) (w : World) :
  fst (next_fault (record e w)) = fst (next_fault w).
Proof. unfold next_fault, record; simpl. destruct (faults w); reflexivity. Qed.

Lemma next_fault_data (w : World) : data (snd (next_fault w)) = data w.
Proof. unfold next_fault. destruct (faults w); reflexivity. Qed.

Lemma next_fault_cursors (w : World) : cursors (snd (next_fault w)) = cursors w.
Proof. unfold next_fault. destruct (faults w); reflexivity. Qed.

Lemma next_fault_trace (w : World) : trace (snd (next_fault w)) = trace w.
Proof. unfold next_fault. destruct (faults w); reflexivity. Qed.

Lemma next_fault_clock (w : World) : clock (snd (next_fault w)) = clock w.
Proof. unfold next_fault. destruct (faults w); reflexivity. Qed.

(** A fault the driver reports is a driver error. *)
Lemma next_fault_driver (w : World) (e : error) :
  fst (next_fault w) = Some e -> exists msg, e = ErrDriver msg.
Proof.
  unfold next_fault. destruct (faults w) as [|[m|] fs]; simpl; try discriminate.
  intros H; injection H as <-. now exists m.
Qed.

Lemma Exec_trace (q : string) (args : list value) (w : World) :
  trace (snd (Exec q args w)) = (trace w ++ [EvExec q args])%list.
Proof.
  unfold Exec.
  pose proof (next_fault_trace (record (EvExec q args) w)) as T.
  destruct (next_fault (record (EvExec q args) w)) as [f w1]; simpl in T.
  destruct f; [exact T|].
  destruct (parse q); [|exact T].
  destruct (run s args (data w1)) as [[[d r] n]|]; exact T.
Qed.

Lemma Prepare_trace (q : string) (w : World) :
  trace (snd (Prepare q w)) = (trace w ++ [EvPrepare q])%list.
Proof.
  unfold Prepare.
  pose proof (next_fault_trace (record (EvPrepare q) w)) as T.
  destruct (next_fault (record (EvPrepare q) w)) as [f w1]; simpl in T.
  destruct f; [exact T|].
  destruct (parse q); [|exact T].
  destruct (check s (data w1)); exact T.
Qed.

(** A statement that was prepared is the parse of its text. *)
Lemma Prepare_ok (q : string) (w w' : World) (s : stmt) :
  Prepare q w = (Ok s, w') -> parse q = Some s.
Proof.
  unfold Prepare.
  destruct (next_fault (record (EvPrepare q) w)) as [f w1].
  destruct f; [discriminate|].
  destruct (parse q); [|discriminate].
  destruct (check s0 (data w1)); [discriminate|].
  intros H; injection H as -> _. reflexivity.
Qed.

Lemma Prepare_syntax_error (q : string) (w : World) :
  parse q = None -> exists e, fst (Prepare q w) = Fail e.
Proof.
  intros P. unfold Prepare.
  destruct (next_fault (record (EvPrepare q) w)) as [f w1].
  destruct f; [eexists; reflexivity|].
  rewrite P. eexists; reflexivity.
Qed.

End Driver.

(** ** The statement texts *)

Section Texts.

Lemma license_texts_postgres (Database : string) :
  prefix "postgres" Database = true ->
  parses (license.select_queries Database) = parsed license_statements.
Proof.
  intros P. unfold license.select_queries. rewrite P. vm_compute. reflexivity.
Qed.

(** Outside the postgres dialect the text of updaterights is not a
    statement, and the six other texts are the statements of the postgres
    dialect. *)
Lemma license_texts_other (Database : string) :
  prefix "postgres" Database = false ->
  parses (license.select_queries Database) =
    [Some (license.listall license_statements);
     Some (license.list_ license_statements);
     None;
     Some (license.add license_statements);
     Some (license.update license_statements);
     Some (license.updatelsdstatus license_statements);
     Some (license.get license_statements)].
Proof.
  intros P. unfold license.select_queries. rewrite P. vm_compute. reflexivity.
Qed.

Lemma index_texts (Database : string) :
  let q := index.select_queries Database in
  map parse [index.getQuery q; index.addQuery q; index.updateQuery q; index.listQuery q]
  = map Some [index.get index_statements; index.add index_statements;
              index.update index_statements; index.list_ index_statements].
Proof.
  unfold index.select_queries.
  destruct (prefix "postgres" Database); vm_compute; reflexivity.
Qed.

End Texts.

(** ** What [Open] and [NewSqlStore] build *)

Section Stores.

Ltac prepared H :=
  match type of H with
  | context [Prepare ?q ?w] =>
      let E := fresh "E" in
      destruct (Prepare q w) as [[? | ?] ?] eqn:E;
      [apply Prepare_ok in E | discriminate H]
  end.

(** A store is only ever built under the postgres dialect, and it holds the
    statements of that dialect. *)
Lemma NewSqlStore_ok (Database : string) (w w' : World) (s : license.sqlStore) :
  license.NewSqlStore Database w = (Ok s, w') ->
  prefix "postgres" Database = true /\ s = license_statements.
Proof.
  intros H. unfold license.NewSqlStore in H.
  destruct (prefix "sqlite" Database || prefix "postgres" Database);
    [destruct (Exec _ _ _) as [[n | e] w1]; [|discriminate H]|];
    repeat prepared H;
    injection H as <- _;
    (destruct (prefix "postgres" Database) eqn:P;
     [ pose proof (license_texts_postgres _ P) as T
     | pose proof (license_texts_other _ P) as T ];
     unfold parses, parsed in T; simpl map in T;
     injection T as T1 T2 T3 T4 T5 T6 T7;
     try congruence;
     split; [reflexivity|];
     unfold license_statements; f_equal; congruence).
Qed.

Lemma Open_ok (Database : string) (w w' : World) (i : index.dbIndex) :
  index.Open Database w = (Ok i, w') -> i = index_statements.
Proof.
  intros H. unfold index.Open in H.
  destruct (Exec _ _ w) as [[n | e] w1]; [|discriminate H].
  repeat prepared H.
  injection H as <- _.
  pose proof (index_texts Database) as T. simpl in T.
  injection T as T1 T2 T3 T4.
  unfold index_statements; f_equal; congruence.
Qed.

End Stores.

(** ** The calls made on opening *)

Section Opening.

Lemma adds_refl P w : adds P w w.
Proof. exists []. split; [now rewrite app_nil_r | reflexivity]. Qed.

Lemma adds_trans P w1 w2 w3 : adds P w1 w2 -> adds P w2 w3 -> adds P w1 w3.
Proof.
  intros (e1 & T1 & F1) (e2 & T2 & F2). exists (e1 ++ e2)%list. split.
  - now rewrite T2, T1, app_assoc.
  - now rewrite forallb_app, F1, F2.
Qed.

Lemma adds_Prepare P q w : P (EvPrepare q) = true -> adds P w (snd (Prepare q w)).
Proof.
  intros H. exists [EvPrepare q]. split; [apply Prepare_trace | now simpl; rewrite H].
Qed.

Lemma adds_Exec P q args w : P (EvExec q args) = true -> adds P w (snd (Exec q args w)).
Proof.
  intros H. exists [EvExec q args]. split; [apply Exec_trace | now simpl; rewrite H].
Qed.

Lemma adds_record P e w : P e = true -> adds P w (record e w).
Proof. intros H. exists [e]. split; [reflexivity | now simpl; rewrite H]. Qed.

Lemma calls_of_adds {A} P (m : World -> A * World) w :
  adds P w (snd (m w)) -> forallb P (calls_of m w) = true.
Proof.
  intros (evs & T & F). unfold calls_of. rewrite T.
  rewrite skipn_app, skipn_all, Nat.sub_diag. exact F.
Qed.

Lemma calls_of_first {A} (m : World -> A * World) w w1 e :
  trace w1 = (trace w ++ [e])%list -> adds (fun _ => true) w1 (snd (m w)) ->
  exists rest, calls_of m w = e :: rest.
Proof.
  intros T1 (evs & T & _). exists evs. unfold calls_of. rewrite T, T1, <- app_assoc.
  rewrite skipn_app, skipn_all, Nat.sub_diag. reflexivity.
Qed.

Ltac chain P HP :=
  repeat match goal with
  | |- adds _ ?w ?w => apply adds_refl
  | |- adds _ ?w (snd ?t) =>
      match t with
      | context [Prepare ?q w] =>
          apply (adds_trans P w (snd (Prepare q w)));
          [ apply adds_Prepare, HP
          | destruct (Prepare q w) as [[? | ?] ?]; simpl snd ]
      end
  end.

Lemma Open_trace (Database : string) (w : World) :
  exists rest,
    calls_of (index.Open Database) w
    = EvExec (index.createTableQuery (index.select_queries Database)) [] :: rest.
Proof.
  apply calls_of_first with (w1 := snd (Exec (index.createTableQuery
                                               (index.select_queries Database)) [] w)).
  - apply Exec_trace.
  - unfold index.Open.
    destruct (Exec _ _ w) as [[n | e] w1]; simpl snd; [|apply adds_refl].
    apply (adds_trans _ _ (if prefix "sqlite" Database
                           then snd (Exec index.alterQuery [] w1) else w1)).
    + destruct (prefix "sqlite" Database); [now apply adds_Exec | apply adds_refl].
    + generalize (if prefix "sqlite" Database
                  then snd (Exec index.alterQuery [] w1) else w1) as w2.
      intros w2. chain (fun _ : event => true) (fun _ : string => eq_refl true).
Qed.

Lemma NewSqlStore_prepares P (q : license.queries) (w : World) :
  (forall t, P (EvPrepare t) = true) ->
  adds P w (snd (
    match Prepare (license.listallquery q) w with
    | (Fail err, w2) => (Fail err, w2)
    | (Ok listall, w2) =>
    match Prepare (license.listquery q) w2 with
    | (Fail err, w3) => (Fail err, w3)
    | (Ok lst, w3) =>
    match Prepare (license.updaterightsquery q) w3 with
    | (Fail err, w4) => (Fail err, w4)
    | (Ok updaterights, w4) =>
    match Prepare (license.addquery q) w4 with
    | (Fail err, w5) => (Fail err, w5)
    | (Ok add, w5) =>
    match Prepare (license.updatequery q) w5 with
    | (Fail err, w6) => (Fail err, w6)
    | (Ok update, w6) =>
    match Prepare (license.updatelsdstatusquery q) w6 with
    | (Fail err, w7) => (Fail err, w7)
    | (Ok updatelsdstatus, w7) =>
    match Prepare (license.getquery q) w7 with
    | (Fail err, w8) => (Fail err, w8)
    | (Ok get, w8) =>
        (Ok (license.mkStore listall lst updaterights add update updatelsdstatus get), w8)
    end end end end end end end)).
Proof.
  intros HP. chain P HP.
Qed.

Lemma NewSqlStore_trace_create (Database : string) (w : World) :
  prefix "sqlite" Database || prefix "postgres" Database = true ->
  exists rest,
    calls_of (license.NewSqlStore Database) w
    = EvExec (license.tabledefquery (license.select_queries Database)) [] :: rest.
Proof.
  intros C.
  apply calls_of_first with (w1 := snd (Exec (license.tabledefquery
                                               (license.select_queries Database)) [] w)).
  - apply Exec_trace.
  - unfold license.NewSqlStore. rewrite C.
    destruct (Exec _ _ w) as [[n | e] w1]; simpl snd.
    + apply NewSqlStore_prepares. reflexivity.
    + now apply adds_record.
Qed.

Lemma NewSqlStore_trace_bare (Database : string) (w : World) :
  prefix "sqlite" Database || prefix "postgres" Database = false ->
  existsb is_exec (calls_of (license.NewSqlStore Database) w) = false.
Proof.
  intros C.
  assert (F : forallb (fun e => negb (is_exec e))
                      (calls_of (license.NewSqlStore Database) w) = true).
  { apply calls_of_adds. unfold license.NewSqlStore. rewrite C.
    apply NewSqlStore_prepares. reflexivity. }
  revert F. generalize (calls_of (license.NewSqlStore Database) w).
  induction l as [|e l IH]; simpl; [reflexivity|].
  destruct (is_exec e); simpl; [discriminate | exact IH].
Qed.

End Opening.

(** ** Creating the tables *)

Section Creation.

Lemma find_table_app (db : database) (name : string) (t : table) :
  find_table db name = None -> find_table (db ++ [(name, t)]) name = Some t.
Proof.
  induction db as [|[n t0] db IH]; simpl.
  - now rewrite String.eqb_refl.
  - destruct (String.eqb n name); [discriminate | exact IH].
Qed.

(** CREATE TABLE IF NOT EXISTS never fails, and executing it again changes
    nothing. *)
Lemma create_idempotent name cols fks (db : database) :
  match run (CreateTable true name cols fks) [] db with
  | Ok (db1, _, _) => run (CreateTable true name cols fks) [] db1 = Ok (db1, [], 0)
  | Fail _ => False
  end.
Proof.
  simpl. destruct (find_table db name) eqn:F; simpl.
  - now rewrite F.
  - now rewrite (find_table_app _ _ _ F).
Qed.

(** C2, as the code has it: [Open] executes CREATE TABLE IF NOT EXISTS as
    its first call on the handle, whatever the configuration names;
    [NewSqlStore] does so only when the configuration value starts with
    "sqlite" or "postgres", and otherwise executes nothing on the handle (it
    goes straight to preparing its statements).  Each of the four table
    definitions is a CREATE TABLE IF NOT EXISTS that never fails and that
    changes nothing when it is executed again. *)
Theorem create_table_before_prepare :
  forall (Database : string) (w : World),
    creates_table_first (calls_of (index.Open Database) w) = true /\
    (if prefix "sqlite" Database || prefix "postgres" Database
     then creates_table_first (calls_of (license.NewSqlStore Database) w) = true
     else existsb is_exec (calls_of (license.NewSqlStore Database) w) = false) /\
    Forall (fun q =>
              exists name cols fks,
                parse q = Some (CreateTable true name cols fks) /\
                forall db,
                  match run (CreateTable true name cols fks) [] db with
                  | Ok (db1, _, _) =>
                      run (CreateTable true name cols fks) [] db1 = Ok (db1, [], 0)
                  | Fail _ => False
                  end)
           table_definitions.
Proof.
  intros Database w. split; [|split].
  - destruct (Open_trace Database w) as [rest ->].
    unfold index.select_queries.
    destruct (prefix "postgres" Database); vm_compute; reflexivity.
  - destruct (prefix "sqlite" Database || prefix "postgres" Database) eqn:C.
    + destruct (NewSqlStore_trace_create Database w C) as [rest ->].
      unfold license.select_queries.
      destruct (prefix "postgres" Database); vm_compute; reflexivity.
    + now apply NewSqlStore_trace_bare.
  - unfold table_definitions, index.tableDefs, license.tableDefs. simpl app.
    repeat (apply Forall_cons;
            [do 3 eexists; split; [vm_compute; reflexivity | apply create_idempotent]|]).
    apply Forall_nil.
Qed.

(** C2 as stated fails for a configuration that names neither sqlite nor
    postgres: [NewSqlStore] then executes no statement at all, and its
    first call is a Prepare. *)
Lemma mysql_store_creates_no_table :
  creates_table_first (calls_of (license.NewSqlStore "mysql") empty_world) = false /\
  calls_of (license.NewSqlStore "mysql") empty_world
  = [EvPrepare (license.listallquery (license.select_queries "mysql"))].
Proof. split; vm_compute; reflexivity. Qed.

End Creation.

(** ** The two dialects *)

Section Dialects.

(** C1 at a configuration naming sqlite.  The text of updaterights under
    the postgres dialect is an UPDATE of the four rights and of [updated];
    the text chosen otherwise is no statement at all, because [updated] is
    written with a space inside the word.  The other six statements of the
    store and the four of the index are the same under both dialects.  So
    where the postgres configuration yields a store, the sqlite one yields
    the syntax error of [Prepare]. *)
Theorem updaterights_text_differs :
  let pg := license.select_queries "postgres" in
  let lite := license.select_queries "sqlite3" in
  parse (license.updaterightsquery pg)
  = Some (Update "license"
            [("rights_print", OParam 1); ("rights_copy", OParam 2);
             ("rights_start", OParam 3); ("rights_end", OParam 4);
             ("updated", OParam 5)]
            "id" (OParam 6)) /\
  parse (license.updaterightsquery lite) = None /\
  map parse [license.listallquery pg; license.listquery pg; license.addquery pg;
             license.updatequery pg; license.updatelsdstatusquery pg;
             license.getquery pg]
  = map parse [license.listallquery lite; license.listquery lite; license.addquery lite;
               license.updatequery lite; license.updatelsdstatusquery lite;
               license.getquery lite] /\
  (let ipg := index.select_queries "postgres" in
   let ilite := index.select_queries "sqlite3" in
   map parse [index.getQuery ipg; index.addQuery ipg; index.updateQuery ipg;
              index.listQuery ipg]
   = map parse [index.getQuery ilite; index.addQuery ilite; index.updateQuery ilite;
                index.listQuery ilite]) /\
  fst (license.NewSqlStore "postgres" (snd (index.Open "postgres" empty_world)))
  = Ok license_statements /\
  fst (license.NewSqlStore "sqlite3" (snd (index.Open "sqlite3" empty_world)))
  = Fail syntax_error.
Proof. repeat split; vm_compute; reflexivity. Qed.

(** The same for every configuration: no store is built outside the
    postgres dialect. *)
Lemma NewSqlStore_fails_outside_postgres (Database : string) (w : World) :
  prefix "postgres" Database = false ->
  exists e, fst (license.NewSqlStore Database w) = Fail e.
Proof.
  intros P. destruct (license.NewSqlStore Database w) as [[s | e] w'] eqn:E.
  - apply NewSqlStore_ok in E. destruct E as [E _]. congruence.
  - now exists e.
Qed.

End Dialects.

(** ** Encoding a content record *)

Section Encoding.

(** C9: the JSON encoding of a content record has the members id, location,
    length, sha256 and type, and no member for the encryption key: two
    records that differ only in their key have the same encoding. *)
Theorem Marshal_omits_EncryptionKey :
  forall (id : string) (key key' : option (list Byte.byte)) (location : string)
         (length : Z) (sha256 type : string),
    index.Marshal (index.mkContent id key location length sha256 type)
    = [("id", index.JString id); ("location", index.JString location);
       ("length", index.JNumber length); ("sha256", index.JString sha256);
       ("type", index.JString type)] /\
    index.Marshal (index.mkContent id key location length sha256 type)
    = index.Marshal (index.mkContent id key' location length sha256 type).
Proof. intros. split; reflexivity. Qed.

End Encoding.

(** ** Errors of the engine *)

Section EngineErrors.

Ltac driver :=
  intros; unfold no_column, no_argument, no_table in *;
  match goal with
  | H : Fail _ = Fail _ |- _ => injection H as <-; eexists; reflexivity
  | H : Fail ?e = Fail _, D : is_driver ?e |- _ => injection H as <-; exact D
  | H : Ok _ = Fail _ |- _ => discriminate H
  end.

Lemma count_of_driver args o e : count_of args o = Fail e -> is_driver e.
Proof.
  unfold count_of. destruct o as [x|]; [|discriminate].
  destruct (bind args x) as [[]|]; try driver.
  destruct (z <? 0); driver.
Qed.

Lemma resolve_sets_driver cs args sets e :
  resolve_sets cs args sets = Fail e -> is_driver e.
Proof.
  revert e. induction sets as [|[c o] sets IH]; simpl; intros e; [discriminate|].
  destruct (col_index cs c); [|driver].
  destruct (bind args o); [|driver].
  destruct (resolve_sets cs args sets); [discriminate|].
  intros H; injection H as <-. now apply IH.
Qed.

Lemma select_rows_driver t args cols whr ord lim off e :
  select_rows t args cols whr ord lim off = Fail e -> is_driver e.
Proof.
  unfold select_rows.
  destruct (col_indexes (tcols t) cols); [|driver].
  destruct whr as [[c o]|].
  - destruct (col_index (tcols t) c); [|driver].
    destruct (bind args o); [|driver].
    destruct ord as [c'|]; [destruct (col_index (tcols t) c'); [|driver]|];
      destruct (count_of args lim) eqn:L; destruct (count_of args off) eqn:O;
      intros H; try discriminate H; injection H as <-;
      eauto using count_of_driver.
  - destruct ord as [c'|]; [destruct (col_index (tcols t) c'); [|driver]|];
      destruct (count_of args lim) eqn:L; destruct (count_of args off) eqn:O;
      intros H; try discriminate H; injection H as <-;
      eauto using count_of_driver.
Qed.

(** Whatever the engine refuses, it refuses with an error of its own. *)
Lemma run_driver s args db e : run s args db = Fail e -> is_driver e.
Proof.
  destruct s; simpl.
  - destruct (find_table db name); [destruct if_not_exists|]; driver.
  - destruct (find_table db name); [|driver].
    destruct (has_col _ _); driver.
  - destruct (find_table db name); [|driver].
    destruct (negb _); [driver|].
    destruct (negb _); [driver|].
    destruct (bind_all args vals); [|driver].
    destruct (violates_notnull _ _); [driver|].
    destruct (duplicates_key _ _ _); driver.
  - destruct (find_table db name); [|driver].
    destruct (col_index _ wcol); [|driver].
    destruct (bind args wval); [|driver].
    destruct (resolve_sets _ args sets) eqn:R.
    + destruct (_ && _); driver.
    + intros H; injection H as <-. eauto using resolve_sets_driver.
  - destruct (find_table db name); [|driver].
    destruct (select_rows _ _ _ _ _ _ _) eqn:S; [discriminate|].
    intros H; injection H as <-. eauto using select_rows_driver.
Qed.

Lemma Stmt_Query_driver s args w e w' :
  Stmt_Query s args w = (Fail e, w') -> is_driver e.
Proof.
  unfold Stmt_Query.
  destruct (next_fault (record _ w)) as [f w1] eqn:N.
  destruct f as [e0|].
  - intros H; injection H as <- _.
    apply (next_fault_driver (record (EvStmtQuery s args) w)). now rewrite N.
  - destruct (run s args (data w1)) as [[[d r] n]|e0] eqn:R; [discriminate|].
    intros H; injection H as <- _. eauto using run_driver.
Qed.

End EngineErrors.

(** ** Iteration that could not start *)

Section FailedIteration.

Lemma index_calls_Failed (e : error) (n : nat) (w : World) :
  index.calls n (index.Failed e) w = (repeat (index.Content_zero, Some e) n, w).
Proof. induction n as [|n IH]; simpl; [reflexivity | now rewrite IH]. Qed.

Lemma license_calls_Failed (e : error) (n : nat) (w : World) :
  license.calls n (license.Failed e) w
  = (repeat (license.LicenseReport.zero, Some e) n, license.Failed e, w).
Proof. induction n as [|n IH]; simpl; [reflexivity | now rewrite IH]. Qed.

Lemma driver_not_NotFound (e : error) :
  is_driver e -> e <> index.NotFound /\ e <> license.NotFound.
Proof. intros [msg ->]. split; discriminate. Qed.

(** C10: when the query of [List] or [ListAll] fails with [e], the function
    that is returned has captured [e]: any number of calls return the zero
    record with [e] each time and touch nothing, and [e], an error of the
    driver, is not the not-found error. *)
Theorem failed_query_is_returned_by_every_call :
  (forall (i : index.dbIndex) (w w1 : World) (e : error),
      Stmt_Query (index.list_ i) [] w = (Fail e, w1) ->
      index.List i w = (index.Failed e, w1) /\
      e <> index.NotFound /\
      forall n w2,
        index.calls n (index.Failed e) w2
        = (repeat (index.Content_zero, Some e) n, w2)) /\
  (forall (s : license.sqlStore) (page pageNum : Z) (w w1 : World) (e : error),
      Stmt_Query (license.listall s) [VInt page; VInt (int_mul pageNum page)] w
      = (Fail e, w1) ->
      license.ListAll s page pageNum w = (license.Failed e, w1) /\
      e <> license.NotFound /\
      forall n w2,
        license.calls n (license.Failed e) w2
        = (repeat (license.LicenseReport.zero, Some e) n, license.Failed e, w2)) /\
  (forall (s : license.sqlStore) (contentID : string) (page pageNum : Z)
          (w w1 : World) (e : error),
      Stmt_Query (license.list_ s)
                 [VStr contentID; VInt page; VInt (int_mul pageNum page)] w
      = (Fail e, w1) ->
      license.List s contentID page pageNum w = (license.Failed e, w1) /\
      e <> license.NotFound /\
      forall n w2,
        license.calls n (license.Failed e) w2
        = (repeat (license.LicenseReport.zero, Some e) n, license.Failed e, w2)).
Proof.
  split; [|split]; intros.
  - split; [unfold index.List; now rewrite H|]. split.
    + apply driver_not_NotFound. eauto using Stmt_Query_driver.
    + intros. apply index_calls_Failed.
  - split; [unfold license.ListAll; now rewrite H|]. split.
    + apply driver_not_NotFound. eauto using Stmt_Query_driver.
    + intros. apply license_calls_Failed.
  - split; [unfold license.List; now rewrite H|]. split.
    + apply driver_not_NotFound. eauto using Stmt_Query_driver.
    + intros. apply license_calls_Failed.
Qed.

(** The three cases at a handle whose connection is refused. *)
Lemma failed_query_witness :
  let e := ErrDriver "connection refused" in
  (fst (Stmt_Query (index.list_ index_statements) [] broken_world) = Fail e /\
   fst (index.List index_statements broken_world) = index.Failed e /\
   e <> index.NotFound /\
   fst (index.calls 3 (index.Failed e) empty_world)
   = repeat (index.Content_zero, Some e) 3) /\
  (fst (license.ListAll license_statements 10 0 broken_world) = license.Failed e /\
   fst (license.List license_statements "c1" 10 0 broken_world) = license.Failed e).
Proof.
  intros e.
  destruct failed_query_is_returned_by_every_call as (HI & HA & HL).
  split.
  - destruct (HI index_statements broken_world
                 (snd (Stmt_Query (index.list_ index_statements) [] broken_world)) e
                 eq_refl) as (H1 & H2 & H3).
    split; [reflexivity|]. split; [now rewrite H1|]. split; [exact H2|].
    now rewrite H3.
  - split.
    + destruct (HA license_statements 10 0 broken_world _ e eq_refl) as (H1 & _).
      now rewrite H1.
    + destruct (HL license_statements "c1" 10 0 broken_world _ e eq_refl) as (H1 & _).
      now rewrite H1.
Defined.

End FailedIteration.

(** ** Cursors *)

Section Cursors.

Lemma set_nth_length {A} (l : list A) i x : length (set_nth l i x) = length l.
Proof.
  revert i. induction l as [|y l IH]; intros [|i]; simpl; try reflexivity.
  now rewrite IH.
Qed.

Lemma nth_error_set_nth {A} (l : list A) i x y :
  nth_error l i = Some y -> nth_error (set_nth l i x) i = Some x.
Proof.
  revert i. induction l as [|z l IH]; intros [|i]; simpl; try discriminate.
  - reflexivity.
  - apply IH.
Qed.

Lemma no_fault_called (e : event) (w : World) :
  no_fault w -> next_fault (record e w) = (None, called e w).
Proof.
  unfold no_fault, called. intros H. rewrite <- (next_fault_record e) in H.
  destruct (next_fault (record e w)) as [f w1]. simpl in *. now subst f.
Qed.

Lemma called_data e w : data (called e w) = data w.
Proof. unfold called. now rewrite next_fault_data. Qed.

Lemma called_cursors e w : cursors (called e w) = cursors w.
Proof. unfold called. now rewrite next_fault_cursors. Qed.

Lemma called_trace e w : trace (called e w) = (trace w ++ [e])%list.
Proof. unfold called. now rewrite next_fault_trace. Qed.

Lemma called_clock e w : clock (called e w) = clock w.
Proof. unfold called. now rewrite next_fault_clock. Qed.


Lemma Rows_Next_more h w r rest cur :
  nth_error (cursors w) h = Some (mkCursor (r :: rest) cur false) ->
  exists w1,
    Rows_Next h w = (true, w1) /\
    nth_error (cursors w1) h = Some (mkCursor rest (Some r) false) /\
    trace w1 = trace w /\ data w1 = data w.
Proof.
  intros H. unfold Rows_Next. rewrite H. simpl. eexists. split; [reflexivity|].
  simpl. split; [|split; reflexivity]. eapply nth_error_set_nth, H.
Qed.

Lemma Rows_Next_end h w cur :
  nth_error (cursors w) h = Some (mkCursor [] cur false) ->
  exists w1,
    Rows_Next h w = (false, w1) /\
    nth_error (cursors w1) h = Some (mkCursor [] None true) /\
    trace w1 = trace w /\ data w1 = data w.
Proof.
  intros H. unfold Rows_Next. rewrite H. simpl. eexists. split; [reflexivity|].
  simpl. split; [|split; reflexivity]. eapply nth_error_set_nth, H.
Qed.


Lemma Rows_Scan_current {T} h (ds : list (dest T)) (x : T) w pend r :
  nth_error (cursors w) h = Some (mkCursor pend (Some r) false) ->
  Rows_Scan h ds x w = Scan ds r x.
Proof. intros H. unfold Rows_Scan. now rewrite H. Qed.





End Cursors.

(** ** Iteration to the end *)

Section Iteration.




End Iteration.

(** ** Statements on the two tables *)

Section Evaluation.

Lemma content_table_cases db t :
  table_of db "content" index.tableDefs t ->
  find_table db "content" = Some t /\
  (tcols t = columns_of index.tableDef \/
   tcols t = columns_of index.tableDefPostgres) /\
  Forall (fun r : row => length r = 6%nat) (trows t).
Proof.
  intros (F & (q & I & C) & L). split; [exact F|].
  assert (D : tcols t = columns_of index.tableDef \/
              tcols t = columns_of index.tableDefPostgres).
  { destruct I as [<- | [<- | []]]; auto. }
  split; [exact D|].
  revert L. apply Forall_impl. intros r ->.
  destruct D as [-> | ->]; reflexivity.
Qed.

Lemma license_table_cases db t :
  table_of db "license" license.tableDefs t ->
  find_table db "license" = Some t /\
  (tcols t = columns_of license.tableDef \/
   tcols t = columns_of license.tableDefPostgers) /\
  Forall (fun r : row => length r = 11%nat) (trows t).
Proof.
  intros (F & (q & I & C) & L). split; [exact F|].
  assert (D : tcols t = columns_of license.tableDef \/
              tcols t = columns_of license.tableDefPostgers).
  { destruct I as [<- | [<- | []]]; auto. }
  split; [exact D|].
  revert L. apply Forall_impl. intros r ->.
  destruct D as [-> | ->]; reflexivity.
Qed.

(** Unfolds a statement on a table of either definition down to what it
    does to the rows. *)
Ltac evaluate H :=
  let F := fresh "F" in
  let C := fresh "C" in
  first [ destruct (content_table_cases _ _ H) as (F & C & _)
        | destruct (license_table_cases _ _ H) as (F & C & _) ];
  cbv [index_statements license_statements index.get index.add index.update
       index.list_ license.listall license.list_ license.updaterights license.add
       license.update license.updatelsdstatus license.get matching run select_rows];
  rewrite F; cbv beta iota; destruct C as [C | C]; rewrite C;
  vm_compute columns_of.

Lemma run_get_content db t id :
  table_of db "content" index.tableDefs t ->
  run (index.get index_statements) [VStr id] db
  = Ok (db, map (columns 6) (firstn 1 (matching t "id" (VStr id))), 0).
Proof. intros H. evaluate H; reflexivity. Qed.

Lemma run_add_content db t id key loc len sha ty :
  table_of db "content" index.tableDefs t ->
  let r : row := [VStr id; VBytes key; VStr loc; VInt len; VStr sha; VStr ty] in
  run (index.add index_statements) r db
  = if duplicates_key (tcols t) r (trows t)
    then Fail (ErrDriver "UNIQUE constraint failed")
    else Ok (put_table db "content" (mkTable (tcols t) (tfks t) (trows t ++ [r])),
             [], 1).
Proof. intros H r. evaluate H; reflexivity. Qed.

(** A nil key is bound as NULL, which the column refuses. *)
Lemma run_add_content_nil db t id loc len sha ty :
  table_of db "content" index.tableDefs t ->
  run (index.add index_statements)
      [VStr id; VNull; VStr loc; VInt len; VStr sha; VStr ty] db
  = Fail (ErrDriver "NOT NULL constraint failed").
Proof. intros H. evaluate H; reflexivity. Qed.

Lemma run_get_license db t id :
  table_of db "license" license.tableDefs t ->
  run (license.get license_statements) [VStr id] db
  = Ok (db, map (columns 10) (matching t "id" (VStr id)), 0).
Proof. intros H. evaluate H; reflexivity. Qed.

(** The row an Add of the license store inserts: the ten values bound,
    and the default of lsd_status. *)
Lemma run_add_license db t id uid prov issued upd p c s e cid :
  table_of db "license" license.tableDefs t ->
  let r : row := [VStr id; VStr uid; VStr prov; VTime issued; upd; p; c; s; e;
                  VStr cid; VInt 0] in
  run (license.add license_statements)
      [VStr id; VStr uid; VStr prov; VTime issued; upd; p; c; s; e; VStr cid] db
  = if duplicates_key (tcols t) r (trows t)
    then Fail (ErrDriver "UNIQUE constraint failed")
    else Ok (put_table db "license" (mkTable (tcols t) (tfks t) (trows t ++ [r])),
             [], 1).
Proof. intros H r. evaluate H; reflexivity. Qed.

Lemma run_update_license db t uid prov st p c s e cid id :
  table_of db "license" license.tableDefs t ->
  run (license.update license_statements)
      [VStr uid; VStr prov; VTime st; p; c; s; e; VStr cid; VStr id] db
  = updated_by db t id
      [(1, VStr uid); (2, VStr prov); (4, VTime st); (5, p); (6, c); (7, s);
       (8, e); (9, VStr cid)]%nat.
Proof. intros H. unfold updated_by. evaluate H; reflexivity. Qed.

Lemma run_updaterights_license db t st p c s e id :
  table_of db "license" license.tableDefs t ->
  run (license.updaterights license_statements) [p; c; s; e; VTime st; VStr id] db
  = updated_by db t id [(5, p); (6, c); (7, s); (8, e); (4, VTime st)]%nat.
Proof. intros H. unfold updated_by. evaluate H; reflexivity. Qed.

Lemma run_updatelsdstatus_license db t status id :
  table_of db "license" license.tableDefs t ->
  run (license.updatelsdstatus license_statements) [VInt status; VStr id] db
  = updated_by db t id [(10%nat, VInt status)].
Proof. intros H. unfold updated_by. evaluate H; reflexivity. Qed.

Lemma run_listall_license db t page off :
  table_of db "license" license.tableDefs t ->
  0 <= page -> 0 <= off ->
  run (license.listall license_statements) [VInt page; VInt off] db
  = Ok (db,
        map (columns 10)
            (firstn (Z.to_nat page) (skipn (Z.to_nat off) (sort_desc 3 (trows t)))),
        0).
Proof.
  intros H P O. apply Z.ltb_ge in P, O.
  evaluate H; cbn; rewrite P, O; reflexivity.
Qed.

Lemma run_list_license db t cid page off :
  table_of db "license" license.tableDefs t ->
  0 <= page -> 0 <= off ->
  run (license.list_ license_statements) [VStr cid; VInt page; VInt off] db
  = Ok (db,
        map (columns 10)
            (firstn (Z.to_nat page)
                    (skipn (Z.to_nat off) (matching t "content_fk" (VStr cid)))),
        0).
Proof.
  intros H P O. apply Z.ltb_ge in P, O.
  evaluate H; cbn; rewrite P, O; reflexivity.
Qed.

End Evaluation.

(** ** Calls that the driver does not fail *)

Section Calls.

Lemma Stmt_Exec_ok s args w n w' :
  Stmt_Exec s args w = (Ok n, w') ->
  exists rows,
    run s args (data w) = Ok (data w', rows, n) /\
    faults w' = tl (faults w) /\ clock w' = clock w.
Proof.
  unfold Stmt_Exec.
  pose proof (called_data (EvStmtExec s args) w) as D.
  pose proof (called_clock (EvStmtExec s args) w) as K.
  unfold called in D, K.
  assert (FT : faults (snd (next_fault (record (EvStmtExec s args) w))) = tl (faults w)).
  { unfold next_fault, record; simpl. destruct (faults w); reflexivity. }
  destruct (next_fault (record _ w)) as [f w0]. simpl in D, K, FT.
  destruct f; [discriminate|].
  rewrite D. destruct (run s args (data w)) as [[[d rows] m]|]; [|discriminate].
  intros H; injection H as <- <-. exists rows. simpl. auto.
Qed.

Lemma Stmt_Exec_run s args w :
  no_fault w ->
  Stmt_Exec s args w
  = match run s args (data w) with
    | Fail e => (Fail e, called (EvStmtExec s args) w)
    | Ok (d, _, n) => (Ok n, set_data (called (EvStmtExec s args) w) d)
    end.
Proof.
  intros N. unfold Stmt_Exec. rewrite (no_fault_called _ _ N), called_data.
  reflexivity.
Qed.

Lemma Stmt_Query_run s args w d rows n :
  no_fault w ->
  run s args (data w) = Ok (d, rows, n) ->
  exists h w1,
    Stmt_Query s args w = (Ok h, w1) /\
    nth_error (cursors w1) h = Some (mkCursor rows None false) /\
    data w1 = d /\
    trace w1 = (trace w ++ [EvStmtQuery s args])%list.
Proof.
  intros N R. unfold Stmt_Query. rewrite (no_fault_called _ _ N), called_data, R.
  do 2 eexists. split; [reflexivity|]. simpl. rewrite called_cursors, called_trace.
  split; [|split; reflexivity].
  rewrite nth_error_app2, Nat.sub_diag; [reflexivity | apply Nat.le_refl].
Qed.

Lemma Stmt_QueryRow_run s args w d rows n :
  no_fault w ->
  run s args (data w) = Ok (d, rows, n) ->
  fst (Stmt_QueryRow s args w)
  = match rows with [] => Fail ErrNoRows | r :: _ => Ok r end.
Proof.
  intros N R. unfold Stmt_QueryRow. rewrite (no_fault_called _ _ N), called_data, R.
  destruct rows; reflexivity.
Qed.

End Calls.

(** ** Rows and keys *)

Section Keys.

Lemma bytes_eqb_sym a b : bytes_eqb a b = bytes_eqb b a.
Proof.
  revert b. induction a as [|x a IH]; intros [|y b]; simpl; try reflexivity.
  rewrite IH. f_equal.
  destruct (Byte.eqb x y) eqn:E1, (Byte.eqb y x) eqn:E2; try reflexivity.
  - apply Byte.byte_dec_bl in E1. subst. now rewrite Byte.byte_dec_lb in E2.
  - apply Byte.byte_dec_bl in E2. subst. now rewrite Byte.byte_dec_lb in E1.
Qed.

Lemma sql_eq_sym a b : sql_eq a b = sql_eq b a.
Proof.
  destruct a, b; simpl; try reflexivity.
  - apply Z.eqb_sym.
  - apply String.eqb_sym.
  - apply bytes_eqb_sym.
  - now rewrite (Z.eqb_sym (sec t)), (Z.eqb_sym (nsec t)).
Qed.


Lemma find_table_put db name t t' :
  find_table db name = Some t -> find_table (put_table db name t') name = Some t'.
Proof.
  induction db as [|[n t0] db IH]; simpl; [discriminate|].
  destruct (String.eqb n name) eqn:E; simpl; rewrite E; auto.
Qed.

Lemma put_table_same db name t :
  find_table db name = Some t ->
  put_table db name (mkTable (tcols t) (tfks t) (trows t)) = db.
Proof.
  induction db as [|[n t0] db IH]; simpl; [discriminate|].
  destruct (String.eqb n name) eqn:E.
  - intros H; injection H as ->. destruct t; reflexivity.
  - intros H. now rewrite IH.
Qed.

(** Rows that the WHERE clause does not select are not rewritten. *)
Lemma map_unselected {A} (hit : A -> bool) (f : A -> A) (l : list A) :
  filter hit l = [] -> map (fun r => if hit r then f r else r) l = l.
Proof.
  induction l as [|x l IH]; simpl; [reflexivity|].
  destruct (hit x); [discriminate|]. intros H. now rewrite IH.
Qed.

Lemma content_id_column db t :
  table_of db "content" index.tableDefs t ->
  col_index (tcols t) "id" = Some O /\ key_columns (tcols t) O = [O].
Proof.
  intros H. destruct (content_table_cases _ _ H) as (_ & [C | C] & _);
    rewrite C; split; reflexivity.
Qed.

Lemma license_id_column db t :
  table_of db "license" license.tableDefs t ->
  col_index (tcols t) "id" = Some O /\ key_columns (tcols t) O = [O].
Proof.
  intros H. destruct (license_table_cases _ _ H) as (_ & [C | C] & _);
    rewrite C; split; reflexivity.
Qed.


Lemma row6 (r : row) : length r = 6%nat -> columns 6 r = r.
Proof.
  destruct r as [|a [|b [|c [|d [|e [|f [|g r]]]]]]]; simpl; try discriminate.
  reflexivity.
Qed.

Lemma row11 (r : row) : length r = 11%nat -> columns 11 r = r.
Proof.
  destruct r as [|a [|b [|c [|d [|e [|f [|g [|h [|i [|j [|k [|l r]]]]]]]]]]]];
    simpl; try discriminate.
  reflexivity.
Qed.

End Keys.

(** ** Get *)

Section Get.

(** What [Get] of the index returns once its query has returned [rows]. *)
Lemma index_Get_rows id w rows n :
  no_fault w ->
  run (index.get index_statements) [VStr id] (data w) = Ok (data w, rows, n) ->
  fst (index.Get index_statements id w)
  = match rows with
    | [] => (index.Content_zero, Some index.NotFound)
    | r :: _ => Scan index.dests r index.Content_zero
    end.
Proof.
  intros N R.
  destruct (Stmt_Query_run _ _ _ _ _ _ N R) as (h & w1 & Q & C & _).
  unfold index.Get. rewrite Q. destruct rows as [|r rows].
  - destruct (Rows_Next_end _ _ _ C) as (w2 & X & _). now rewrite X.
  - destruct (Rows_Next_more _ _ _ _ _ C) as (w2 & X & C2 & _). rewrite X. simpl.
    apply (Rows_Scan_current _ _ _ _ _ _ C2).
Qed.

(** What [Get] of the store returns once its query has returned [rows]. *)
Lemma license_Get_rows id w rows n :
  no_fault w ->
  run (license.get license_statements) [VStr id] (data w) = Ok (data w, rows, n) ->
  fst (license.Get license_statements id w)
  = match rows with
    | [] => (license.fresh_license, Some license.NotFound)
    | r :: _ =>
        match Scan license.dests r license.fresh_license with
        | (l, Some ErrNoRows) => (l, Some license.NotFound)
        | x => x
        end
    end.
Proof.
  intros N R. unfold license.Get.
  pose proof (Stmt_QueryRow_run _ _ _ _ _ _ N R) as Q.
  destruct (Stmt_QueryRow _ _ w) as [row w1]. simpl in Q. subst row.
  destruct rows as [|r rows]; [reflexivity|].
  destruct (Scan license.dests r license.fresh_license) as [l [[]|]]; reflexivity.
Qed.

(** C4: when no row has the id, and the driver does not fail the call,
    [Get] returns the not-found error of its package (with the empty
    record), for the index and for the store alike. *)
Theorem Get_of_unknown_id_is_NotFound :
  (forall (Database : string) (w0 w1 : World) (i : index.dbIndex),
      index.Open Database w0 = (Ok i, w1) ->
      forall (w : World) (t : table) (id : string),
        no_fault w ->
        table_of (data w) "content" index.tableDefs t ->
        matching t "id" (VStr id) = [] ->
        fst (index.Get i id w) = (index.Content_zero, Some index.NotFound)) /\
  (forall (Database : string) (w0 w1 : World) (s : license.sqlStore),
      license.NewSqlStore Database w0 = (Ok s, w1) ->
      forall (w : World) (t : table) (id : string),
        no_fault w ->
        table_of (data w) "license" license.tableDefs t ->
        matching t "id" (VStr id) = [] ->
        fst (license.Get s id w) = (license.fresh_license, Some license.NotFound)).
Proof.
  split.
  - intros Database w0 w1 i O w t id N T M.
    apply Open_ok in O. subst i.
    pose proof (run_get_content _ _ id T) as R. rewrite M in R.
    now rewrite (index_Get_rows _ _ _ _ N R).
  - intros Database w0 w1 s O w t id N T M.
    apply NewSqlStore_ok in O. destruct O as [_ ->].
    pose proof (run_get_license _ _ id T) as R. rewrite M in R.
    now rewrite (license_Get_rows _ _ _ _ N R).
Qed.

Lemma sample_content_table :
  table_of (data sample_world) "content" index.tableDefs
           (the_table sample_world "content").
Proof.
  split; [reflexivity|]. split.
  - exists index.tableDefPostgres. split; [right; left; reflexivity|].
    vm_compute. reflexivity.
  - repeat constructor.
Defined.

Lemma sample_license_table :
  table_of (data sample_world) "license" license.tableDefs
           (the_table sample_world "license").
Proof.
  split; [reflexivity|]. split.
  - exists license.tableDefPostgers. split; [right; left; reflexivity|].
    vm_compute. reflexivity.
  - repeat constructor.
Defined.

Lemma sample_index_opened :
  index.Open "postgres" empty_world
  = (Ok index_statements, snd (index.Open "postgres" empty_world)).
Proof. vm_compute. reflexivity. Qed.

Lemma sample_store_opened :
  license.NewSqlStore "postgres" (snd (index.Open "postgres" empty_world))
  = (Ok license_statements,
     snd (license.NewSqlStore "postgres" (snd (index.Open "postgres" empty_world)))).
Proof. vm_compute. reflexivity. Qed.

Lemma sample_no_fault : no_fault sample_world.
Proof. reflexivity. Qed.

(** Both at the sample database, where no record has the id "zz". *)
Lemma Get_of_unknown_id_witness :
  fst (index.Get index_statements "zz" sample_world)
  = (index.Content_zero, Some index.NotFound) /\
  fst (license.Get license_statements "zz" sample_world)
  = (license.fresh_license, Some license.NotFound).
Proof.
  destruct Get_of_unknown_id_is_NotFound as (HI & HL).
  split.
  - apply (HI _ _ _ _ sample_index_opened sample_world
              (the_table sample_world "content") "zz");
      [exact sample_no_fault | exact sample_content_table | vm_compute; reflexivity].
  - apply (HL _ _ _ _ sample_store_opened sample_world
              (the_table sample_world "license") "zz");
      [exact sample_no_fault | exact sample_license_table | vm_compute; reflexivity].
Defined.

End Get.

(** ** Add, then Get *)

Section RoundTrip.

Lemma table_of_insert db name defs t (r : row) :
  table_of db name defs t ->
  length r = length (tcols t) ->
  table_of (put_table db name (mkTable (tcols t) (tfks t) (trows t ++ [r])))
           name defs (mkTable (tcols t) (tfks t) (trows t ++ [r])).
Proof.
  intros (F & Q & L) R. split; [eapply find_table_put, F|]. split; [exact Q|].
  simpl. apply Forall_app. split; [exact L | now constructor].
Qed.





End RoundTrip.

(** ** The three updates *)

Section Updates.

Lemma matching_id db t id :
  table_of db "license" license.tableDefs t ->
  matching t "id" (VStr id) = filter (fun r => sql_eq (cell r 0) (VStr id)) (trows t).
Proof.
  intros T. unfold matching. destruct (license_id_column _ _ T) as (-> & _).
  reflexivity.
Qed.

(** An update that selects no row leaves the database as it is. *)
Lemma updated_by_nothing db t id sets :
  table_of db "license" license.tableDefs t ->
  matching t "id" (VStr id) = [] ->
  updated_by db t id sets = Ok (db, [], 0).
Proof.
  intros T M. unfold updated_by. rewrite M.
  rewrite (matching_id _ _ _ T) in M. rewrite (map_unselected _ _ _ M).
  destruct T as (F & _). now rewrite (put_table_same _ _ _ F).
Qed.

(** C5: with [n] the number of license rows that have the id of [l], and a
    driver that does not fail the call: [UpdateRights] returns the not-found
    error when [n] is zero and no error otherwise; [Update] and
    [UpdateLsdStatus] return no error when [n] is zero, and leave the
    database as it was. *)
Theorem updates_of_unknown_id :
  forall (Database : string) (w0 w1 : World) (s : license.sqlStore),
    license.NewSqlStore Database w0 = (Ok s, w1) ->
    forall (w : World) (t : table) (l : license.License.t) (r : license.UserRights.t),
      no_fault w ->
      table_of (data w) "license" license.tableDefs t ->
      license.License.Rights l = Some r ->
      let n := length (matching t "id" (VStr (license.License.Id l))) in
      (n = O -> fst (license.UpdateRights s l w) = license.Returns (Some license.NotFound)) /\
      (n <> O -> fst (license.UpdateRights s l w) = license.Returns None) /\
      (n = O ->
       fst (license.Update s l w) = license.Returns None /\
       data (snd (license.Update s l w)) = data w) /\
      (n = O ->
       forall status : Z,
         fst (license.UpdateLsdStatus s (license.License.Id l) status w) = None /\
         data (snd (license.UpdateLsdStatus s (license.License.Id l) status w)) = data w).
Proof.
  intros Database w0 w1 s O w t l r N T RI n.
  apply NewSqlStore_ok in O. destruct O as [_ ->].
  split; [|split; [|split]].
  - intros Z0. unfold license.UpdateRights. rewrite RI, (Stmt_Exec_run _ _ _ N).
    rewrite (run_updaterights_license _ _ _ _ _ _ _ _ T). unfold updated_by.
    fold n. rewrite Z0. reflexivity.
  - intros NZ. unfold license.UpdateRights. rewrite RI, (Stmt_Exec_run _ _ _ N).
    rewrite (run_updaterights_license _ _ _ _ _ _ _ _ T). unfold updated_by.
    fold n. destruct n; [congruence | reflexivity].
  - intros Z0. apply length_zero_iff_nil in Z0.
    unfold license.Update. rewrite RI, (Stmt_Exec_run _ _ _ N).
    rewrite (run_update_license _ _ _ _ _ _ _ _ _ _ _ T).
    rewrite (updated_by_nothing _ _ _ _ T Z0). simpl.
    split; reflexivity.
  - intros Z0 status. apply length_zero_iff_nil in Z0.
    unfold license.UpdateLsdStatus. rewrite (Stmt_Exec_run _ _ _ N).
    rewrite (run_updatelsdstatus_license _ _ _ _ T).
    rewrite (updated_by_nothing _ _ _ _ T Z0). simpl.
    split; reflexivity.
Qed.

(** On the sample database: the license "zz" does not exist, "b" does. *)
Lemma updates_of_unknown_id_witness :
  fst (license.UpdateRights license_statements (sample_license "zz" 5) sample_world)
  = license.Returns (Some license.NotFound) /\
  fst (license.UpdateRights license_statements (sample_license "b" 5) sample_world)
  = license.Returns None /\
  fst (license.Update license_statements (sample_license "zz" 5) sample_world)
  = license.Returns None /\
  data (snd (license.Update license_statements (sample_license "zz" 5) sample_world))
  = data sample_world /\
  fst (license.UpdateLsdStatus license_statements "zz" 1 sample_world) = None /\
  data (snd (license.UpdateLsdStatus license_statements "zz" 1 sample_world))
  = data sample_world.
Proof.
  pose proof (fun l r R =>
                updates_of_unknown_id _ _ _ _ sample_store_opened sample_world
                  (the_table sample_world "license") l r
                  sample_no_fault sample_license_table R) as U.
  destruct (U (sample_license "zz" 5) _ eq_refl) as (A & _ & B & C).
  destruct (U (sample_license "b" 5) _ eq_refl) as (_ & D & _).
  assert (Z0 : length (matching (the_table sample_world "license") "id" (VStr "zz")) = O)
    by (vm_compute; reflexivity).
  assert (NZ : length (matching (the_table sample_world "license") "id" (VStr "b")) <> O)
    by (vm_compute; discriminate).
  split; [exact (A Z0)|]. split; [exact (D NZ)|].
  split; [exact (proj1 (B Z0))|]. split; [exact (proj2 (B Z0))|].
  split; [exact (proj1 (C Z0 1)) | exact (proj2 (C Z0 1))].
Defined.

End Updates.

(** ** The last-updated column *)

Section LastUpdated.

(** The stamp is a whole second, in UTC: the second the clock is in. *)
Lemma stamp_whole_second (w : World) :
  nsec (license.stamp w) = 0 /\
  loc (license.stamp w) = UTC /\
  sec (license.stamp w) * Second
  <= sec (clock w) * Second + nsec (clock w)
  < (sec (license.stamp w) + 1) * Second.
Proof.
  unfold license.stamp, Time_Truncate, Time_UTC, Now, Second. simpl.
  set (T := sec (clock w) * 1000000000 + nsec (clock w)).
  pose proof (Z.div_mod T 1000000000 ltac:(lia)) as DM.
  pose proof (Z.mod_pos_bound T 1000000000 ltac:(lia)) as B.
  assert (E : T - T mod 1000000000 = (T / 1000000000) * 1000000000) by lia.
  rewrite E, Z.mod_mul, Z.div_mul by lia.
  split; [reflexivity|]. split; [reflexivity|]. lia.
Qed.

Ltac eleven r :=
  destruct r as [|? [|? [|? [|? [|? [|? [|? [|? [|? [|? [|? [|? ?]]]]]]]]]]]];
  try discriminate.

(** The rows an update rewrites, written out. *)
Lemma rewritten (hit : row -> bool) (g f : row -> row) (rows : list row) :
  Forall (fun r : row => length r = 11%nat) rows ->
  (forall r : row, length r = 11%nat -> g r = f r) ->
  map (fun r => if hit r then g r else r) rows
  = map (fun r => if hit r then f r else r) rows.
Proof.
  intros L E. apply map_ext_in. intros r I.
  rewrite Forall_forall in L. now rewrite (E r (L r I)).
Qed.

(** C6: [Add] inserts NULL in the [updated] column (the fifth), whatever
    [l.Updated] holds.  [Update] and [UpdateRights] write there, in every
    row that has the id, the stamp: the clock's time in UTC cut to the whole
    second.  [UpdateLsdStatus] rewrites the [lsd_status] column (the last)
    and nothing else, so no time at all. *)
Theorem last_updated_column :
  forall (Database : string) (w0 w1 : World) (s : license.sqlStore),
    license.NewSqlStore Database w0 = (Ok s, w1) ->
    forall (w : World) (t : table) (l : license.License.t) (r : license.UserRights.t),
      table_of (data w) "license" license.tableDefs t ->
      license.License.Rights l = Some r ->
      let id := license.License.Id l in
      let uid := VStr (license.UserInfo.Id (license.License.User l)) in
      let prov := VStr (license.License.Provider l) in
      let cid := VStr (license.License.ContentId l) in
      let p := license.arg_int32 (license.UserRights.Print r) in
      let c := license.arg_int32 (license.UserRights.Copy r) in
      let st := license.arg_time (license.UserRights.Start r) in
      let en := license.arg_time (license.UserRights.End_ r) in
      let hit := fun x : row => sql_eq (cell x 0) (VStr id) in
      let now := VTime (license.stamp w) in
      (forall w',
          license.Add s l w = (license.Returns None, w') ->
          find_table (data w') "license"
          = Some (mkTable (tcols t) (tfks t)
                    (trows t ++
                     [[VStr id; uid; prov; VTime (license.License.Issued l); VNull;
                       p; c; st; en; cid; VInt 0]]))) /\
      (no_fault w ->
       find_table (data (snd (license.Update s l w))) "license"
       = Some (mkTable (tcols t) (tfks t)
                 (map (fun x => if hit x
                                then [cell x 0; uid; prov; cell x 3; now;
                                      p; c; st; en; cid; cell x 10]
                                else x) (trows t)))) /\
      (no_fault w ->
       find_table (data (snd (license.UpdateRights s l w))) "license"
       = Some (mkTable (tcols t) (tfks t)
                 (map (fun x => if hit x
                                then [cell x 0; cell x 1; cell x 2; cell x 3; now;
                                      p; c; st; en; cell x 9; cell x 10]
                                else x) (trows t)))) /\
      (no_fault w ->
       forall status : Z,
         find_table (data (snd (license.UpdateLsdStatus s id status w))) "license"
         = Some (mkTable (tcols t) (tfks t)
                   (map (fun x => if hit x
                                  then [cell x 0; cell x 1; cell x 2; cell x 3; cell x 4;
                                        cell x 5; cell x 6; cell x 7; cell x 8; cell x 9;
                                        VInt status]
                                  else x) (trows t)))) /\
      nsec (license.stamp w) = 0 /\
      loc (license.stamp w) = UTC /\
      sec (license.stamp w) * Second
      <= sec (clock w) * Second + nsec (clock w)
      < (sec (license.stamp w) + 1) * Second.
Proof.
  intros Database w0 w1 s O w t l r T RI id uid prov cid p c st en hit now.
  apply NewSqlStore_ok in O. destruct O as [_ ->].
  destruct (license_table_cases _ _ T) as (F & _ & L).
  split; [|split; [|split; [|split]]].
  - intros w' A. unfold license.Add in A. rewrite RI in A.
    unfold license.returns_err in A.
    destruct (Stmt_Exec _ _ w) as [[n | e] w2] eqn:E; [|discriminate].
    injection A as ->.
    destruct (Stmt_Exec_ok _ _ _ _ _ E) as (rows & R & _).
    rewrite (run_add_license _ _ _ _ _ _ _ _ _ _ _ _ T) in R.
    destruct (duplicates_key _ _ _); [discriminate|].
    injection R as R _ _. rewrite <- R. eapply find_table_put, F.
  - intros N. unfold license.Update. rewrite RI, (Stmt_Exec_run _ _ _ N).
    rewrite (run_update_license _ _ _ _ _ _ _ _ _ _ _ T). unfold updated_by. simpl.
    rewrite (find_table_put _ _ _ _ F). do 2 f_equal.
    apply rewritten; [exact L|]. intros x X. eleven x. reflexivity.
  - intros N. unfold license.UpdateRights. rewrite RI, (Stmt_Exec_run _ _ _ N).
    rewrite (run_updaterights_license _ _ _ _ _ _ _ _ T). unfold updated_by.
    assert (E : forall b (x y : license.outcome (option error) * World),
               data (snd x) = data (snd y) ->
               data (snd (if b : bool then x else y)) = data (snd x))
      by (intros [] x y E; [reflexivity | now rewrite E]).
    rewrite E by reflexivity. simpl.
    rewrite (find_table_put _ _ _ _ F). do 2 f_equal.
    apply rewritten; [exact L|]. intros x X. eleven x. reflexivity.
  - intros N status. unfold license.UpdateLsdStatus. rewrite (Stmt_Exec_run _ _ _ N).
    rewrite (run_updatelsdstatus_license _ _ _ _ T). unfold updated_by. simpl.
    rewrite (find_table_put _ _ _ _ F). do 2 f_equal.
    apply rewritten; [exact L|]. intros x X. eleven x. reflexivity.
  - apply stamp_whole_second.
Qed.

Lemma sample_license_added :
  license.Add license_statements (sample_license "d" 40) sample_world
  = (license.Returns None,
     snd (license.Add license_statements (sample_license "d" 40) sample_world)).
Proof. vm_compute. reflexivity. Qed.

(** On the sample database, whose clock is a quarter of a second past
    1514764800, local time: the [updated] column after each operation. *)
Lemma last_updated_witness :
  let wa := snd (license.Add license_statements (sample_license "d" 40) sample_world) in
  let wu := snd (license.Update license_statements (sample_license "b" 99) sample_world) in
  let wr :=
    snd (license.UpdateRights license_statements (sample_license "b" 99) sample_world) in
  let ws := snd (license.UpdateLsdStatus license_statements "b" 1 sample_world) in
  let updated := fun w => map (fun x => cell x 4) (trows (the_table w "license")) in
  license.License.Updated (sample_license "d" 40) = Some (sample_time 77) /\
  updated wa = [VNull; VNull; VNull; VNull] /\
  updated wu = [VNull; VTime (mkTime 1514764800 0 UTC); VNull] /\
  updated wr = [VNull; VTime (mkTime 1514764800 0 UTC); VNull] /\
  updated ws = [VNull; VNull; VNull].
Proof.
  intros wa wu wr ws updated.
  destruct (last_updated_column _ _ _ _ sample_store_opened sample_world
              (the_table sample_world "license") (sample_license "d" 40) _
              sample_license_table eq_refl) as (A & _).
  destruct (last_updated_column _ _ _ _ sample_store_opened sample_world
              (the_table sample_world "license") (sample_license "b" 99) _
              sample_license_table eq_refl) as (_ & U & R & S & _).
  split; [reflexivity|].
  unfold updated, the_table, wa, wu, wr, ws.
  pose proof (S sample_no_fault 1) as S1.
  change (license.License.Id (sample_license "b" 99)) with "b" in S1.
  rewrite (A _ sample_license_added), (U sample_no_fault), (R sample_no_fault), S1.
  repeat split; vm_compute; reflexivity.
Defined.

End LastUpdated.

(** ** Pages *)

Section Pages.

Lemma bytes_compare_antisym a b : bytes_compare b a = CompOpp (bytes_compare a b).
Proof.
  revert b. induction a as [|x a IH]; intros [|y b]; simpl; try reflexivity.
  rewrite (N.compare_antisym (Byte.to_N x) (Byte.to_N y)).
  destruct (N.compare (Byte.to_N x) (Byte.to_N y)); simpl; auto.
Qed.

Lemma value_compare_antisym a b : value_compare b a = CompOpp (value_compare a b).
Proof.
  destruct a, b; simpl; try reflexivity.
  - apply Z.compare_antisym.
  - apply String.compare_antisym.
  - apply bytes_compare_antisym.
  - rewrite (Z.compare_antisym (sec t) (sec t0)), (Z.compare_antisym (nsec t) (nsec t0)).
    destruct (sec t ?= sec t0); reflexivity.
Qed.

Lemma value_ltb_asym a b : value_ltb a b = true -> value_ltb b a = false.
Proof.
  unfold value_ltb. rewrite (value_compare_antisym a b).
  destruct (value_compare a b); simpl; congruence.
Qed.

Lemma insert_desc_perm k x l : Permutation (insert_desc k x l) (x :: l).
Proof.
  induction l as [|y l IH]; simpl; [reflexivity|].
  destruct (value_ltb (cell x k) (cell y k)); [|reflexivity].
  rewrite IH. apply perm_swap.
Qed.

Lemma sort_desc_perm k l : Permutation (sort_desc k l) l.
Proof.
  induction l as [|x l IH]; simpl; [reflexivity|].
  unfold sort_desc in *. simpl. rewrite insert_desc_perm. now constructor.
Qed.

Lemma insert_desc_sorted k x l : descending k l -> descending k (insert_desc k x l).
Proof.
  unfold descending. induction l as [|y l IH]; simpl; intros S.
  - repeat constructor.
  - destruct (value_ltb (cell x k) (cell y k)) eqn:E.
    + inversion S as [|? ? S' H]; subst. constructor; [now apply IH|].
      destruct l as [|z l]; simpl.
      * constructor. now apply value_ltb_asym.
      * destruct (value_ltb (cell x k) (cell z k)).
        -- inversion H; subst. now constructor.
        -- constructor. now apply value_ltb_asym.
    + constructor; [exact S | now constructor].
Qed.

Lemma sort_desc_sorted k l : descending k (sort_desc k l).
Proof.
  induction l as [|x l IH]; simpl.
  - constructor.
  - unfold sort_desc in *. simpl. now apply insert_desc_sorted.
Qed.

Lemma int_mul_exact a b :
  - 2 ^ 63 <= a * b < 2 ^ 63 -> int_mul a b = a * b.
Proof.
  intros H. unfold int_mul, wrap64.
  rewrite Z.mod_small; lia.
Qed.

Lemma Stmt_Query_trace s args w :
  trace (snd (Stmt_Query s args w)) = (trace w ++ [EvStmtQuery s args])%list.
Proof.
  unfold Stmt_Query.
  pose proof (called_trace (EvStmtQuery s args) w) as T. unfold called in T.
  destruct (next_fault (record _ w)) as [f w1]. simpl in T.
  destruct f; [exact T|].
  destruct (run s args (data w1)) as [[[d r] n]|]; [|exact T].
  simpl. exact T.
Qed.

Lemma calls_of_one {A} (m : World -> A * World) w e :
  trace (snd (m w)) = (trace w ++ [e])%list -> calls_of m w = [e].
Proof.
  intros T. unfold calls_of. rewrite T, skipn_app, skipn_all, Nat.sub_diag.
  reflexivity.
Qed.

Lemma ListAll_cursor w t page pageNum :
  no_fault w ->
  table_of (data w) "license" license.tableDefs t ->
  0 <= page -> 0 <= int_mul pageNum page ->
  exists h w',
    license.ListAll license_statements page pageNum w = (license.Cursor h None, w') /\
    nth_error (cursors w') h
    = Some (mkCursor (page_of page (int_mul pageNum page) (sort_desc 3 (trows t)))
                     None false).
Proof.
  intros N T P O.
  destruct (Stmt_Query_run _ _ _ _ _ _ N (run_listall_license _ _ _ _ T P O))
    as (h & w' & Q & C & _).
  exists h, w'. unfold license.ListAll. rewrite Q. split; [reflexivity | exact C].
Qed.

Lemma List_cursor w t contentID page pageNum :
  no_fault w ->
  table_of (data w) "license" license.tableDefs t ->
  0 <= page -> 0 <= int_mul pageNum page ->
  exists h w',
    license.List license_statements contentID page pageNum w
    = (license.Cursor h None, w') /\
    nth_error (cursors w') h
    = Some (mkCursor (page_of page (int_mul pageNum page)
                              (matching t "content_fk" (VStr contentID)))
                     None false).
Proof.
  intros N T P O.
  destruct (Stmt_Query_run _ _ _ _ _ _ N (run_list_license _ _ contentID _ _ T P O))
    as (h & w' & Q & C & _).
  exists h, w'. unfold license.List. rewrite Q. split; [reflexivity | exact C].
Qed.

Lemma page_of_length page offset rows :
  (length (page_of page offset rows) <= Z.to_nat page)%nat.
Proof. unfold page_of. rewrite length_map. apply firstn_le_length. Qed.

(** With a page of ten: page 0 is the first ten rows in descending order of
    [issued], page 1 the ten that follow. *)
Lemma ListAll_pages_of_ten w t :
  no_fault w ->
  table_of (data w) "license" license.tableDefs t ->
  (exists h w',
      license.ListAll license_statements 10 0 w = (license.Cursor h None, w') /\
      nth_error (cursors w') h
      = Some (mkCursor (map (columns 10) (firstn 10 (sort_desc 3 (trows t))))
                       None false)) /\
  (exists h w',
      license.ListAll license_statements 10 1 w = (license.Cursor h None, w') /\
      nth_error (cursors w') h
      = Some (mkCursor (map (columns 10) (firstn 10 (skipn 10 (sort_desc 3 (trows t)))))
                       None false)).
Proof.
  intros N T. split.
  - apply (ListAll_cursor w t 10 0 N T); vm_compute; discriminate.
  - apply (ListAll_cursor w t 10 1 N T); vm_compute; discriminate.
Qed.

(** C3: in the statement of [ListAll] the LIMIT is the first parameter and
    the OFFSET the second, in that of [List] the second and the third, and
    both functions bind [page] to the LIMIT and [pageNum * page] to the
    OFFSET, the product being that of Go's [int] (the product of the
    integers whenever it fits in 64 bits).  So, when neither is negative
    and the driver does not fail the call, the cursor of [ListAll] is over
    the rows of the table in descending order of [issued], [offset] of them
    skipped and at most [page] taken; that of [List] over the rows of the
    content id, in the order of the table, cut in the same way.  With a page
    of 10, page 0 is the ten most recently issued and page 1 the next
    ten. *)
Theorem pagination :
  forall (Database : string) (w0 w1 : World) (s : license.sqlStore),
    license.NewSqlStore Database w0 = (Ok s, w1) ->
    license.listall s
    = Select license_columns "license" None (Some "issued")
             (Some (OParam 1)) (Some (OParam 2)) /\
    license.list_ s
    = Select license_columns "license" (Some ("content_fk", OParam 1)) None
             (Some (OParam 2)) (Some (OParam 3)) /\
    forall (w : World) (page pageNum : Z) (contentID : string),
      let offset := int_mul pageNum page in
      calls_of (license.ListAll s page pageNum) w
      = [EvStmtQuery (license.listall s) [VInt page; VInt offset]] /\
      calls_of (license.List s contentID page pageNum) w
      = [EvStmtQuery (license.list_ s) [VStr contentID; VInt page; VInt offset]] /\
      (- 2 ^ 63 <= pageNum * page < 2 ^ 63 -> offset = pageNum * page) /\
      forall t : table,
        no_fault w ->
        table_of (data w) "license" license.tableDefs t ->
        0 <= page -> 0 <= offset ->
        let sorted := sort_desc 3 (trows t) in
        Permutation sorted (trows t) /\
        descending 3 sorted /\
        (length (page_of page offset sorted) <= Z.to_nat page)%nat /\
        (exists h w',
            license.ListAll s page pageNum w = (license.Cursor h None, w') /\
            nth_error (cursors w') h
            = Some (mkCursor (page_of page offset sorted) None false)) /\
        (exists h w',
            license.List s contentID page pageNum w = (license.Cursor h None, w') /\
            nth_error (cursors w') h
            = Some (mkCursor (page_of page offset
                                      (matching t "content_fk" (VStr contentID)))
                             None false)).
Proof.
  intros Database w0 w1 s O.
  apply NewSqlStore_ok in O. destruct O as [_ ->].
  split; [reflexivity|]. split; [reflexivity|].
  intros w page pageNum contentID offset.
  split; [|split; [|split]].
  - apply calls_of_one. unfold license.ListAll.
    pose proof (Stmt_Query_trace (license.listall license_statements)
                  [VInt page; VInt offset] w) as T.
    fold offset. destruct (Stmt_Query _ _ w) as [[h | e] w']; exact T.
  - apply calls_of_one. unfold license.List.
    pose proof (Stmt_Query_trace (license.list_ license_statements)
                  [VStr contentID; VInt page; VInt offset] w) as T.
    fold offset. destruct (Stmt_Query _ _ w) as [[h | e] w']; exact T.
  - apply int_mul_exact.
  - intros t N T P F sorted.
    split; [apply sort_desc_perm|]. split; [apply sort_desc_sorted|].
    split; [apply page_of_length|].
    split; [now apply ListAll_cursor | now apply List_cursor].
Qed.

(** Pages of two over the three licenses of the sample database, issued at
    10 ("a"), 30 ("b") and 20 ("c"): page 0 is "b" then "c", page 1 is "a";
    all three are of the content "c1", and page 1 of its list is "c". *)
Lemma pagination_witness :
  let ids := fun (w : World) (h : nat) =>
               option_map (fun c => map (fun r => cell r 0) (pending c))
                          (nth_error (cursors w) h) in
  calls_of (license.ListAll license_statements 2 1) sample_world
  = [EvStmtQuery (license.listall license_statements) [VInt 2; VInt 2]] /\
  (exists h w',
      license.ListAll license_statements 2 0 sample_world = (license.Cursor h None, w') /\
      ids w' h = Some [VStr "b"; VStr "c"]) /\
  (exists h w',
      license.ListAll license_statements 2 1 sample_world = (license.Cursor h None, w') /\
      ids w' h = Some [VStr "a"]) /\
  (exists h w',
      license.List license_statements "c1" 2 1 sample_world
      = (license.Cursor h None, w') /\
      ids w' h = Some [VStr "c"]).
Proof.
  intros ids.
  destruct (pagination _ _ _ _ sample_store_opened) as (_ & _ & P).
  assert (Z2 : 0 <= 2) by (vm_compute; discriminate).
  assert (O0 : 0 <= int_mul 0 2) by (vm_compute; discriminate).
  assert (O1 : 0 <= int_mul 1 2) by (vm_compute; discriminate).
  destruct (P sample_world 2 0 "c1") as (_ & _ & _ & Q0).
  destruct (P sample_world 2 1 "c1") as (C1 & _ & _ & Q1).
  destruct (Q0 _ sample_no_fault sample_license_table Z2 O0)
    as (_ & _ & _ & (h0 & w0 & E0 & K0) & _).
  destruct (Q1 _ sample_no_fault sample_license_table Z2 O1)
    as (_ & _ & _ & (h1 & w1 & E1 & K1) & (h2 & w2 & E2 & K2)).
  split; [exact C1|].
  split; [|split].
  - exists h0, w0. split; [exact E0|]. unfold ids. rewrite K0. vm_compute. reflexivity.
  - exists h1, w1. split; [exact E1|]. unfold ids. rewrite K1. vm_compute. reflexivity.
  - exists h2, w2. split; [exact E2|]. unfold ids. rewrite K2. vm_compute. reflexivity.
Defined.

End Pages.


(** * Further properties of the index and the store *)

(** ** A driver that does not fail *)

Section Healthy.

Lemma healthy_no_fault w : healthy w -> no_fault w.
Proof. unfold healthy, no_fault, next_fault. now intros ->. Qed.

Lemma healthy_called e w : healthy w -> called e w = record e w.
Proof. unfold healthy, called, next_fault, record. simpl. now intros ->. Qed.

Lemma healthy_record e w : healthy w -> healthy (record e w).
Proof. exact (fun H => H). Qed.

Lemma healthy_set_data w d : healthy w -> healthy (set_data w d).
Proof. exact (fun H => H). Qed.

(** [db.Exec] on a healthy handle. *)
Lemma Exec_healthy q args w :
  healthy w ->
  Exec q args w
  = match parse q with
    | None => (Fail syntax_error, record (EvExec q args) w)
    | Some s =>
        match run s args (data w) with
        | Fail e => (Fail e, record (EvExec q args) w)
        | Ok (d, _, n) => (Ok n, set_data (record (EvExec q args) w) d)
        end
    end.
Proof.
  intros H. unfold Exec.
  rewrite (no_fault_called _ _ (healthy_no_fault _ H)), (healthy_called _ _ H).
  reflexivity.
Qed.

Lemma Exec_healthy_after q args w : healthy w -> healthy (snd (Exec q args w)).
Proof.
  intros H. rewrite (Exec_healthy _ _ _ H).
  destruct (parse q); [|exact H].
  destruct (run s args (data w)) as [[[d r] n]|]; exact H.
Qed.

(** [db.Prepare] on a healthy handle, of a text that is a statement the
    database accepts. *)
Lemma Prepare_healthy q s w :
  healthy w -> parse q = Some s -> check s (data w) = None ->
  Prepare q w = (Ok s, record (EvPrepare q) w).
Proof.
  intros H P C. unfold Prepare.
  rewrite (no_fault_called _ _ (healthy_no_fault _ H)), (healthy_called _ _ H), P.
  simpl. now rewrite C.
Qed.

Lemma Stmt_Exec_healthy s args w :
  healthy w ->
  Stmt_Exec s args w
  = match run s args (data w) with
    | Fail e => (Fail e, record (EvStmtExec s args) w)
    | Ok (d, _, n) => (Ok n, set_data (record (EvStmtExec s args) w) d)
    end.
Proof.
  intros H. rewrite (Stmt_Exec_run _ _ _ (healthy_no_fault _ H)), (healthy_called _ _ H).
  reflexivity.
Qed.

End Healthy.

(** ** A driver that fails *)

Section Faults.

Lemma next_fault_fails ev w msg rest :
  faults w = Some msg :: rest ->
  next_fault (record ev w) = (Some (ErrDriver msg), failed_call ev w).
Proof. intros F. unfold next_fault, record, failed_call. simpl. now rewrite F. Qed.

Lemma Stmt_Exec_fault s args w msg rest :
  faults w = Some msg :: rest ->
  Stmt_Exec s args w = (Fail (ErrDriver msg), failed_call (EvStmtExec s args) w).
Proof. intros F. unfold Stmt_Exec. now rewrite (next_fault_fails _ _ _ _ F). Qed.

Lemma Stmt_Query_fault s args w msg rest :
  faults w = Some msg :: rest ->
  Stmt_Query s args w = (Fail (ErrDriver msg), failed_call (EvStmtQuery s args) w).
Proof. intros F. unfold Stmt_Query. now rewrite (next_fault_fails _ _ _ _ F). Qed.

Lemma Stmt_QueryRow_fault s args w msg rest :
  faults w = Some msg :: rest ->
  Stmt_QueryRow s args w = (Fail (ErrDriver msg), failed_call (EvStmtQuery s args) w).
Proof. intros F. unfold Stmt_QueryRow. now rewrite (next_fault_fails _ _ _ _ F). Qed.

(** X1: whatever the index or the store holds, when the driver fails the
    call with an error, each operation returns that very error (and, for
    the two [Get], the empty record), opens no cursor and leaves the
    database as it was.  [UpdateRights] in particular returns the driver's
    error, not the not-found error. *)
Theorem driver_error_is_returned_unchanged :
  forall (i : index.dbIndex) (s : license.sqlStore) (w : World)
         (msg : string) (rest : list (option string))
         (c : index.Content) (l : license.License.t) (r : license.UserRights.t)
         (id : string) (status : Z),
    faults w = Some msg :: rest ->
    license.License.Rights l = Some r ->
    let e := ErrDriver msg in
    (fst (index.Get i id w) = (index.Content_zero, Some e) /\
     leaves w (snd (index.Get i id w))) /\
    (fst (index.Add i c w) = Some e /\ leaves w (snd (index.Add i c w))) /\
    (fst (index.Update i c w) = Some e /\ leaves w (snd (index.Update i c w))) /\
    (fst (license.Get s id w) = (license.fresh_license, Some e) /\
     leaves w (snd (license.Get s id w))) /\
    (fst (license.Add s l w) = license.Returns (Some e) /\
     leaves w (snd (license.Add s l w))) /\
    (fst (license.Update s l w) = license.Returns (Some e) /\
     leaves w (snd (license.Update s l w))) /\
    (fst (license.UpdateRights s l w) = license.Returns (Some e) /\
     leaves w (snd (license.UpdateRights s l w))) /\
    (fst (license.UpdateLsdStatus s id status w) = Some e /\
     leaves w (snd (license.UpdateLsdStatus s id status w))).
Proof.
  intros i s w msg rest c l r id status F RI e.
  unfold index.Get, index.Add, index.Update, index.err_of, license.Get,
    license.Add, license.Update, license.UpdateRights, license.UpdateLsdStatus,
    license.returns_err.
  rewrite RI.
  rewrite !(Stmt_Exec_fault _ _ _ _ _ F), (Stmt_Query_fault _ _ _ _ _ F),
    (Stmt_QueryRow_fault _ _ _ _ _ F).
  unfold leaves. simpl. repeat split.
Qed.

Lemma driver_error_witness :
  let e := ErrDriver "connection refused" in
  fst (index.Get index_statements "c1" broken_world) = (index.Content_zero, Some e) /\
  fst (license.UpdateRights license_statements (sample_license "a" 10) broken_world)
  = license.Returns (Some e) /\
  fst (license.Get license_statements "a" broken_world)
  = (license.fresh_license, Some e).
Proof.
  intros e.
  destruct (driver_error_is_returned_unchanged index_statements license_statements
              broken_world "connection refused" [] sample_content
              (sample_license "a" 10) _ "c1" 0 eq_refl eq_refl)
    as ((G & _) & _ & _ & _ & _ & _ & (U & _) & _).
  destruct (driver_error_is_returned_unchanged index_statements license_statements
              broken_world "connection refused" [] sample_content
              (sample_license "a" 10) _ "a" 0 eq_refl eq_refl)
    as (_ & _ & _ & (L & _) & _).
  split; [exact G|]. split; [exact U | exact L].
Defined.

End Faults.

(** ** Cells and filters *)

Section Cells.

Lemma cell_set_cell_other (r : row) i j v :
  i <> j -> cell (set_cell r i v) j = cell r j.
Proof.
  unfold cell. revert i j. induction r as [|x r IH]; intros [|i] [|j] N; simpl;
    try reflexivity; try congruence.
  apply IH. congruence.
Qed.

Lemma set_cell_length (r : row) i v : length (set_cell r i v) = length r.
Proof.
  revert i. induction r as [|x r IH]; intros [|i]; simpl; try reflexivity.
  now rewrite IH.
Qed.

Lemma sql_eq_VStr_inv v s : sql_eq v (VStr s) = true -> v = VStr s.
Proof.
  destruct v; simpl; try discriminate.
  intros E. apply String.eqb_eq in E. now subst.
Qed.

(** Rewriting the selected rows outside the column a filter looks at
    commutes with the filter. *)
Lemma filter_map_commute {A} (hit : A -> bool) (h : A -> A) (l : list A) :
  (forall x, hit (h x) = hit x) ->
  filter hit (map h l) = map h (filter hit l).
Proof.
  intros H. induction l as [|x l IH]; simpl; [reflexivity|].
  rewrite H. destruct (hit x); simpl; now rewrite IH.
Qed.

Lemma map_selected {A} (hit : A -> bool) (g : A -> A) (l : list A) :
  map (fun x => if hit x then g x else x) (filter hit l) = map g (filter hit l).
Proof.
  apply map_ext_in. intros x I. apply filter_In in I. destruct I as [_ ->].
  reflexivity.
Qed.

Lemma map_not_selected {A} (hit hit' : A -> bool) (g : A -> A) (l : list A) :
  (forall x, hit' x = true -> hit x = false) ->
  map (fun x => if hit x then g x else x) (filter hit' l) = filter hit' l.
Proof.
  intros H. rewrite <- (map_id (filter hit' l)) at 2.
  apply map_ext_in. intros x I. apply filter_In in I. destruct I as [_ E].
  now rewrite (H x E).
Qed.

(** A change to the record [id] keeps the rows of any other id. *)
Lemma touches_only_other id id' t t' :
  col_index (tcols t) "id" = Some O ->
  touches_only id t t' -> id' <> id ->
  matching t' "id" (VStr id') = matching t "id" (VStr id').
Proof.
  intros C (TC & [R | [(r & R & I) | (g & G & R)]]) N;
    unfold matching; rewrite TC, C, R.
  - reflexivity.
  - rewrite filter_app. simpl. rewrite I. simpl.
    destruct (String.eqb id id') eqn:E; [apply String.eqb_eq in E; congruence|].
    apply app_nil_r.
  - rewrite filter_map_commute.
    + apply map_not_selected. intros x E. apply sql_eq_VStr_inv in E. rewrite E.
      simpl. apply String.eqb_neq. exact N.
    + intros x. destruct (sql_eq (cell x 0) (VStr id)); [now rewrite G | reflexivity].
Qed.

(** The rows of the record itself after they were rewritten. *)
Lemma matching_rewritten t (g : row -> row) id :
  col_index (tcols t) "id" = Some O ->
  (forall r, cell (g r) 0 = cell r 0) ->
  matching (mkTable (tcols t) (tfks t)
              (map (fun r => if sql_eq (cell r 0) (VStr id) then g r else r) (trows t)))
           "id" (VStr id)
  = map g (matching t "id" (VStr id)).
Proof.
  intros C G. unfold matching. simpl. rewrite C.
  rewrite filter_map_commute.
  - apply map_selected.
  - intros x. destruct (sql_eq (cell x 0) (VStr id)) eqn:E; [now rewrite G | exact E].
Qed.

End Cells.

(** ** What the statements of the index do *)

Section ContentStatements.

Ltac evaluate H :=
  let F := fresh "F" in
  let C := fresh "C" in
  first [ destruct (content_table_cases _ _ H) as (F & C & _)
        | destruct (license_table_cases _ _ H) as (F & C & _) ];
  cbv [index_statements license_statements index.get index.add index.update
       index.list_ license.listall license.list_ license.updaterights license.add
       license.update license.updatelsdstatus license.get matching run select_rows
       content_columns license_columns];
  rewrite F; cbv beta iota; destruct C as [C | C]; rewrite C;
  vm_compute columns_of.

Lemma run_update_content db t id key loc len sha ty :
  table_of db "content" index.tableDefs t ->
  run (index.update index_statements)
      [VBytes key; VStr loc; VInt len; VStr sha; VStr ty; VStr id] db
  = Ok (put_table db "content"
          (mkTable (tcols t) (tfks t)
             (map (fun r => if sql_eq (cell r 0) (VStr id)
                            then apply_sets [(1, VBytes key); (2, VStr loc);
                                             (3, VInt len); (4, VStr sha);
                                             (5, VStr ty)]%nat r
                            else r) (trows t))),
        [], Z.of_nat (length (matching t "id" (VStr id)))).
Proof. intros H. evaluate H; reflexivity. Qed.

(** A nil key is bound as NULL, which the column refuses as soon as a row
    is to be rewritten. *)
Lemma run_update_content_nil db t id loc len sha ty :
  table_of db "content" index.tableDefs t ->
  run (index.update index_statements)
      [VNull; VStr loc; VInt len; VStr sha; VStr ty; VStr id] db
  = if (0 <? length (matching t "id" (VStr id)))%nat
    then Fail (ErrDriver "NOT NULL constraint failed")
    else Ok (put_table db "content"
               (mkTable (tcols t) (tfks t)
                  (map (fun r => if sql_eq (cell r 0) (VStr id)
                                 then apply_sets [(1, VNull); (2, VStr loc);
                                                  (3, VInt len); (4, VStr sha);
                                                  (5, VStr ty)]%nat r
                                 else r) (trows t))),
             [], Z.of_nat (length (matching t "id" (VStr id)))).
Proof. intros H. evaluate H; reflexivity. Qed.

(** [Add] and [Update] of the index on the row of a record. *)
Lemma run_add_content_row db t c :
  table_of db "content" index.tableDefs t ->
  run (index.add index_statements) (content_row c) db
  = match index.EncryptionKey c with
    | None => Fail (ErrDriver "NOT NULL constraint failed")
    | Some _ =>
        if duplicates_key (tcols t) (content_row c) (trows t)
        then Fail (ErrDriver "UNIQUE constraint failed")
        else Ok (put_table db "content"
                   (mkTable (tcols t) (tfks t) (trows t ++ [content_row c])),
                 [], 1)
    end.
Proof.
  intros T. unfold content_row.
  destruct (index.EncryptionKey c); cbn [index.arg_bytes].
  - exact (run_add_content _ _ _ _ _ _ _ _ T).
  - exact (run_add_content_nil _ _ _ _ _ _ _ T).
Qed.

Lemma run_update_content_row db t c :
  table_of db "content" index.tableDefs t ->
  run (index.update index_statements)
      [index.arg_bytes (index.EncryptionKey c); VStr (index.Location c);
       VInt (index.Length c); VStr (index.Sha256 c); VStr (index.Type_ c);
       VStr (index.Id c)] db
  = match index.EncryptionKey c, matching t "id" (VStr (index.Id c)) with
    | None, _ :: _ => Fail (ErrDriver "NOT NULL constraint failed")
    | _, m => Ok (put_table db "content" (content_updated t c), [], Z.of_nat (length m))
    end.
Proof.
  intros T. unfold content_updated, content_sets.
  destruct (index.EncryptionKey c); cbn [index.arg_bytes].
  - rewrite (run_update_content _ _ _ _ _ _ _ _ T).
    destruct (matching t "id" (VStr (index.Id c))); reflexivity.
  - rewrite (run_update_content_nil _ _ _ _ _ _ _ T).
    destruct (matching t "id" (VStr (index.Id c))); reflexivity.
Qed.

Lemma run_list_content db t :
  table_of db "content" index.tableDefs t ->
  run (index.list_ index_statements) [] db = Ok (db, map (columns 6) (trows t), 0).
Proof. intros H. evaluate H; reflexivity. Qed.

Lemma apply_sets_cell sets (r : row) j :
  forallb (fun iv : nat * value => negb (fst iv =? j)%nat) sets = true ->
  cell (apply_sets sets r) j = cell r j.
Proof.
  unfold apply_sets. revert r. induction sets as [|[i v] sets IH]; intros r H; simpl in *.
  - reflexivity.
  - apply andb_prop in H. destruct H as [N H]. rewrite (IH _ H).
    apply cell_set_cell_other. apply negb_true_iff, Nat.eqb_neq in N. exact N.
Qed.

Lemma apply_sets_length sets (r : row) : length (apply_sets sets r) = length r.
Proof.
  unfold apply_sets. revert r. induction sets as [|[i v] sets IH]; intros r; simpl.
  - reflexivity.
  - now rewrite IH, set_cell_length.
Qed.

(** A table with the same columns and rows of the same lengths takes the
    place of the one it replaces. *)
Lemma table_of_put db name defs t rows :
  table_of db name defs t ->
  Forall (fun r : row => length r = length (tcols t)) rows ->
  table_of (put_table db name (mkTable (tcols t) (tfks t) rows)) name defs
           (mkTable (tcols t) (tfks t) rows).
Proof.
  intros (F & Q & _) L. split; [eapply find_table_put, F|]. split; [exact Q | exact L].
Qed.

Lemma Forall_rewritten (P : row -> Prop) (hit : row -> bool) (g : row -> row) rows :
  Forall P rows -> (forall r, P r -> P (g r)) ->
  Forall P (map (fun r => if hit r then g r else r) rows).
Proof.
  intros L G. induction L as [|r rows Pr L IH]; simpl; constructor; [|exact IH].
  destruct (hit r); auto.
Qed.

(** Whether the key of a new row is taken, in terms of the rows that have
    its id. *)
Lemma duplicates_key_matching t (r : row) id :
  col_index (tcols t) "id" = Some O ->
  key_columns (tcols t) O = [O] ->
  cell r 0 = VStr id ->
  duplicates_key (tcols t) r (trows t)
  = match matching t "id" (VStr id) with [] => false | _ => true end.
Proof.
  intros C K I. unfold duplicates_key, same_key, matching. rewrite C, K.
  cbn [existsb]. rewrite I.
  induction (trows t) as [|old rows IH]; cbn [existsb filter]; [reflexivity|].
  rewrite orb_false_r, (sql_eq_sym (VStr id)).
  destruct (sql_eq (cell old 0) (VStr id)); [reflexivity | exact IH].
Qed.

End ContentStatements.

(** ** The index: Add, Update, Get and List together *)

Section IndexOperations.

(** What [Get] of the index returns, in terms of the rows that have the
    id. *)
Lemma index_Get_matching w t id :
  no_fault w ->
  table_of (data w) "content" index.tableDefs t ->
  fst (index.Get index_statements id w)
  = match matching t "id" (VStr id) with
    | [] => (index.Content_zero, Some index.NotFound)
    | r :: _ => Scan index.dests (columns 6 r) index.Content_zero
    end.
Proof.
  intros N T. rewrite (index_Get_rows _ _ _ _ N (run_get_content _ _ id T)).
  destruct (matching t "id" (VStr id)); reflexivity.
Qed.

Lemma index_Add_result w t c :
  no_fault w ->
  table_of (data w) "content" index.tableDefs t ->
  index.Add index_statements c w
  = let w1 := called (EvStmtExec (index.add index_statements) (content_row c)) w in
    match index.EncryptionKey c, matching t "id" (VStr (index.Id c)) with
    | None, _ => (Some (ErrDriver "NOT NULL constraint failed"), w1)
    | Some _, [] =>
        (None,
         set_data w1
           (put_table (data w) "content"
              (mkTable (tcols t) (tfks t) (trows t ++ [content_row c]))))
    | Some _, _ :: _ => (Some (ErrDriver "UNIQUE constraint failed"), w1)
    end.
Proof.
  intros N T. unfold index.Add. fold (content_row c).
  rewrite (Stmt_Exec_run _ _ _ N), (run_add_content_row _ _ _ T).
  destruct (content_id_column _ _ T) as (C & K).
  rewrite (duplicates_key_matching t (content_row c) (index.Id c) C K eq_refl).
  destruct (index.EncryptionKey c); [|reflexivity].
  destruct (matching t "id" (VStr (index.Id c))); reflexivity.
Qed.

Lemma content_columns_length db t :
  table_of db "content" index.tableDefs t -> length (tcols t) = 6%nat.
Proof.
  intros T. destruct (content_table_cases _ _ T) as (_ & [C | C] & _);
    rewrite C; reflexivity.
Qed.

(** The table after [Add] of the index. *)
Lemma index_Add_effect w t c :
  healthy w ->
  table_of (data w) "content" index.tableDefs t ->
  exists t',
    healthy (snd (index.Add index_statements c w)) /\
    table_of (data (snd (index.Add index_statements c w))) "content" index.tableDefs t' /\
    touches_only (index.Id c) t t'.
Proof.
  intros H T. rewrite (index_Add_result _ _ _ (healthy_no_fault _ H) T). cbv zeta.
  rewrite (healthy_called _ _ H).
  destruct (index.EncryptionKey c);
    [destruct (matching t "id" (VStr (index.Id c)))|].
  - eexists. split; [exact H|]. split.
    + apply (table_of_insert _ _ _ _ (content_row c) T).
      now rewrite (content_columns_length _ _ T).
    + split; [reflexivity|]. right; left. exists (content_row c). auto.
  - exists t. split; [exact H|]. split; [exact T|]. split; [reflexivity | now left].
  - exists t. split; [exact H|]. split; [exact T|]. split; [reflexivity | now left].
Qed.

(** [Update] of the index: a nil key is refused when a row has the id. *)
Lemma index_Update_result w t c :
  no_fault w ->
  table_of (data w) "content" index.tableDefs t ->
  exists w1,
    faults w1 = tl (faults w) /\ data w1 = data w /\
    index.Update index_statements c w
    = match index.EncryptionKey c, matching t "id" (VStr (index.Id c)) with
      | None, _ :: _ => (Some (ErrDriver "NOT NULL constraint failed"), w1)
      | _, _ => (None, set_data w1 (put_table (data w) "content" (content_updated t c)))
      end.
Proof.
  intros N T. unfold index.Update.
  rewrite (Stmt_Exec_run _ _ _ N), (run_update_content_row _ _ _ T).
  match goal with |- context [called ?e w] => exists (called e w) end.
  split; [|split; [apply called_data|]].
  - unfold called, next_fault, record. simpl. destruct (faults w); reflexivity.
  - destruct (index.EncryptionKey c);
      destruct (matching t "id" (VStr (index.Id c))); reflexivity.
Qed.

Lemma content_sets_first c (r : row) : cell (apply_sets (content_sets c) r) 0 = cell r 0.
Proof. now apply apply_sets_cell. Qed.

(** A row of the content table that has the id of [c] is, once rewritten,
    the row of [c]. *)
Lemma content_sets_row c (r : row) :
  length r = 6%nat ->
  sql_eq (cell r 0) (VStr (index.Id c)) = true ->
  apply_sets (content_sets c) r = content_row c.
Proof.
  intros L E. apply sql_eq_VStr_inv in E.
  destruct r as [|a [|b [|d [|e [|f [|g [|h r]]]]]]]; try discriminate.
  unfold cell in E. simpl in E. subst a. reflexivity.
Qed.

Lemma table_of_content_updated db t c :
  table_of db "content" index.tableDefs t ->
  table_of (put_table db "content" (content_updated t c)) "content" index.tableDefs
           (content_updated t c) /\
  touches_only (index.Id c) t (content_updated t c).
Proof.
  intros T. split.
  - apply (table_of_put _ _ _ _ _ T). destruct T as (_ & _ & L).
    apply Forall_rewritten; [exact L|]. intros r R. now rewrite apply_sets_length.
  - split; [reflexivity|]. right; right. exists (apply_sets (content_sets c)).
    split; [apply content_sets_first | reflexivity].
Qed.

(** Whatever a healthy index does to the record [id], [Get] of another id
    returns what it returned before. *)
Lemma index_Get_other w w' t t' id id' :
  no_fault w -> no_fault w' ->
  table_of (data w) "content" index.tableDefs t ->
  table_of (data w') "content" index.tableDefs t' ->
  touches_only id t t' -> id' <> id ->
  fst (index.Get index_statements id' w') = fst (index.Get index_statements id' w).
Proof.
  intros N N' T T' O D.
  rewrite (index_Get_matching _ _ _ N T), (index_Get_matching _ _ _ N' T').
  destruct (content_id_column _ _ T) as (C & _).
  now rewrite (touches_only_other _ _ _ _ C O D).
Qed.

End IndexOperations.

(** ** The store: Add, the updates and Get together *)

Section StoreOperations.

Lemma license_Get_matching w t id :
  no_fault w ->
  table_of (data w) "license" license.tableDefs t ->
  fst (license.Get license_statements id w)
  = match matching t "id" (VStr id) with
    | [] => (license.fresh_license, Some license.NotFound)
    | r :: _ =>
        match Scan license.dests (columns 10 r) license.fresh_license with
        | (l, Some ErrNoRows) => (l, Some license.NotFound)
        | x => x
        end
    end.
Proof.
  intros N T. rewrite (license_Get_rows _ _ _ _ N (run_get_license _ _ id T)).
  destruct (matching t "id" (VStr id)); reflexivity.
Qed.

Lemma license_columns_length db t :
  table_of db "license" license.tableDefs t -> length (tcols t) = 11%nat.
Proof.
  intros T. destruct (license_table_cases _ _ T) as (_ & [C | C] & _);
    rewrite C; reflexivity.
Qed.

Lemma license_Add_result w t l r :
  no_fault w ->
  table_of (data w) "license" license.tableDefs t ->
  license.License.Rights l = Some r ->
  exists w1,
    faults w1 = tl (faults w) /\ data w1 = data w /\
    license.Add license_statements l w
    = match matching t "id" (VStr (license.License.Id l)) with
      | [] =>
          (license.Returns None,
           set_data w1
             (put_table (data w) "license"
                (mkTable (tcols t) (tfks t) (trows t ++ [license_row l r]))))
      | _ => (license.Returns (Some (ErrDriver "UNIQUE constraint failed")), w1)
      end.
Proof.
  intros N T RI. unfold license.Add. rewrite RI.
  rewrite (Stmt_Exec_run _ _ _ N).
  rewrite (run_add_license _ _ _ _ _ _ _ _ _ _ _ _ T).
  destruct (license_id_column _ _ T) as (C & K).
  fold (license_row l r).
  rewrite (duplicates_key_matching t (license_row l r) (license.License.Id l) C K eq_refl).
  eexists. split; [|split; [apply called_data|]].
  - unfold called, next_fault, record. simpl. destruct (faults w); reflexivity.
  - destruct (matching t "id" (VStr (license.License.Id l))); reflexivity.
Qed.

(** The three updates, on a handle that does not fail the call. *)
Lemma license_Update_result w t l r :
  no_fault w ->
  table_of (data w) "license" license.tableDefs t ->
  license.License.Rights l = Some r ->
  exists w1,
    faults w1 = tl (faults w) /\
    license.Update license_statements l w
    = (license.Returns None,
       set_data w1
         (put_table (data w) "license"
            (license_updated t (license.License.Id l)
               (update_sets l r (license.stamp w))))).
Proof.
  intros N T RI. unfold license.Update. rewrite RI.
  rewrite (Stmt_Exec_run _ _ _ N), (run_update_license _ _ _ _ _ _ _ _ _ _ _ T).
  eexists. split; [|reflexivity].
  unfold called, next_fault, record. simpl. destruct (faults w); reflexivity.
Qed.

Lemma license_UpdateRights_result w t l r :
  no_fault w ->
  table_of (data w) "license" license.tableDefs t ->
  license.License.Rights l = Some r ->
  exists w1,
    faults w1 = tl (faults w) /\
    license.UpdateRights license_statements l w
    = (match matching t "id" (VStr (license.License.Id l)) with
       | [] => license.Returns (Some license.NotFound)
       | _ => license.Returns None
       end,
       set_data w1
         (put_table (data w) "license"
            (license_updated t (license.License.Id l)
               (rights_sets r (license.stamp w))))).
Proof.
  intros N T RI. unfold license.UpdateRights. rewrite RI.
  rewrite (Stmt_Exec_run _ _ _ N), (run_updaterights_license _ _ _ _ _ _ _ _ T).
  unfold updated_by. eexists. split; [|].
  2: { destruct (matching t "id" (VStr (license.License.Id l))); reflexivity. }
  unfold called, next_fault, record. simpl. destruct (faults w); reflexivity.
Qed.

Lemma license_UpdateLsdStatus_result w t id status :
  no_fault w ->
  table_of (data w) "license" license.tableDefs t ->
  exists w1,
    faults w1 = tl (faults w) /\
    license.UpdateLsdStatus license_statements id status w
    = (None,
       set_data w1
         (put_table (data w) "license" (license_updated t id (status_sets status)))).
Proof.
  intros N T. unfold license.UpdateLsdStatus.
  rewrite (Stmt_Exec_run _ _ _ N), (run_updatelsdstatus_license _ _ _ _ T).
  eexists. split; [|reflexivity].
  unfold called, next_fault, record. simpl. destruct (faults w); reflexivity.
Qed.

Lemma table_of_license_updated db t id sets :
  table_of db "license" license.tableDefs t ->
  forallb (fun iv : nat * value => negb (fst iv =? 0)%nat) sets = true ->
  table_of (put_table db "license" (license_updated t id sets)) "license"
           license.tableDefs (license_updated t id sets) /\
  touches_only id t (license_updated t id sets).
Proof.
  intros T S. split.
  - apply (table_of_put _ _ _ _ _ T). destruct T as (_ & _ & L).
    apply Forall_rewritten; [exact L|]. intros r R. now rewrite apply_sets_length.
  - split; [reflexivity|]. right; right. exists (apply_sets sets).
    split; [|reflexivity]. intros r. now apply apply_sets_cell.
Qed.

Lemma license_Get_other w w' t t' id id' :
  no_fault w -> no_fault w' ->
  table_of (data w) "license" license.tableDefs t ->
  table_of (data w') "license" license.tableDefs t' ->
  touches_only id t t' -> id' <> id ->
  fst (license.Get license_statements id' w') = fst (license.Get license_statements id' w).
Proof.
  intros N N' T T' O D.
  rewrite (license_Get_matching _ _ _ N T), (license_Get_matching _ _ _ N' T').
  destruct (license_id_column _ _ T) as (C & _).
  now rewrite (touches_only_other _ _ _ _ C O D).
Qed.

End StoreOperations.

(** ** Adding a record twice *)

Section AddTwice.

(** X2: on a handle that does not fail the call, [Add] of the index
    fails with an error of the database, and leaves the database as it
    was, when the key of the record is nil (it is bound as NULL) and when a
    row has the id of the record; otherwise it succeeds and appends the
    record's row.  [Add] of the store fails in the same way when a row has
    the id of the license; and when it succeeds, no row had the id and the
    row of the license is appended. *)
Theorem Add_refuses_a_known_id :
  (forall (Database : string) (w0 w1 : World) (i : index.dbIndex),
      index.Open Database w0 = (Ok i, w1) ->
      forall (w : World) (t : table) (c : index.Content),
        no_fault w ->
        table_of (data w) "content" index.tableDefs t ->
        (index.EncryptionKey c = None \/ matching t "id" (VStr (index.Id c)) <> [] ->
         (exists e, fst (index.Add i c w) = Some e /\ is_driver e) /\
         data (snd (index.Add i c w)) = data w) /\
        (index.EncryptionKey c <> None ->
         matching t "id" (VStr (index.Id c)) = [] ->
         fst (index.Add i c w) = None /\
         find_table (data (snd (index.Add i c w))) "content"
         = Some (mkTable (tcols t) (tfks t) (trows t ++ [content_row c])))) /\
  (forall (Database : string) (w0 w1 : World) (s : license.sqlStore),
      license.NewSqlStore Database w0 = (Ok s, w1) ->
      forall (w : World) (t : table) (l : license.License.t)
             (r : license.UserRights.t),
        no_fault w ->
        table_of (data w) "license" license.tableDefs t ->
        license.License.Rights l = Some r ->
        (matching t "id" (VStr (license.License.Id l)) <> [] ->
         (exists e, fst (license.Add s l w) = license.Returns (Some e) /\ is_driver e) /\
         data (snd (license.Add s l w)) = data w) /\
        (forall w' : World,
            license.Add s l w = (license.Returns None, w') ->
            matching t "id" (VStr (license.License.Id l)) = [] /\
            find_table (data w') "license"
            = Some (mkTable (tcols t) (tfks t) (trows t ++ [license_row l r])))).
Proof.
  split.
  - intros Database w0 w1 i O w t c N T.
    apply Open_ok in O. subst i.
    rewrite (index_Add_result _ _ _ N T). cbv zeta. destruct T as (F & _).
    split.
    + intros [K | M].
      * rewrite K. simpl. split; [|apply called_data].
        eexists. split; [reflexivity | eexists; reflexivity].
      * destruct (index.EncryptionKey c);
          [destruct (matching t "id" (VStr (index.Id c))); [congruence|]|];
          simpl; (split; [|apply called_data]);
          eexists; (split; [reflexivity | eexists; reflexivity]).
    + intros K M. rewrite M.
      destruct (index.EncryptionKey c); [|congruence].
      simpl. split; [reflexivity | eapply find_table_put, F].
  - intros Database w0 w1 s O w t l r N T RI.
    apply NewSqlStore_ok in O. destruct O as [_ ->].
    destruct (license_Add_result _ _ _ _ N T RI) as (wa & _ & D & ->).
    destruct T as (F & _).
    split.
    + intros M.
      destruct (matching t "id" (VStr (license.License.Id l))); [congruence|].
      simpl. split; [|exact D].
      eexists. split; [reflexivity | eexists; reflexivity].
    + intros w' A.
      destruct (matching t "id" (VStr (license.License.Id l))); [|discriminate].
      injection A as <-. split; [reflexivity|]. simpl. eapply find_table_put, F.
Qed.

Lemma sample_matching :
  matching (the_table sample_world "content") "id" (VStr "c1") <> [] /\
  matching (the_table sample_world "content") "id" (VStr "c2") = [] /\
  matching (the_table sample_world "license") "id" (VStr "b") <> [] /\
  matching (the_table sample_world "license") "id" (VStr "d") = [].
Proof. repeat split; vm_compute; congruence. Qed.

(** On the sample database: "c1" and "b" are there, "c2" and "d" are not;
    "c2" is refused with a nil key and accepted with an empty one. *)
Lemma Add_refuses_witness :
  (exists e, fst (index.Add index_statements sample_content sample_world) = Some e /\
             is_driver e) /\
  (exists e, fst (index.Add index_statements
                    (index.mkContent "c2" None "l" 1 "h" "t") sample_world) = Some e /\
             is_driver e) /\
  fst (index.Add index_statements
         (index.mkContent "c2" (Some []) "l" 1 "h" "t") sample_world) = None /\
  (exists e, fst (license.Add license_statements (sample_license "b" 1) sample_world)
             = license.Returns (Some e) /\ is_driver e) /\
  matching (the_table sample_world "license") "id" (VStr "d") = [].
Proof.
  destruct Add_refuses_a_known_id as (HI & HL).
  destruct sample_matching as (M1 & M2 & M3 & M4).
  pose proof (fun c => HI _ _ _ _ sample_index_opened sample_world _ c
                          sample_no_fault sample_content_table) as I.
  pose proof (fun l r => HL _ _ _ _ sample_store_opened sample_world _ l r
                            sample_no_fault sample_license_table) as L.
  split; [exact (proj1 (proj1 (I sample_content) (or_intror M1)))|].
  split; [exact (proj1 (proj1 (I (index.mkContent "c2" None "l" 1 "h" "t"))
                          (or_introl eq_refl)))|].
  split.
  - refine (proj1 (proj2 (I (index.mkContent "c2" (Some []) "l" 1 "h" "t")) _ M2)).
    discriminate.
  - split.
    + exact (proj1 (proj1 (L (sample_license "b" 1) _ eq_refl) M3)).
    + exact (proj1 (proj2 (L (sample_license "d" 40) _ eq_refl) _ sample_license_added)).
Defined.

End AddTwice.

(** ** Update of the index *)

Section IndexUpdate.

Lemma Scan_content_row c :
  in_int64 (index.Length c) = true ->
  Scan index.dests (content_row c) index.Content_zero = (c, None).
Proof.
  intros V. unfold Scan, index.dests, content_row. simpl. rewrite V.
  destruct c as [id [key|] lo len sha ty]; reflexivity.
Qed.

Lemma no_fault_after w w1 d : healthy w -> faults w1 = tl (faults w) ->
  no_fault (set_data w1 d).
Proof.
  unfold healthy, no_fault, next_fault. intros H F. simpl. rewrite F, H. reflexivity.
Qed.

(** X3: [Update] of the index does not report an unknown id.  On a handle
    that does not fail the call, when no row has the id it returns no
    error and the database stays as it was, whatever the record.  When a
    row has the id, it returns no error and rewrites the rows of the id if
    the key of the record is not nil; with a nil key, which is bound as
    NULL, it returns the error of the database and changes nothing. *)
Theorem index_Update_of_unknown_id :
  forall (Database : string) (w0 w1 : World) (i : index.dbIndex),
    index.Open Database w0 = (Ok i, w1) ->
    forall (w : World) (t : table) (c : index.Content),
      no_fault w ->
      table_of (data w) "content" index.tableDefs t ->
      (matching t "id" (VStr (index.Id c)) = [] ->
       fst (index.Update i c w) = None /\
       data (snd (index.Update i c w)) = data w) /\
      (matching t "id" (VStr (index.Id c)) <> [] ->
       index.EncryptionKey c <> None ->
       fst (index.Update i c w) = None /\
       find_table (data (snd (index.Update i c w))) "content"
       = Some (content_updated t c)) /\
      (matching t "id" (VStr (index.Id c)) <> [] ->
       index.EncryptionKey c = None ->
       (exists e, fst (index.Update i c w) = Some e /\ is_driver e) /\
       data (snd (index.Update i c w)) = data w).
Proof.
  intros Database w0 w1 i O w t c N T.
  apply Open_ok in O. subst i.
  destruct (index_Update_result _ _ c N T) as (wu & _ & D & ->).
  split; [|split].
  - intros M. rewrite M.
    assert (E : put_table (data w) "content" (content_updated t c) = data w).
    { unfold content_updated.
      unfold matching in M. destruct (content_id_column _ _ T) as (C & _).
      rewrite C in M. rewrite (map_unselected _ _ _ M).
      destruct T as (F & _). apply (put_table_same _ _ _ F). }
    destruct (index.EncryptionKey c); simpl; rewrite E; split; reflexivity.
  - intros M K. destruct (index.EncryptionKey c); [|congruence].
    simpl. split; [reflexivity|]. destruct T as (F & _). eapply find_table_put, F.
  - intros M K. rewrite K.
    destruct (matching t "id" (VStr (index.Id c))); [congruence|].
    simpl. split; [|exact D]. eexists. split; [reflexivity | eexists; reflexivity].
Qed.

Lemma index_Update_witness :
  let c := index.mkContent "c9" None "nowhere" 0 "00" "application/pdf" in
  fst (index.Update index_statements c sample_world) = None /\
  data (snd (index.Update index_statements c sample_world)) = data sample_world.
Proof.
  intros c.
  apply (index_Update_of_unknown_id _ _ _ _ sample_index_opened sample_world _ c
           sample_no_fault sample_content_table).
  vm_compute. reflexivity.
Defined.

(** X4: when a row has the id and [Update] has returned no error, [Get]
    of the id returns the record that was given to [Update], whole. *)
Theorem index_Update_then_Get :
  forall (Database : string) (w0 w1 : World) (i : index.dbIndex),
    index.Open Database w0 = (Ok i, w1) ->
    forall (w w' : World) (t : table) (c : index.Content),
      healthy w ->
      table_of (data w) "content" index.tableDefs t ->
      in_int64 (index.Length c) = true ->
      matching t "id" (VStr (index.Id c)) <> [] ->
      index.Update i c w = (None, w') ->
      fst (index.Get i (index.Id c) w') = (c, None).
Proof.
  intros Database w0 w1 i O w w' t c H T V M U.
  apply Open_ok in O. subst i.
  destruct (index_Update_result _ _ c (healthy_no_fault _ H) T) as (wu & FU & _ & E).
  rewrite E in U. clear E.
  assert (W : w' = set_data wu (put_table (data w) "content" (content_updated t c))).
  { destruct (index.EncryptionKey c);
      destruct (matching t "id" (VStr (index.Id c)));
      try congruence; discriminate U. }
  subst w'. clear U.
  destruct (table_of_content_updated _ _ c T) as (T' & _).
  rewrite (index_Get_matching _ (content_updated t c) _ (no_fault_after _ _ _ H FU) T').
  destruct (content_id_column _ _ T) as (C & _).
  unfold content_updated.
  rewrite (matching_rewritten t _ (index.Id c) C (content_sets_first c)).
  destruct (matching t "id" (VStr (index.Id c))) as [|x rest] eqn:E; [congruence|].
  cbn [map].
  assert (I : In x (matching t "id" (VStr (index.Id c)))) by (rewrite E; now left).
  unfold matching in I. rewrite C in I. apply filter_In in I. destruct I as (I & X).
  destruct (content_table_cases _ _ T) as (_ & _ & L).
  rewrite Forall_forall in L.
  rewrite (content_sets_row c x (L x I) X).
  rewrite row6 by reflexivity. now apply Scan_content_row.
Qed.

Lemma sample_content_updated :
  let c := index.mkContent "c1" (Some [Byte.x07]) "https://example.org/new.epub" 77
                           "ffff" "application/pdf" in
  index.Update index_statements c sample_world
  = (None, snd (index.Update index_statements c sample_world)).
Proof. vm_compute. reflexivity. Qed.

Lemma index_Update_then_Get_witness :
  let c := index.mkContent "c1" (Some [Byte.x07]) "https://example.org/new.epub" 77
                           "ffff" "application/pdf" in
  fst (index.Get index_statements "c1" (snd (index.Update index_statements c sample_world)))
  = (c, None).
Proof.
  intros c.
  apply (index_Update_then_Get _ _ _ _ sample_index_opened sample_world _ _ c
           eq_refl sample_content_table eq_refl (proj1 sample_matching)
           sample_content_updated).
Defined.

End IndexUpdate.

(** ** Records of another id *)

Section OtherRecords.

Lemma no_fault_tl w w1 : healthy w -> faults w1 = tl (faults w) -> no_fault w1.
Proof.
  unfold healthy, no_fault, next_fault. intros H F. rewrite F, H. reflexivity.
Qed.

Lemma table_of_data db db' name defs t :
  db' = db -> table_of db name defs t -> table_of db' name defs t.
Proof. now intros ->. Qed.

(** The table after [Update] of the index. *)
Lemma index_Update_effect w t c :
  healthy w ->
  table_of (data w) "content" index.tableDefs t ->
  exists t',
    no_fault (snd (index.Update index_statements c w)) /\
    table_of (data (snd (index.Update index_statements c w))) "content"
             index.tableDefs t' /\
    touches_only (index.Id c) t t'.
Proof.
  intros H T.
  destruct (index_Update_result _ _ c (healthy_no_fault _ H) T) as (wu & FU & D & ->).
  assert (U : exists t',
             no_fault (set_data wu (put_table (data w) "content" (content_updated t c))) /\
             table_of (data (set_data wu (put_table (data w) "content"
                                            (content_updated t c))))
                      "content" index.tableDefs t' /\
             touches_only (index.Id c) t t').
  { exists (content_updated t c). split; [apply (no_fault_after _ _ _ H FU)|].
    apply table_of_content_updated, T. }
  destruct (index.EncryptionKey c);
    [exact U | destruct (matching t "id" (VStr (index.Id c))); [exact U|]].
  exists t. split; [apply (no_fault_tl _ _ H FU)|]. split.
  - apply (table_of_data _ _ _ _ _ D T).
  - split; [reflexivity | now left].
Qed.

(** The table after [Add] of the store. *)
Lemma license_Add_effect w t l r :
  healthy w ->
  table_of (data w) "license" license.tableDefs t ->
  license.License.Rights l = Some r ->
  exists t',
    no_fault (snd (license.Add license_statements l w)) /\
    table_of (data (snd (license.Add license_statements l w))) "license"
             license.tableDefs t' /\
    touches_only (license.License.Id l) t t'.
Proof.
  intros H T RI.
  destruct (license_Add_result _ _ _ _ (healthy_no_fault _ H) T RI) as (wa & FA & D & ->).
  destruct (matching t "id" (VStr (license.License.Id l))).
  - eexists. split; [apply (no_fault_after _ _ _ H FA)|]. split.
    + apply (table_of_insert _ _ _ _ (license_row l r) T).
      now rewrite (license_columns_length _ _ T).
    + split; [reflexivity|]. right; left. exists (license_row l r). auto.
  - exists t. split; [apply (no_fault_tl _ _ H FA)|]. split.
    + apply (table_of_data _ _ _ _ _ D T).
    + split; [reflexivity | now left].
Qed.

(** X5: a call on one record changes nothing of what [Get] returns for
    another id.  For the index: [Add] and [Update]; for the store: [Add],
    [Update], [UpdateRights] and [UpdateLsdStatus]. *)
Theorem Get_of_another_id_is_kept :
  (forall (Database : string) (w0 w1 : World) (i : index.dbIndex),
      index.Open Database w0 = (Ok i, w1) ->
      forall (w : World) (t : table) (c : index.Content) (id' : string),
        healthy w ->
        table_of (data w) "content" index.tableDefs t ->
        id' <> index.Id c ->
        fst (index.Get i id' (snd (index.Add i c w))) = fst (index.Get i id' w) /\
        fst (index.Get i id' (snd (index.Update i c w))) = fst (index.Get i id' w)) /\
  (forall (Database : string) (w0 w1 : World) (s : license.sqlStore),
      license.NewSqlStore Database w0 = (Ok s, w1) ->
      forall (w : World) (t : table) (l : license.License.t)
             (r : license.UserRights.t) (status : Z) (id' : string),
        healthy w ->
        table_of (data w) "license" license.tableDefs t ->
        license.License.Rights l = Some r ->
        id' <> license.License.Id l ->
        let id := license.License.Id l in
        fst (license.Get s id' (snd (license.Add s l w))) = fst (license.Get s id' w) /\
        fst (license.Get s id' (snd (license.Update s l w))) = fst (license.Get s id' w) /\
        fst (license.Get s id' (snd (license.UpdateRights s l w)))
        = fst (license.Get s id' w) /\
        fst (license.Get s id' (snd (license.UpdateLsdStatus s id status w)))
        = fst (license.Get s id' w)).
Proof.
  split.
  - intros Database w0 w1 i O w t c id' H T D.
    apply Open_ok in O. subst i.
    pose proof (healthy_no_fault _ H) as N. split.
    + destruct (index_Add_effect _ _ c H T) as (t' & H' & T' & TO).
      exact (index_Get_other _ _ _ _ _ _ N (healthy_no_fault _ H') T T' TO D).
    + destruct (index_Update_effect _ _ c H T) as (t' & N' & T' & TO).
      exact (index_Get_other _ _ _ _ _ _ N N' T T' TO D).
  - intros Database w0 w1 s O w t l r status id' H T RI D id.
    apply NewSqlStore_ok in O. destruct O as [_ ->].
    pose proof (healthy_no_fault _ H) as N.
    split; [|split; [|split]].
    + destruct (license_Add_effect _ _ _ _ H T RI) as (t' & N' & T' & TO).
      exact (license_Get_other _ _ _ _ _ _ N N' T T' TO D).
    + destruct (license_Update_result _ _ _ _ N T RI) as (wu & FU & ->).
      destruct (table_of_license_updated _ _ id (update_sets l r (license.stamp w))
                  T eq_refl) as (T' & TO).
      exact (license_Get_other _ _ _ _ _ _ N (no_fault_after _ _ _ H FU) T T' TO D).
    + destruct (license_UpdateRights_result _ _ _ _ N T RI) as (wu & FU & ->).
      destruct (table_of_license_updated _ _ id (rights_sets r (license.stamp w))
                  T eq_refl) as (T' & TO).
      exact (license_Get_other _ _ _ _ _ _ N (no_fault_after _ _ _ H FU) T T' TO D).
    + destruct (license_UpdateLsdStatus_result _ _ id status N T) as (wu & FU & ->).
      destruct (table_of_license_updated _ _ id (status_sets status) T eq_refl)
        as (T' & TO).
      exact (license_Get_other _ _ _ _ _ _ N (no_fault_after _ _ _ H FU) T T' TO D).
Qed.

End OtherRecords.

Section OtherRecordsWitness.

(** On the sample database: the content "c1" after "c2" was added, and the
    license "a" after each of the four calls on "b". *)
Lemma Get_of_another_id_witness :
  let c2 := index.mkContent "c2" (Some []) "l" 1 "h" "t" in
  let b := sample_license "b" 99 in
  fst (index.Get index_statements "c1" (snd (index.Add index_statements c2 sample_world)))
  = fst (index.Get index_statements "c1" sample_world) /\
  fst (license.Get license_statements "a"
         (snd (license.UpdateRights license_statements b sample_world)))
  = fst (license.Get license_statements "a" sample_world).
Proof.
  intros c2 b.
  destruct Get_of_another_id_is_kept as (HI & HL).
  split.
  - refine (proj1 (HI _ _ _ _ sample_index_opened sample_world _ c2 "c1"
                      eq_refl sample_content_table _)).
    discriminate.
  - refine (proj1 (proj2 (proj2 (HL _ _ _ _ sample_store_opened sample_world _ b _ 0 "a"
                                    eq_refl sample_license_table eq_refl _)))).
    discriminate.
Defined.

End OtherRecordsWitness.

(** ** The updates of the store, then Get *)

Section StoreUpdates.

Ltac eleven r :=
  destruct r as [|? [|? [|? [|? [|? [|? [|? [|? [|? [|? [|? [|? ?]]]]]]]]]]]];
  try discriminate.




End StoreUpdates.

Section StoreUpdatesWitness.




End StoreUpdatesWitness.

(** ** The status column *)

Section Status.











End Status.

(** ** Consecutive pages *)

Section ConsecutivePages.





End ConsecutivePages.

(** ** Add, then List, of the index *)

Section AddThenList.

Lemma sample_healthy : healthy sample_world.
Proof. vm_compute. reflexivity. Qed.

Lemma index_List_listed w t :
  no_fault w ->
  table_of (data w) "content" index.tableDefs t ->
  index_listed (index.List index_statements w) = Some (trows t).
Proof.
  intros N T.
  destruct (Stmt_Query_run _ _ _ _ _ _ N (run_list_content _ _ T)) as (h & w' & Q & C & _).
  unfold index.List. rewrite Q. simpl. rewrite C. simpl. f_equal.
  destruct (content_table_cases _ _ T) as (_ & _ & L).
  rewrite <- (map_id (trows t)) at 2. apply map_ext_in. intros r I.
  rewrite Forall_forall in L. now apply row6, L.
Qed.

(** X9: a record that [Add] has stored is listed.  After an [Add] that
    succeeded, [List] goes through the rows it went through before and
    through the row of the new record; in which order is not said, as the
    statement of [List] asks for none. *)
Theorem index_Add_then_List :
  forall (Database : string) (w0 w1 : World) (i : index.dbIndex),
    index.Open Database w0 = (Ok i, w1) ->
    forall (w w' : World) (t : table) (c : index.Content),
      healthy w ->
      table_of (data w) "content" index.tableDefs t ->
      index.Add i c w = (None, w') ->
      exists rows rows' : list row,
        index_listed (index.List i w) = Some rows /\
        index_listed (index.List i w') = Some rows' /\
        Permutation rows' (content_row c :: rows).
Proof.
  intros Database w0 w1 i O w w' t c H T A.
  apply Open_ok in O. subst i.
  pose proof (healthy_no_fault _ H) as N.
  exists (trows t), (trows t ++ [content_row c])%list.
  split; [now apply index_List_listed|].
  split; [|apply Permutation_sym, Permutation_cons_append].
  rewrite (index_Add_result _ _ _ N T) in A. cbv zeta in A.
  rewrite (healthy_called _ _ H) in A.
  destruct (index.EncryptionKey c); [|discriminate].
  destruct (matching t "id" (VStr (index.Id c))); [|discriminate].
  injection A as <-.
  rewrite (index_List_listed _ (mkTable (tcols t) (tfks t) (trows t ++ [content_row c]))).
  - reflexivity.
  - apply healthy_no_fault. exact H.
  - apply (table_of_insert _ _ _ _ (content_row c) T).
    now rewrite (content_columns_length _ _ T).
Qed.

Lemma sample_content_added :
  let c := index.mkContent "c2" (Some [Byte.x2a]) "https://example.org/c2.epub" 1024
                           "60303ae22b998861" "application/epub+zip" in
  index.Add index_statements c sample_world
  = (None, snd (index.Add index_statements c sample_world)).
Proof. vm_compute. reflexivity. Qed.

Lemma index_Add_then_List_witness :
  let c := index.mkContent "c2" (Some [Byte.x2a]) "https://example.org/c2.epub" 1024
                           "60303ae22b998861" "application/epub+zip" in
  let w' := snd (index.Add index_statements c sample_world) in
  exists rows rows' : list row,
    index_listed (index.List index_statements sample_world) = Some rows /\
    index_listed (index.List index_statements w') = Some rows' /\
    Permutation rows' (content_row c :: rows).
Proof.
  intros c w'.
  exact (index_Add_then_List _ _ _ _ sample_index_opened sample_world w' _ c
           sample_healthy sample_content_table sample_content_added).
Defined.

End AddThenList.

(** ** Opening the index *)

Section OpenIndex.

Lemma index_create_text (Database : string) :
  let q := index.createTableQuery (index.select_queries Database) in
  parse q = Some (CreateTable true "content" (columns_of q) []) /\ In q index.tableDefs.
Proof.
  unfold index.select_queries, index.tableDefs.
  destruct (prefix "postgres" Database); cbn [index.createTableQuery];
    (split; [vm_compute; reflexivity | simpl; auto]).
Qed.

Lemma alter_text : parse index.alterQuery = Some (AlterAddColumn "content" type_column).
Proof. vm_compute. reflexivity. Qed.

(** The four statements of the index pass the engine's check when the
    content table has the columns of a table definition. *)
Lemma index_checks db t :
  table_of db "content" index.tableDefs t ->
  check (index.get index_statements) db = None /\
  check (index.add index_statements) db = None /\
  check (index.update index_statements) db = None /\
  check (index.list_ index_statements) db = None /\
  has_col (tcols t) "type" = true.
Proof.
  intros T. destruct (content_table_cases _ _ T) as (F & C & _).
  unfold index_statements, check. cbn [index.get index.add index.update index.list_].
  rewrite F. destruct C as [-> | ->]; vm_compute; auto.
Qed.

(** [Open] once the table is created and ALTER has been tried: the four
    statements are prepared. *)
Lemma Open_prepared (Database : string) (w w1 w2 : World) (n : Z) (t1 : table) :
  Exec (index.createTableQuery (index.select_queries Database)) [] w = (Ok n, w1) ->
  w2 = (if prefix "sqlite" Database then snd (Exec index.alterQuery [] w1) else w1) ->
  healthy w2 ->
  table_of (data w2) "content" index.tableDefs t1 ->
  exists w', index.Open Database w = (Ok index_statements, w') /\
             healthy w' /\ data w' = data w2.
Proof.
  intros E W H2 T. unfold index.Open. rewrite E, <- W.
  destruct (index_checks _ _ T) as (C1 & C2 & C3 & C4 & _).
  pose proof (index_texts Database) as P. cbv zeta in P. cbn [map] in P.
  injection P as P1 P2 P3 P4.
  rewrite (Prepare_healthy _ _ _ H2 P1) by exact C1.
  rewrite (Prepare_healthy _ _ _ (healthy_record _ _ H2) P2) by exact C2.
  rewrite (Prepare_healthy _ _ _ (healthy_record _ _ (healthy_record _ _ H2)) P3)
    by exact C3.
  rewrite (Prepare_healthy _ _ _
             (healthy_record _ _ (healthy_record _ _ (healthy_record _ _ H2))) P4)
    by exact C4.
  eexists. split; [reflexivity|]. split; [exact H2 | reflexivity].
Qed.

(** On a healthy handle ALTER fails on the column that exists, and the
    error is ignored. *)
Lemma Open_after_create (Database : string) (w w1 : World) (n : Z) (t1 : table) :
  Exec (index.createTableQuery (index.select_queries Database)) [] w = (Ok n, w1) ->
  healthy w1 ->
  table_of (data w1) "content" index.tableDefs t1 ->
  exists w', index.Open Database w = (Ok index_statements, w') /\
             healthy w' /\ data w' = data w1.
Proof.
  intros E H T.
  destruct (index_checks _ _ T) as (_ & _ & _ & _ & HT).
  assert (A : let w2 := if prefix "sqlite" Database
                        then snd (Exec index.alterQuery [] w1) else w1 in
              healthy w2 /\ data w2 = data w1).
  { destruct (prefix "sqlite" Database); cbv zeta; [|now split].
    rewrite (Exec_healthy _ _ _ H), alter_text. unfold run.
    destruct T as (F & _). rewrite F. cbn [cname type_column]. rewrite HT.
    split; [exact H | reflexivity]. }
  cbv zeta in A. destruct A as (H2 & D2).
  destruct (Open_prepared Database w w1 _ n t1 E eq_refl H2) as (w' & O & H' & D').
  - now apply (table_of_data _ _ _ _ _ D2).
  - exists w'. split; [exact O|]. split; [exact H' | congruence].
Qed.

(** X10: on a handle whose driver reports no fault, [Open] succeeds under
    every configuration value.  When the database has no content table it
    appends an empty one with the columns of the dialect's table
    definition; when it has a content table with the columns of either
    definition, it leaves the database as it was, rows included (under
    sqlite the error of ALTER TABLE on the existing column is ignored). *)
Theorem Open_on_a_healthy_handle :
  forall (Database : string) (w : World),
    healthy w ->
    (find_table (data w) "content" = None ->
     exists w' t,
       index.Open Database w = (Ok index_statements, w') /\ healthy w' /\
       data w' = (data w ++ [("content", t)])%list /\
       tcols t = columns_of (index.createTableQuery (index.select_queries Database)) /\
       trows t = []) /\
    (forall t, table_of (data w) "content" index.tableDefs t ->
     exists w',
       index.Open Database w = (Ok index_statements, w') /\ healthy w' /\
       data w' = data w).
Proof.
  intros Database w H.
  destruct (index_create_text Database) as (P & I). cbv zeta in P, I.
  pose proof (Exec_healthy (index.createTableQuery (index.select_queries Database))
                [] w H) as E.
  rewrite P in E. unfold run in E. split.
  - intros F. rewrite F in E.
    destruct (Open_after_create _ _ _ _
                (mkTable (columns_of (index.createTableQuery
                                        (index.select_queries Database))) [] [])
                E H) as (w' & O & H' & D).
    + split; [|split].
      * cbn [data set_data]. apply find_table_app, F.
      * exists (index.createTableQuery (index.select_queries Database)).
        split; [exact I | reflexivity].
      * constructor.
    + exists w'. eexists. split; [exact O|]. split; [exact H'|].
      split; [exact D|]. split; reflexivity.
  - intros t T. pose proof T as (F & _). rewrite F in E.
    destruct (Open_after_create _ _ _ _ t E H T) as (w' & O & H' & D).
    exists w'. split; [exact O|]. split; [exact H' | exact D].
Qed.

Lemma Open_on_a_healthy_handle_witness :
  (exists w' t,
     index.Open "sqlite3" empty_world = (Ok index_statements, w') /\ healthy w' /\
     data w' = (data empty_world ++ [("content", t)])%list /\
     tcols t = columns_of (index.createTableQuery (index.select_queries "sqlite3")) /\
     trows t = []) /\
  (exists w',
     index.Open "sqlite3" sample_world = (Ok index_statements, w') /\ healthy w' /\
     data w' = data sample_world).
Proof.
  split.
  - apply (proj1 (Open_on_a_healthy_handle "sqlite3" empty_world eq_refl)).
    reflexivity.
  - apply (proj2 (Open_on_a_healthy_handle "sqlite3" sample_world sample_healthy)
             (the_table sample_world "content")).
    exact sample_content_table.
Defined.

(** X11: a content table created before the index had the column [type]
    (five columns, of any types) is migrated by [Open] under sqlite only:
    ALTER TABLE appends the column, every row gets the default type
    application/epub+zip, and the statements are prepared.  Under any other
    configuration value [Open] does not alter the table, the database
    refuses the first statement for its unknown column, and [Open] returns
    that error. *)
Theorem Open_migrates_under_sqlite_only :
  forall (Database : string) (w : World) (t : table),
    healthy w ->
    find_table (data w) "content" = Some t ->
    map cname (tcols t) = legacy_names ->
    exists w',
      index.Open Database w
      = (if prefix "sqlite" Database then Ok index_statements else Fail no_column, w') /\
      data w' = (if prefix "sqlite" Database
                 then put_table (data w) "content" (with_type t) else data w).
Proof.
  intros Database w t H F N.
  destruct (index_create_text Database) as (P & _). cbv zeta in P.
  pose proof (Exec_healthy (index.createTableQuery (index.select_queries Database))
                [] w H) as E.
  rewrite P in E. unfold run in E. rewrite F in E.
  unfold index.Open. rewrite E.
  pose proof (index_texts Database) as Q. cbv zeta in Q. cbn [map] in Q.
  injection Q as Q1 Q2 Q3 Q4.
  assert (HN : has_col (tcols t) "type" = false).
  { unfold has_col. destruct (tcols t) as [|[n0 ? ? ? ? ?] [|[n1 ? ? ? ? ?]
      [|[n2 ? ? ? ? ?] [|[n3 ? ? ? ? ?] [|[n4 ? ? ? ? ?] [|? ?]]]]]]; try discriminate N.
    cbn [map cname] in N. unfold legacy_names in N.
    injection N as -> -> -> -> ->. reflexivity. }
  destruct (prefix "sqlite" Database).
  - set (w1 := set_data (record _ w) (data w)).
    assert (H1 : healthy w1) by exact H.
    assert (F1 : find_table (data w1) "content" = Some t) by exact F.
    rewrite (Exec_healthy _ _ _ H1), alter_text. unfold run. rewrite F1.
    cbn [cname type_column]. rewrite HN. cbn [snd cdefault type_column].
    fold type_column. fold (with_type t).
    set (w2 := set_data _ _).
    assert (H2 : healthy w2) by exact H.
    assert (F2 : find_table (data w2) "content" = Some (with_type t))
      by (apply (find_table_put _ _ _ _ F1)).
    assert (C : forall s, In s [index.get index_statements; index.add index_statements;
                                index.update index_statements;
                                index.list_ index_statements] ->
                          forall w3, data w3 = data w2 -> check s (data w3) = None).
    { intros s I w3 ->. unfold check.
      destruct (tcols t) as [|[n0 ? ? ? ? ?] [|[n1 ? ? ? ? ?]
        [|[n2 ? ? ? ? ?] [|[n3 ? ? ? ? ?] [|[n4 ? ? ? ? ?] [|? ?]]]]]] eqn:TC;
        try discriminate N.
      cbn [map cname] in N. unfold legacy_names in N.
      injection N as -> -> -> -> ->.
      cbn [In] in I.
      destruct I as [<- | [<- | [<- | [<- | []]]]];
        unfold index_statements; cbn [index.get index.add index.update index.list_];
        rewrite F2; unfold with_type; cbn [tcols]; rewrite TC; reflexivity. }
    rewrite (Prepare_healthy _ _ _ H2 Q1) by (apply C; simpl; auto).
    rewrite (Prepare_healthy _ _ _ (healthy_record _ _ H2) Q2) by (apply C; simpl; auto).
    rewrite (Prepare_healthy _ _ _ (healthy_record _ _ (healthy_record _ _ H2)) Q3)
      by (apply C; simpl; auto).
    rewrite (Prepare_healthy _ _ _
               (healthy_record _ _ (healthy_record _ _ (healthy_record _ _ H2))) Q4)
      by (apply C; simpl; auto).
    eexists. split; reflexivity.
  - set (w1 := set_data (record _ w) (data w)).
    assert (H1 : healthy w1) by exact H.
    unfold Prepare.
    rewrite (no_fault_called _ _ (healthy_no_fault _ H1)), (healthy_called _ _ H1), Q1.
    unfold index_statements, check. cbn [index.get data record].
    change (data w1) with (data w). rewrite F.
    assert (HC : forallb (has_col (tcols t))
                   (content_columns ++ ["id"] ++ [])%list = false).
    { unfold content_columns. cbn [app forallb]. rewrite HN.
      now rewrite !andb_false_r. }
    rewrite HC. eexists. split; reflexivity.
Qed.

Lemma Open_migrates_witness :
  exists w',
    index.Open "sqlite3" legacy_world = (Ok index_statements, w') /\
    data w' = put_table (data legacy_world) "content" (with_type legacy_table).
Proof.
  exact (Open_migrates_under_sqlite_only "sqlite3" legacy_world legacy_table
           eq_refl eq_refl eq_refl).
Defined.

(** X12: [Open] drops the error of ALTER TABLE, the driver's too.  Under
    sqlite, when the driver passes CREATE TABLE and fails the next call,
    which is ALTER TABLE, [Open] on a content table that has its six
    columns goes on, prepares its statements and returns the index with no
    error. *)
Theorem Open_ignores_the_error_of_ALTER :
  forall (Database : string) (w : World) (t : table) (msg : string),
    prefix "sqlite" Database = true ->
    faults w = [None; Some msg] ->
    table_of (data w) "content" index.tableDefs t ->
    exists w',
      index.Open Database w = (Ok index_statements, w') /\
      data w' = data w /\
      In (EvExec index.alterQuery []) (trace w').
Proof.
  intros Database w t msg S F T.
  destruct (index_create_text Database) as (P & _). cbv zeta in P.
  set (q := index.createTableQuery (index.select_queries Database)) in *.
  set (w1 := mkWorld (data w) (cursors w) (trace w ++ [EvExec q []])%list
                     [Some msg] (clock w)).
  assert (E : Exec q [] w = (Ok 0, w1)).
  { unfold Exec, next_fault, record. cbn [faults]. rewrite F. cbn [option_map].
    rewrite P. unfold run. cbn [data]. destruct T as (FT & _). now rewrite FT. }
  assert (A : snd (Exec index.alterQuery [] w1)
              = failed_call (EvExec index.alterQuery []) w1).
  { unfold Exec. now rewrite (next_fault_fails _ w1 msg [] eq_refl). }
  destruct (Open_prepared Database w w1 _ 0 t E eq_refl) as (w' & O & H' & D').
  - rewrite S, A. reflexivity.
  - rewrite S, A. exact T.
  - exists w'. split; [exact O|]. split; [now rewrite D', S, A|].
    unfold index.Open in O. fold q in O. rewrite E, S, A in O.
    repeat match type of O with
    | context [Prepare ?q ?w] =>
        let X := fresh "X" in
        pose proof (Prepare_trace q w) as X;
        destruct (Prepare q w) as [[? | ?] ?]; [|discriminate O];
        cbn [snd] in X
    end.
    apply (f_equal snd) in O. cbn [snd] in O. subst w'.
    rewrite X2, X1, X0, X. cbn [trace failed_call w1].
    rewrite !in_app_iff. left. left. left. left. right. now left.
Qed.

Lemma Open_ignores_witness :
  exists w',
    index.Open "sqlite3"
      (mkWorld (data sample_world) [] [] [None; Some "database is locked"]
               (clock sample_world))
    = (Ok index_statements, w') /\
    data w' = data sample_world /\
    In (EvExec index.alterQuery []) (trace w').
Proof.
  exact (Open_ignores_the_error_of_ALTER "sqlite3"
           (mkWorld (data sample_world) [] [] [None; Some "database is locked"]
                    (clock sample_world))
           (the_table sample_world "content") "database is locked"
           eq_refl eq_refl sample_content_table).
Defined.

End OpenIndex.

(** ** Opening the license store *)

Section OpenStore.

Lemma Prepare_healthy_syntax q w :
  healthy w -> parse q = None ->
  Prepare q w = (Fail syntax_error, record (EvPrepare q) w).
Proof.
  intros H P. unfold Prepare.
  now rewrite (no_fault_called _ _ (healthy_no_fault _ H)), (healthy_called _ _ H), P.
Qed.

Lemma Prepare_healthy_refused q s e w :
  healthy w -> parse q = Some s -> check s (data w) = Some e ->
  Prepare q w = (Fail e, record (EvPrepare q) w).
Proof.
  intros H P C. unfold Prepare.
  rewrite (no_fault_called _ _ (healthy_no_fault _ H)), (healthy_called _ _ H), P.
  simpl. now rewrite C.
Qed.

Lemma license_create_text (Database : string) :
  let q := license.tabledefquery (license.select_queries Database) in
  (exists fks, parse q = Some (CreateTable true "license" (columns_of q) fks)) /\
  In q license.tableDefs.
Proof.
  unfold license.select_queries, license.tableDefs.
  destruct (prefix "postgres" Database); cbn [license.tabledefquery];
    (split; [eexists; vm_compute; reflexivity | simpl; auto]).
Qed.

(** The statements of the store pass the engine's check when the license
    table has the columns of a table definition. *)
Lemma license_checks db t s :
  table_of db "license" license.tableDefs t ->
  In (Some s) (parsed license_statements) ->
  check s db = None.
Proof.
  intros T I. destruct (license_table_cases _ _ T) as (F & C & _).
  unfold parsed, license_statements in I.
  cbn [map In license.listall license.list_ license.updaterights license.add
       license.update license.updatelsdstatus license.get] in I.
  destruct I as [I | [I | [I | [I | [I | [I | [I | []]]]]]]];
    injection I as <-; unfold check; rewrite F;
    destruct C as [-> | ->]; vm_compute; reflexivity.
Qed.

(** [NewSqlStore] once the table is there: the seven statements are
    prepared under postgres, and the third text is refused otherwise. *)
Lemma NewSqlStore_after_create (Database : string) (w w1 : World) (t1 : table) :
  (if prefix "sqlite" Database || prefix "postgres" Database
   then exists n, Exec (license.tabledefquery (license.select_queries Database)) [] w
                  = (Ok n, w1)
   else w1 = w) ->
  healthy w1 ->
  table_of (data w1) "license" license.tableDefs t1 ->
  exists w',
    license.NewSqlStore Database w
    = (if prefix "postgres" Database then Ok license_statements else Fail syntax_error,
       w') /\
    healthy w' /\ data w' = data w1.
Proof.
  intros E H T. unfold license.NewSqlStore.
  assert (C : forall s w2, In (Some s) (parsed license_statements) ->
                           data w2 = data w1 -> check s (data w2) = None).
  { intros s w2 I ->. now apply (license_checks _ t1). }
  assert (S : (if prefix "sqlite" Database || prefix "postgres" Database
               then match Exec (license.tabledefquery (license.select_queries Database))
                                [] w with
                    | (Fail err, w1) =>
                        (Some err, record (EvPrintln "Error creating license table") w1)
                    | (Ok _, w1) => (None, w1)
                    end
               else (None, w)) = (None, w1)).
  { destruct (prefix "sqlite" Database || prefix "postgres" Database).
    - destruct E as (n & ->). reflexivity.
    - now subst w1. }
  cbv zeta. rewrite S. clear S E.
  destruct (prefix "postgres" Database) eqn:P.
  - pose proof (license_texts_postgres _ P) as X.
    unfold parses in X. unfold parsed in X, C. cbn [map] in X, C.
    injection X as X1 X2 X3 X4 X5 X6 X7.
    rewrite (Prepare_healthy _ _ _ H X1) by (apply C; simpl; auto 10).
    rewrite (Prepare_healthy _ _ (record _ w1) H X2) by (apply C; simpl; auto 10).
    rewrite (Prepare_healthy _ _ (record _ (record _ w1)) H X3)
      by (apply C; simpl; auto 10).
    rewrite (Prepare_healthy _ _ (record _ (record _ (record _ w1))) H X4)
      by (apply C; simpl; auto 10).
    rewrite (Prepare_healthy _ _ (record _ (record _ (record _ (record _ w1)))) H X5)
      by (apply C; simpl; auto 10).
    rewrite (Prepare_healthy _ _
               (record _ (record _ (record _ (record _ (record _ w1))))) H X6)
      by (apply C; simpl; auto 10).
    rewrite (Prepare_healthy _ _
               (record _ (record _ (record _ (record _ (record _ (record _ w1)))))) H X7)
      by (apply C; simpl; auto 10).
    eexists. split; [reflexivity|]. split; [exact H | reflexivity].
  - pose proof (license_texts_other _ P) as X.
    unfold parses in X. unfold parsed in C. cbn [map] in X, C.
    injection X as X1 X2 X3 _ _ _ _.
    rewrite (Prepare_healthy _ _ _ H X1) by (apply C; simpl; auto 10).
    rewrite (Prepare_healthy _ _ (record _ w1) H X2) by (apply C; simpl; auto 10).
    rewrite (Prepare_healthy_syntax _ (record _ (record _ w1)) H X3).
    eexists. split; [reflexivity|]. split; [exact H | reflexivity].
Qed.

(** X13: on a handle whose driver reports no fault, [NewSqlStore] behaves as
    follows.  When the license table has the columns of either table
    definition, it leaves the database as it was and returns the store
    under postgres, and the syntax error of the text of updaterights under
    any other configuration value.  When there is no license table, under
    postgres it appends an empty one and returns the store; under sqlite it
    appends an empty one as well, and then fails with the syntax error, so
    that the table stays behind; under any other value it creates nothing
    and the database refuses the first statement for its unknown table. *)
Theorem NewSqlStore_on_a_healthy_handle :
  forall (Database : string) (w : World),
    healthy w ->
    (forall t, table_of (data w) "license" license.tableDefs t ->
     exists w',
       license.NewSqlStore Database w
       = (if prefix "postgres" Database then Ok license_statements
          else Fail syntax_error, w') /\
       healthy w' /\ data w' = data w) /\
    (find_table (data w) "license" = None ->
     exists w' t,
       license.NewSqlStore Database w
       = (if prefix "postgres" Database then Ok license_statements
          else if prefix "sqlite" Database then Fail syntax_error
          else Fail no_table, w') /\
       healthy w' /\
       data w' = (if prefix "sqlite" Database || prefix "postgres" Database
                  then data w ++ [("license", t)] else data w)%list /\
       tcols t = columns_of (license.tabledefquery (license.select_queries Database)) /\
       trows t = []).
Proof.
  intros Database w H.
  destruct (license_create_text Database) as ((fks & P) & I). cbv zeta in P, I.
  pose proof (Exec_healthy (license.tabledefquery (license.select_queries Database))
                [] w H) as E.
  rewrite P in E. unfold run in E. split.
  - intros t T. pose proof T as (F & _). rewrite F in E.
    destruct (prefix "sqlite" Database || prefix "postgres" Database) eqn:D.
    + destruct (NewSqlStore_after_create Database w _ t
                  ltac:(rewrite D; eexists; exact E) H T) as (w' & O & H' & D').
      exists w'. split; [exact O|]. split; [exact H' | exact D'].
    + destruct (NewSqlStore_after_create Database w w t
                  ltac:(rewrite D; reflexivity) H T) as (w' & O & H' & D').
      exists w'. split; [exact O|]. split; [exact H' | exact D'].
  - intros F. rewrite F in E.
    set (t := mkTable (columns_of (license.tabledefquery
                                     (license.select_queries Database))) fks []) in *.
    destruct (prefix "sqlite" Database || prefix "postgres" Database) eqn:D.
    + destruct (NewSqlStore_after_create Database w _ t
                  ltac:(rewrite D; eexists; exact E) H) as (w' & O & H' & D').
      * split; [|split].
        -- cbn [data set_data]. apply find_table_app, F.
        -- exists (license.tabledefquery (license.select_queries Database)).
           split; [exact I | reflexivity].
        -- constructor.
      * exists w', t. split.
        -- rewrite O. destruct (prefix "postgres" Database); [reflexivity|].
           rewrite orb_false_r in D. now rewrite D.
        -- split; [exact H'|]. split; [exact D'|]. split; reflexivity.
    + apply orb_false_iff in D. destruct D as (D1 & D2).
      unfold license.NewSqlStore. rewrite D1, D2. cbv zeta. cbn [orb].
      pose proof (license_texts_other _ D2) as X.
      unfold parses in X. cbn [map] in X. injection X as X1 _ _ _ _ _ _.
      rewrite (Prepare_healthy_refused _ _ no_table _ H X1)
        by (unfold license_statements, check; cbn [license.listall]; now rewrite F).
      eexists. exists t. split; [reflexivity|]. split; [exact H|].
      split; [reflexivity|]. split; reflexivity.
Qed.

Lemma NewSqlStore_on_a_healthy_handle_witness :
  (exists w',
     license.NewSqlStore "sqlite3" sample_world = (Fail syntax_error, w') /\
     healthy w' /\ data w' = data sample_world) /\
  (exists w' t,
     license.NewSqlStore "sqlite3" empty_world = (Fail syntax_error, w') /\
     healthy w' /\
     data w' = (data empty_world ++ [("license", t)])%list /\
     tcols t = columns_of (license.tabledefquery (license.select_queries "sqlite3")) /\
     trows t = []).
Proof.
  split.
  - apply (proj1 (NewSqlStore_on_a_healthy_handle "sqlite3" sample_world sample_healthy)
             (the_table sample_world "license")).
    exact sample_license_table.
  - apply (proj2 (NewSqlStore_on_a_healthy_handle "sqlite3" empty_world eq_refl)).
    reflexivity.
Defined.

End OpenStore.

(** ** Add, then List, of the store *)

Section StoreAddThenList.





End StoreAddThenList.

(** ** Opening with a driver that fails *)

Section OpeningFaults.

Lemma Exec_fault q args w msg rest :
  faults w = Some msg :: rest ->
  Exec q args w = (Fail (ErrDriver msg), failed_call (EvExec q args) w).
Proof. intros F. unfold Exec. now rewrite (next_fault_fails _ _ _ _ F). Qed.

Lemma Prepare_fault q w msg rest :
  faults w = Some msg :: rest ->
  Prepare q w = (Fail (ErrDriver msg), failed_call (EvPrepare q) w).
Proof. intros F. unfold Prepare. now rewrite (next_fault_fails _ _ _ _ F). Qed.

(** X15: when the driver fails the first call on the handle, [Open] and
    [NewSqlStore] return the driver's error and make no other call: no
    table is created and no statement is prepared.  The failed call is
    CREATE TABLE for [Open]; for [NewSqlStore] it is CREATE TABLE under
    sqlite and postgres, after which a line is printed, and the
    preparation of the first statement otherwise. *)
Theorem opening_stops_at_a_driver_error :
  forall (Database : string) (w : World) (msg : string) (rest : list (option string)),
    faults w = Some msg :: rest ->
    index.Open Database w
    = (Fail (ErrDriver msg),
       failed_call (EvExec (index.createTableQuery (index.select_queries Database)) [])
                   w) /\
    license.NewSqlStore Database w
    = (Fail (ErrDriver msg),
       if prefix "sqlite" Database || prefix "postgres" Database
       then record (EvPrintln "Error creating license table")
              (failed_call
                 (EvExec (license.tabledefquery (license.select_queries Database)) [])
                 w)
       else failed_call
              (EvPrepare (license.listallquery (license.select_queries Database))) w).
Proof.
  intros Database w msg rest F. split.
  - unfold index.Open. now rewrite (Exec_fault _ _ _ _ _ F).
  - unfold license.NewSqlStore.
    destruct (prefix "sqlite" Database || prefix "postgres" Database).
    + now rewrite (Exec_fault _ _ _ _ _ F).
    + cbv zeta. now rewrite (Prepare_fault _ _ _ _ F).
Qed.

Lemma opening_stops_witness :
  fst (index.Open "mysql" broken_world) = Fail (ErrDriver "connection refused") /\
  fst (license.NewSqlStore "mysql" broken_world) = Fail (ErrDriver "connection refused").
Proof.
  destruct (opening_stops_at_a_driver_error "mysql" broken_world "connection refused" []
              eq_refl) as (O & N).
  rewrite O, N. split; reflexivity.
Defined.

End OpeningFaults.
